(** * StreamCast: the stream session orchestrator

    A shallow embedding of the server side of StreamCast
    (server/storage.ts, server/services/ffmpeg.ts, server/services/facebook.ts
    and server/routes.ts) and the properties of it that the specification
    states.

    - [JsMap]       the JavaScript [Map] the storage is built on: an
                    association list in insertion order;
    - [MemStorage]  the in-memory storage class;
    - [FFmpeg]      the FFmpegService class, one step per callback of the
                    event loop;
    - [Facebook]    the calls made to the remote live platform;
    - [Routes]      the HTTP handlers of the queue and of the stream;
    - [VideoInfo]   the probe of an uploaded file;
    - [Metrics]     the metrics map of the storage;
    - [Args]        the arguments given to ffmpeg;
    - [Upload]      the upload handler, [Sampler] the periodic metrics;
    - [Client]      how the components show a duration. *)

From Stdlib Require Import List ZArith QArith Qround Qreduction String Ascii Bool Lia.
From Stdlib Require Import DecimalString.
From Stdlib Require Import Sorting.Sorted Sorting.Permutation.
Import ListNotations.

Local Open Scope string_scope.
Local Open Scope Z_scope.
Local Open Scope list_scope.

(** ** JavaScript maps

    A [Map] iterates in insertion order; [set] on a key that is present
    keeps the key's place and replaces the value. *)

Module JsMap.

Definition t (V : Type) : Type := list (string * V).

Definition empty {V : Type} : t V := [].

Fixpoint get {V : Type} (m : t V) (k : string) : option V :=
  match m with
  | [] => None
  | (k', v) :: m' => if String.eqb k' k then Some v else get m' k
  end.

Fixpoint set {V : Type} (m : t V) (k : string) (v : V) : t V :=
  match m with
  | [] => [(k, v)]
  | (k', v') :: m' =>
      if String.eqb k' k then (k', v) :: m' else (k', v') :: set m' k v
  end.

(** [Map.prototype.delete] answers whether the key was there; a key is
    bound once in a [Map], and every binding of the key goes. *)
Fixpoint delete {V : Type} (m : t V) (k : string) : t V * bool :=
  match m with
  | [] => ([], false)
  | (k', v') :: m' =>
      let (r, b) := delete m' k in
      if String.eqb k' k then (r, true) else ((k', v') :: r, b)
  end.

Definition values {V : Type} (m : t V) : list V := List.map snd m.

Definition keys {V : Type} (m : t V) : list string := List.map fst m.

Definition size {V : Type} (m : t V) : nat := List.length m.

(** What every map built from [empty] by [set] and [delete] satisfies. *)
Definition wf {V : Type} (m : t V) : Prop := NoDup (keys m).

End JsMap.

(** ** Arrays

    [Array.prototype.find] and [Array.prototype.sort].  The sort is stable
    (ECMAScript 2019); the comparator answers a number, negative when its
    first argument goes first. *)

Section Arrays.
Context {A : Type}.

Fixpoint array_find (p : A -> bool) (l : list A) : option A :=
  match l with
  | [] => None
  | x :: l' => if p x then Some x else array_find p l'
  end.

Variable cmp : A -> A -> Z.

Fixpoint sort_insert (x : A) (l : list A) : list A :=
  match l with
  | [] => [x]
  | y :: l' => if cmp x y <=? 0 then x :: y :: l' else y :: sort_insert x l'
  end.

Fixpoint array_sort (l : list A) : list A :=
  match l with
  | [] => []
  | x :: l' => sort_insert x (array_sort l')
  end.

End Arrays.

(** ** The data model (shared/schema.ts) *)

Definition Date := Z.

Record Video := mkVideo {
  v_id : string;
  v_filename : string;
  v_originalName : string;
  v_size : Z;
  v_duration : option Z;
  v_status : string;
  v_createdAt : Date
}.

Record StreamingSession := mkSession {
  s_id : string;
  s_status : string;
  s_currentVideoId : option string;
  s_facebookPageId : option string;
  s_streamTitle : option string;
  s_streamDescription : option string;
  s_startTime : option Date;
  s_endTime : option Date;
  s_createdAt : Date
}.

Record InsertStreamingSession := mkInsertSession {
  is_status : option string;
  is_currentVideoId : option string;
  is_facebookPageId : option string;
  is_streamTitle : option string;
  is_streamDescription : option string;
  is_startTime : option Date;
  is_endTime : option Date
}.

(** [Partial<StreamingSession>]: a field is either absent or given. *)
Record PartialSession := mkPartialSession {
  p_status : option string;
  p_currentVideoId : option (option string);
  p_facebookPageId : option (option string);
  p_streamTitle : option (option string);
  p_streamDescription : option (option string);
  p_startTime : option (option Date);
  p_endTime : option (option Date)
}.

Record StreamingQueue := mkQueue {
  q_id : string;
  q_videoId : string;
  q_position : Z;
  q_sessionId : option string;
  q_createdAt : Date
}.

Record InsertStreamingQueue := mkInsertQueue {
  iq_videoId : string;
  iq_position : Z;
  iq_sessionId : option string
}.

Record StreamConfiguration := mkConfiguration {
  c_id : string;
  c_quality : string;
  c_bitrate : string;
  c_autoQueue : bool;
  c_notifications : bool;
  c_updatedAt : Date
}.

Record FacebookCredentials := mkCredentials {
  fc_id : string;
  fc_accessToken : string;
  fc_pageId : string;
  fc_pageName : string;
  fc_isActive : bool;
  fc_createdAt : Date
}.

Record InsertVideo := mkInsertVideo {
  iv_filename : string;
  iv_originalName : string;
  iv_size : Z;
  iv_duration : option Z;
  iv_status : option string
}.

Record InsertFacebookCredentials := mkInsertCredentials {
  ifc_accessToken : string;
  ifc_pageId : string;
  ifc_pageName : string;
  ifc_isActive : option bool
}.

Record InsertStreamConfiguration := mkInsertConfiguration {
  ic_quality : option string;
  ic_bitrate : option string;
  ic_autoQueue : option bool;
  ic_notifications : option bool
}.

Record StreamMetrics := mkMetrics {
  m_id : string;
  m_sessionId : string;
  m_currentViewers : Z;
  m_peakViewers : Z;
  m_totalReach : Z;
  m_engagementRate : string;
  m_duration : Z;
  m_dataUsage : Z;
  m_timestamp : Date
}.

Record InsertStreamMetrics := mkInsertMetrics {
  im_sessionId : string;
  im_currentViewers : option Z;
  im_peakViewers : option Z;
  im_totalReach : option Z;
  im_engagementRate : option string;
  im_duration : option Z;
  im_dataUsage : option Z
}.

Definition or_else {A : Type} (o : option A) (d : A) : A :=
  match o with Some a => a | None => d end.

(** ** server/storage.ts

    [randomUUID()] and [new Date()] are the environment's: every operation
    that calls them takes the identifier and the date it was handed. *)

Module MemStorage.

Record t := mk {
  videos : JsMap.t Video;
  sessions : JsMap.t StreamingSession;
  queue : JsMap.t StreamingQueue;
  configuration : option StreamConfiguration;
  credentials : JsMap.t FacebookCredentials
}.

Definition init : t := mk JsMap.empty JsMap.empty JsMap.empty None JsMap.empty.

Definition with_videos (st : t) (m : JsMap.t Video) : t :=
  mk m (sessions st) (queue st) (configuration st) (credentials st).
Definition with_sessions (st : t) (m : JsMap.t StreamingSession) : t :=
  mk (videos st) m (queue st) (configuration st) (credentials st).
Definition with_queue (st : t) (m : JsMap.t StreamingQueue) : t :=
  mk (videos st) (sessions st) m (configuration st) (credentials st).
Definition with_configuration (st : t) (c : option StreamConfiguration) : t :=
  mk (videos st) (sessions st) (queue st) c (credentials st).

Definition getVideos (st : t) : list Video := JsMap.values (videos st).

Definition getVideo (st : t) (id : string) : option Video :=
  JsMap.get (videos st) id.

Definition createVideo (st : t) (insertVideo : InsertVideo)
           (uuid : string) (now : Date) : t * Video :=
  let video := mkVideo uuid (iv_filename insertVideo) (iv_originalName insertVideo)
                       (iv_size insertVideo) (iv_duration insertVideo)
                       (or_else (iv_status insertVideo) "uploaded") now in
  (with_videos st (JsMap.set (videos st) uuid video), video).

Definition deleteVideo (st : t) (id : string) : t * bool :=
  let (m, b) := JsMap.delete (videos st) id in (with_videos st m, b).

Definition getCurrentSession (st : t) : option StreamingSession :=
  array_find (fun s => String.eqb (s_status s) "streaming")
             (JsMap.values (sessions st)).

Definition createSession (st : t) (insertSession : InsertStreamingSession)
           (uuid : string) (now : Date) : t * StreamingSession :=
  let session :=
    mkSession uuid
              (or_else (is_status insertSession) "idle")
              (is_currentVideoId insertSession)
              (is_facebookPageId insertSession)
              (is_streamTitle insertSession)
              (is_streamDescription insertSession)
              (is_startTime insertSession)
              (is_endTime insertSession)
              now in
  (with_sessions st (JsMap.set (sessions st) uuid session), session).

(** [{ ...session, ...updates }]; the callers give [status] and
    [endTime], never [id] or [createdAt]. *)
Definition spread (session : StreamingSession) (updates : PartialSession)
  : StreamingSession :=
  mkSession (s_id session)
            (or_else (p_status updates) (s_status session))
            (or_else (p_currentVideoId updates) (s_currentVideoId session))
            (or_else (p_facebookPageId updates) (s_facebookPageId session))
            (or_else (p_streamTitle updates) (s_streamTitle session))
            (or_else (p_streamDescription updates) (s_streamDescription session))
            (or_else (p_startTime updates) (s_startTime session))
            (or_else (p_endTime updates) (s_endTime session))
            (s_createdAt session).

Definition updateSession (st : t) (id : string) (updates : PartialSession)
  : t * option StreamingSession :=
  match JsMap.get (sessions st) id with
  | Some session =>
      let updated := spread session updates in
      (with_sessions st (JsMap.set (sessions st) id updated), Some updated)
  | None => (st, None)
  end.

Definition by_position (a b : StreamingQueue) : Z := q_position a - q_position b.

(** The loop of [getQueue]: an item is pushed when its video is found. *)
Fixpoint attach_videos (vs : JsMap.t Video) (queueItems : list StreamingQueue)
  : list (StreamingQueue * Video) :=
  match queueItems with
  | [] => []
  | item :: rest =>
      match JsMap.get vs (q_videoId item) with
      | Some video => (item, video) :: attach_videos vs rest
      | None => attach_videos vs rest
      end
  end.

Definition getQueue (st : t) : list (StreamingQueue * Video) :=
  let queueItems := array_sort by_position (JsMap.values (queue st)) in
  attach_videos (videos st) queueItems.

Definition addToQueue (st : t) (insertItem : InsertStreamingQueue)
           (uuid : string) (now : Date) : t * StreamingQueue :=
  let item := mkQueue uuid (iq_videoId insertItem) (iq_position insertItem)
                      (iq_sessionId insertItem) now in
  (with_queue st (JsMap.set (queue st) uuid item), item).

Definition removeFromQueue (st : t) (id : string) : t * bool :=
  let (m, b) := JsMap.delete (queue st) id in (with_queue st m, b).

Definition clearQueue (st : t) : t * bool := (with_queue st JsMap.empty, true).

Definition reorderQueue (st : t) (id : string) (newPosition : Z) : t * bool :=
  match JsMap.get (queue st) id with
  | Some item =>
      let updated := mkQueue (q_id item) (q_videoId item) newPosition
                             (q_sessionId item) (q_createdAt item) in
      (with_queue st (JsMap.set (queue st) id updated), true)
  | None => (st, false)
  end.

Definition getConfiguration (st : t) (uuid : string) (now : Date)
  : t * StreamConfiguration :=
  match configuration st with
  | Some c => (st, c)
  | None =>
      let c := mkConfiguration uuid "1080p" "4000" true true now in
      (with_configuration st (Some c), c)
  end.

Definition getFacebookCredentials (st : t) : list FacebookCredentials :=
  JsMap.values (credentials st).

Definition createFacebookCredentials (st : t)
           (insertCredentials : InsertFacebookCredentials)
           (uuid : string) (now : Date) : t * FacebookCredentials :=
  let c := mkCredentials uuid (ifc_accessToken insertCredentials)
                         (ifc_pageId insertCredentials)
                         (ifc_pageName insertCredentials)
                         (or_else (ifc_isActive insertCredentials) true) now in
  (mk (videos st) (sessions st) (queue st) (configuration st)
      (JsMap.set (credentials st) uuid c), c).

Definition updateVideoStatus (st : t) (id : string) (status : string)
  : t * option Video :=
  match JsMap.get (videos st) id with
  | Some video =>
      let updated := mkVideo (v_id video) (v_filename video) (v_originalName video)
                             (v_size video) (v_duration video) status
                             (v_createdAt video) in
      (with_videos st (JsMap.set (videos st) id updated), Some updated)
  | None => (st, None)
  end.

(** [this.configuration?.id || randomUUID()]: an empty identifier is
    falsy. *)
Definition updateConfiguration (st : t) (config : InsertStreamConfiguration)
           (uuid : string) (now : Date) : t * StreamConfiguration :=
  let id :=
    match configuration st with
    | Some c => if String.eqb (c_id c) "" then uuid else c_id c
    | None => uuid
    end in
  let c := mkConfiguration id
                           (or_else (ic_quality config) "1080p")
                           (or_else (ic_bitrate config) "4000")
                           (or_else (ic_autoQueue config) true)
                           (or_else (ic_notifications config) true)
                           now in
  (with_configuration st (Some c), c).

Definition deleteFacebookCredentials (st : t) (id : string) : t * bool :=
  let (m, b) := JsMap.delete (credentials st) id in
  (mk (videos st) (sessions st) (queue st) (configuration st) m, b).

End MemStorage.

(** ** server/services/ffmpeg.ts

    Node runs one callback at a time, so the service is a transition
    system with one step per callback: a call of [startStream] or
    [stopStream] up to the promise it returns, the ['close'] and ['error']
    listeners of a child process, and the two [setTimeout] callbacks.
    Child processes are objects the service refers to, so they live in a
    table and [streamingProcess] holds an index into it; the listeners are
    kept with the process they were registered on.  The delays of the
    timers (2000 ms and 5000 ms) are not part of the model: a pending timer
    fires when the environment says so. *)

Module FFmpeg.

Record StreamingOptions := mkOptions {
  inputFile : string;
  rtmpUrl : string;
  quality : string;
  bitrate : string
}.

Inductive Signal := SIGTERM | SIGKILL.

(** The errors a promise of the service is rejected with:
    "Stream is already running", "Video file not found: ...",
    "Failed to start FFmpeg process", and the error of an ['error']
    event. *)
Inductive Error :=
| AlreadyRunning
| InputNotFound (file : string)
| LaunchFailed
| ProcessError.

Inductive Settled := Resolved (value : bool) | Rejected (reason : Error).

(** The two closures given to [on("close", ...)]: the one of
    [startStream], and the one of [stopStream] with the [resolve] it
    captured. *)
Inductive Listener := StartClose | StopClose (promise : nat).

(** A [ChildProcess].  [killed] is Node's flag: it is set by a [kill()]
    that delivered its signal and says nothing about the process having
    ended.  [running] is the operating system's view. *)
Record ChildProcess := mkProcess {
  spawnedWith : StreamingOptions;
  killed : bool;
  running : bool;
  closed : bool;
  signals : list Signal;
  closeListeners : list Listener;
  launch : nat
}.

Inductive Timer :=
| ConfirmTimer (promise : nat) (options : StreamingOptions)
| EscalationTimer.

Record t := mk {
  streamingProcess : option nat;
  isStreaming : bool;
  currentStreamInfo : option StreamingOptions;
  processes : list ChildProcess;
  promises : list (option Settled);
  timers : list Timer
}.

Definition init : t := mk None false None [] [] [].

Fixpoint update_nth {A : Type} (n : nat) (f : A -> A) (l : list A) : list A :=
  match l, n with
  | [], _ => []
  | x :: l', O => f x :: l'
  | x :: l', S n' => x :: update_nth n' f l'
  end.

Fixpoint remove_nth {A : Type} (n : nat) (l : list A) : list A :=
  match l, n with
  | [], _ => []
  | _ :: l', O => l'
  | x :: l', S n' => x :: remove_nth n' l'
  end.

Definition process (s : t) (pid : nat) : option ChildProcess :=
  nth_error (processes s) pid.

Definition settled (s : t) (promise : nat) : option Settled :=
  match nth_error (promises s) promise with
  | Some r => r
  | None => None
  end.

(** [resolve] and [reject]: the first settlement stands. *)
Definition settle (promise : nat) (r : Settled) (ps : list (option Settled))
  : list (option Settled) :=
  update_nth promise (fun old => match old with Some _ => old | None => Some r end) ps.

(** [subprocess.kill(signal)]: the signal is delivered when the process
    is still running, and [killed] is set on delivery. *)
Definition kill (signal : Signal) (p : ChildProcess) : ChildProcess :=
  mkProcess (spawnedWith p) (killed p || running p) (running p) (closed p)
            (signals p ++ [signal]) (closeListeners p) (launch p).

Definition add_listener (l : Listener) (p : ChildProcess) : ChildProcess :=
  mkProcess (spawnedWith p) (killed p) (running p) (closed p)
            (signals p) (closeListeners p ++ [l]) (launch p).

Definition set_running (b : bool) (p : ChildProcess) : ChildProcess :=
  mkProcess (spawnedWith p) (killed p) b (closed p)
            (signals p) (closeListeners p) (launch p).

Definition set_closed (p : ChildProcess) : ChildProcess :=
  mkProcess (spawnedWith p) (killed p) (running p) true
            (signals p) (closeListeners p) (launch p).

(** [startStream], up to the promise it returns. *)
Definition startStream (s : t) (options : StreamingOptions) (inputExists : bool)
  : t * nat :=
  let promise := List.length (promises s) in
  if isStreaming s then
    (mk (streamingProcess s) (isStreaming s) (currentStreamInfo s) (processes s)
        (promises s ++ [Some (Rejected AlreadyRunning)]) (timers s), promise)
  else if negb inputExists then
    (mk (streamingProcess s) (isStreaming s) (currentStreamInfo s) (processes s)
        (promises s ++ [Some (Rejected (InputNotFound (inputFile options)))])
        (timers s), promise)
  else
    let pid := List.length (processes s) in
    (mk (Some pid) (isStreaming s) (currentStreamInfo s)
        (processes s ++ [mkProcess options false true false [] [StartClose] promise])
        (promises s ++ [None])
        (timers s ++ [ConfirmTimer promise options]), promise).

(** The ['close'] listeners. *)
Definition on_close (s : t) (l : Listener) : t :=
  match l with
  | StartClose =>
      mk None false (currentStreamInfo s) (processes s) (promises s) (timers s)
  | StopClose promise =>
      mk None false None (processes s)
         (settle promise (Resolved true) (promises s)) (timers s)
  end.

(** The ['error'] listener of [startStream]. *)
Definition on_error (s : t) (promise : nat) : t :=
  mk None false (currentStreamInfo s) (processes s)
     (settle promise (Rejected ProcessError) (promises s)) (timers s).

(** [this.streamingProcess && !this.streamingProcess.killed] *)
Definition handle_not_killed (s : t) : bool :=
  match streamingProcess s with
  | Some pid =>
      match process s pid with
      | Some p => negb (killed p)
      | None => false
      end
  | None => false
  end.

(** The callback of [setTimeout(..., 2000)] in [startStream]. *)
Definition on_confirm (s : t) (promise : nat) (options : StreamingOptions) : t :=
  if handle_not_killed s then
    mk (streamingProcess s) true (Some options) (processes s)
       (settle promise (Resolved true) (promises s)) (timers s)
  else
    mk (streamingProcess s) (isStreaming s) (currentStreamInfo s) (processes s)
       (settle promise (Rejected LaunchFailed) (promises s)) (timers s).

(** [stopStream], up to the promise it returns. *)
Definition stopStream (s : t) : t * nat :=
  let promise := List.length (promises s) in
  match isStreaming s, streamingProcess s with
  | true, Some pid =>
      (mk (streamingProcess s) (isStreaming s) (currentStreamInfo s)
          (update_nth pid (fun p => kill SIGTERM (add_listener (StopClose promise) p))
                      (processes s))
          (promises s ++ [None])
          (timers s ++ [EscalationTimer]), promise)
  | _, _ =>
      (mk (streamingProcess s) (isStreaming s) (currentStreamInfo s) (processes s)
          (promises s ++ [Some (Resolved false)]) (timers s), promise)
  end.

(** The callback of [setTimeout(..., 5000)] in [stopStream]. *)
Definition on_escalation (s : t) : t :=
  if handle_not_killed s then
    match streamingProcess s with
    | Some pid =>
        mk (streamingProcess s) (isStreaming s) (currentStreamInfo s)
           (update_nth pid (kill SIGKILL) (processes s))
           (promises s) (timers s)
    | None => s
    end
  else s.

Definition getStreamingStatus (s : t) : bool := isStreaming s.

Definition getCurrentStreamInfo (s : t) : option StreamingOptions :=
  currentStreamInfo s.

Definition isProcessAlive (s : t) : bool := handle_not_killed s.

(** What the event loop can run next. *)
Inductive Event :=
| CallStart (options : StreamingOptions) (inputExists : bool)
| CallStop
| ProcessExits (pid : nat)
| EmitClose (pid : nat)
| EmitError (pid : nat)
| Fire (timer : nat).

Definition with_processes (s : t) (ps : list ChildProcess) : t :=
  mk (streamingProcess s) (isStreaming s) (currentStreamInfo s) ps
     (promises s) (timers s).

Definition with_timers (s : t) (ts : list Timer) : t :=
  mk (streamingProcess s) (isStreaming s) (currentStreamInfo s) (processes s)
     (promises s) ts.

(** One callback; [None] when the event cannot happen in [s]: a process
    ends once, ['close'] comes once and after the process has ended, and
    only a pending timer fires. *)
Definition step (s : t) (e : Event) : option t :=
  match e with
  | CallStart options inputExists => Some (fst (startStream s options inputExists))
  | CallStop => Some (fst (stopStream s))
  | ProcessExits pid =>
      match process s pid with
      | Some p =>
          if running p
          then Some (with_processes s (update_nth pid (set_running false) (processes s)))
          else None
      | None => None
      end
  | EmitClose pid =>
      match process s pid with
      | Some p =>
          if negb (running p) && negb (closed p)
          then Some (fold_left on_close (closeListeners p)
                       (with_processes s (update_nth pid set_closed (processes s))))
          else None
      | None => None
      end
  | EmitError pid =>
      match process s pid with
      | Some p => if closed p then None else Some (on_error s (launch p))
      | None => None
      end
  | Fire i =>
      match nth_error (timers s) i with
      | Some (ConfirmTimer promise options) =>
          Some (on_confirm (with_timers s (remove_nth i (timers s))) promise options)
      | Some EscalationTimer =>
          Some (on_escalation (with_timers s (remove_nth i (timers s))))
      | None => None
      end
  end.

Fixpoint run (s : t) (es : list Event) : option t :=
  match es with
  | [] => Some s
  | e :: es' =>
      match step s e with
      | Some s' => run s' es'
      | None => None
      end
  end.

(** [await promise]: the caller goes on as soon as the promise is
    settled; until then the events of [during] happen.  The answer is
    [None] when they do not settle it. *)
Fixpoint await (s : t) (promise : nat) (during : list Event) : t * option Settled :=
  match settled s promise with
  | Some r => (s, Some r)
  | None =>
      match during with
      | [] => (s, None)
      | e :: rest =>
          match step s e with
          | Some s' => await s' promise rest
          | None => (s, None)
          end
      end
  end.

End FFmpeg.

(** ** server/services/facebook.ts

    The Graph API is the remote platform's; what the server does to it is
    the list of calls it makes, and what comes back is the environment's. *)

Module Facebook.

Record LiveVideoResponse := mkLiveVideo {
  id : string;
  stream_url : string
}.

Inductive Call :=
| CreateLiveVideo (pageId pageAccessToken title description : string)
| EndLiveVideo (videoId accessToken : string).

Definition t := list Call.

(** [createLiveVideo]: [None] is the thrown error of a response that is
    not ok. *)
Definition createLiveVideo (log : t) (pageId pageAccessToken title description : string)
           (response : option LiveVideoResponse) : t * option LiveVideoResponse :=
  (log ++ [CreateLiveVideo pageId pageAccessToken title description], response).

(** [endLiveVideo]: [response.ok], and [false] when the request throws. *)
Definition endLiveVideo (log : t) (videoId accessToken : string)
           (response : option bool) : t * bool :=
  (log ++ [EndLiveVideo videoId accessToken], or_else response false).

Definition is_end (c : Call) : bool :=
  match c with EndLiveVideo _ _ => true | CreateLiveVideo _ _ _ _ => false end.

End Facebook.

(** ** server/routes.ts

    The state of the server is the storage, the FFmpeg service, the calls
    made to Facebook and the messages handed to [broadcast].  A handler
    that awaits a promise of the FFmpeg service is given the events that
    happen while it waits; it answers [None] when they leave the promise
    pending (no response is sent).  What a handler does between two such
    waits is one step: the storage answers at once, and nothing is taken to
    happen during the request to Facebook. *)

Module Routes.

Inductive Message :=
| video_deleted (id : string)
| queue_updated (data : list (StreamingQueue * Video))
| stream_started (session : StreamingSession) (video : Video)
| stream_stopped (sessionId : string).

Inductive Response :=
| json_success
| json_queue (data : list (StreamingQueue * Video))
| json_queueItem (item : StreamingQueue)
| json_session (session : StreamingSession)
| json_status (isStreaming : bool) (session : option StreamingSession)
| json_error (status : nat) (error : string).

Record t := mk {
  storage : MemStorage.t;
  ffmpeg : FFmpeg.t;
  facebook : Facebook.t;
  broadcasts : list Message
}.

Definition init : t := mk MemStorage.init FFmpeg.init [] [].

(** [app.delete("/api/videos/:id")]; the file on disk is not modelled. *)
Definition deleteVideo (app : t) (id : string) : t * Response :=
  match MemStorage.getVideo (storage app) id with
  | None => (app, json_error 404 "Video not found")
  | Some video =>
      let (st, _) := MemStorage.deleteVideo (storage app) id in
      (mk st (ffmpeg app) (facebook app) (broadcasts app ++ [video_deleted id]),
       json_success)
  end.

(** [app.get("/api/queue")] *)
Definition getQueue (app : t) : t * Response :=
  (app, json_queue (MemStorage.getQueue (storage app))).

(** [app.post("/api/queue")]; [queueData] is what
    [insertStreamingQueueSchema.parse(req.body)] returns, [None] when it
    throws. *)
Definition postQueue (app : t) (queueData : option InsertStreamingQueue)
           (uuid : string) (now : Date) : t * Response :=
  match queueData with
  | None => (app, json_error 500 "Failed to add to queue")
  | Some insertItem =>
      let (st, queueItem) := MemStorage.addToQueue (storage app) insertItem uuid now in
      (mk st (ffmpeg app) (facebook app)
          (broadcasts app ++ [queue_updated (MemStorage.getQueue st)]),
       json_queueItem queueItem)
  end.

(** [app.delete("/api/queue/:id")] *)
Definition deleteQueueItem (app : t) (id : string) : t * Response :=
  let (st, _) := MemStorage.removeFromQueue (storage app) id in
  (mk st (ffmpeg app) (facebook app)
      (broadcasts app ++ [queue_updated (MemStorage.getQueue st)]),
   json_success).

(** [app.delete("/api/queue")] *)
Definition deleteQueue (app : t) : t * Response :=
  let (st, _) := MemStorage.clearQueue (storage app) in
  (mk st (ffmpeg app) (facebook app) (broadcasts app ++ [queue_updated []]),
   json_success).

Record StartBody := mkStartBody {
  videoId : string;
  facebookPageId : string;
  streamTitle : string;
  streamDescription : string
}.

(** [x || d] on strings: the empty string is falsy. *)
Definition or_default (x d : string) : string :=
  if String.eqb x "" then d else x.

(** [app.post("/api/stream/start")] *)
Definition streamStart (app : t) (body : StartBody)
           (configUuid uuid : string) (now : Date)
           (response : option Facebook.LiveVideoResponse)
           (inputExists : bool) (during : list FFmpeg.Event)
  : t * option Response :=
  match MemStorage.getVideo (storage app) (videoId body) with
  | None => (app, Some (json_error 404 "Video not found"))
  | Some video =>
      let credentials := MemStorage.getFacebookCredentials (storage app) in
      match array_find (fun c => String.eqb (fc_pageId c) (facebookPageId body))
                       credentials with
      | None => (app, Some (json_error 400 "Facebook credentials not found"))
      | Some pageCredential =>
          let (fb, liveVideo) :=
            Facebook.createLiveVideo (facebook app) (facebookPageId body)
              (fc_accessToken pageCredential) (streamTitle body)
              (streamDescription body) response in
          match liveVideo with
          | None =>
              (mk (storage app) (ffmpeg app) fb (broadcasts app),
               Some (json_error 500 "Failed to start stream"))
          | Some liveVideo =>
              let (st, config) :=
                MemStorage.getConfiguration (storage app) configUuid now in
              let (ff, promise) :=
                FFmpeg.startStream (ffmpeg app)
                  (FFmpeg.mkOptions (v_filename video)
                                    (Facebook.stream_url liveVideo)
                                    (or_default (c_quality config) "1080p")
                                    (or_default (c_bitrate config) "4000"))
                  inputExists in
              match FFmpeg.await ff promise during with
              | (ff', None) => (mk st ff' fb (broadcasts app), None)
              | (ff', Some (FFmpeg.Rejected _)) =>
                  (mk st ff' fb (broadcasts app),
                   Some (json_error 500 "Failed to start stream"))
              | (ff', Some (FFmpeg.Resolved _)) =>
                  let (st', session) :=
                    MemStorage.createSession st
                      (mkInsertSession (Some "streaming")
                                       (Some (videoId body))
                                       (Some (facebookPageId body))
                                       (Some (streamTitle body))
                                       (Some (streamDescription body))
                                       (Some now) None)
                      uuid now in
                  (mk st' ff' fb (broadcasts app ++ [stream_started session video]),
                   Some (json_session session))
              end
          end
      end
  end.

(** [app.post("/api/stream/stop")] *)
Definition streamStop (app : t) (now : Date) (during : list FFmpeg.Event)
  : t * option Response :=
  match MemStorage.getCurrentSession (storage app) with
  | None => (app, Some (json_error 400 "No active stream found"))
  | Some currentSession =>
      let (ff, promise) := FFmpeg.stopStream (ffmpeg app) in
      match FFmpeg.await ff promise during with
      | (ff', None) => (mk (storage app) ff' (facebook app) (broadcasts app), None)
      | (ff', Some (FFmpeg.Rejected _)) =>
          (mk (storage app) ff' (facebook app) (broadcasts app),
           Some (json_error 500 "Failed to stop stream"))
      | (ff', Some (FFmpeg.Resolved _)) =>
          let (st, _) :=
            MemStorage.updateSession (storage app) (s_id currentSession)
              (mkPartialSession (Some "stopped") None None None None None
                                (Some (Some now))) in
          (mk st ff' (facebook app)
              (broadcasts app ++ [stream_stopped (s_id currentSession)]),
           Some json_success)
      end
  end.

(** [app.get("/api/stream/status")] *)
Definition streamStatus (app : t) : t * Response :=
  (app, json_status (FFmpeg.getStreamingStatus (ffmpeg app))
                    (MemStorage.getCurrentSession (storage app))).

(** What happens to the server: a request, or a callback of the FFmpeg
    service between requests. *)
Inductive Action :=
| RequestStart (body : StartBody) (configUuid uuid : string) (now : Date)
               (response : option Facebook.LiveVideoResponse)
               (inputExists : bool) (during : list FFmpeg.Event)
| RequestStop (now : Date) (during : list FFmpeg.Event)
| Callback (e : FFmpeg.Event).

Definition sent_response (r : t * option Response) : t * list Response :=
  match snd r with
  | Some response => (fst r, [response])
  | None => (fst r, [])
  end.

(** The state after an action, and the response when one is sent; [None]
    when the callback cannot happen. *)
Definition act (app : t) (a : Action) : option (t * list Response) :=
  match a with
  | RequestStart body configUuid uuid now response inputExists during =>
      Some (sent_response
              (streamStart app body configUuid uuid now response inputExists during))
  | RequestStop now during => Some (sent_response (streamStop app now during))
  | Callback e =>
      match FFmpeg.step (ffmpeg app) e with
      | Some ff => Some (mk (storage app) ff (facebook app) (broadcasts app), [])
      | None => None
      end
  end.

Fixpoint run (app : t) (actions : list Action) : option (t * list Response) :=
  match actions with
  | [] => Some (app, [])
  | a :: rest =>
      match act app a with
      | Some (app', responses) =>
          match run app' rest with
          | Some (app'', responses') => Some (app'', responses ++ responses')
          | None => None
          end
      | None => None
      end
  end.

(** The status of a response: [res.json] answers 200. *)
Definition status (r : Response) : nat :=
  match r with
  | json_error code _ => code
  | _ => 200%nat
  end.

Definition streaming (app : t) : list StreamingSession :=
  filter (fun s => String.eqb (s_status s) "streaming")
         (JsMap.values (MemStorage.sessions (storage app))).

(** The client's "next to play": [queue[0]] of the queue read
    (client/src/components/streaming-queue.tsx). *)
Definition dequeueHead (st : MemStorage.t) : option (StreamingQueue * Video) :=
  hd_error (MemStorage.getQueue st).

End Routes.

(** ** [FFmpegService.getVideoInfo]

    The values are JavaScript's.  A string is the UTF-8 encoding of the
    JavaScript string.  A finite number is the rational that the double
    is, in lowest terms, and a number that is read or computed is rounded
    to the nearest double, ties to even; the sign of zero is not kept.
    [JSON.parse], the printing of numbers and the decoding of a [Buffer]
    are the runtime's and are taken as they come. *)

Module VideoInfo.

Inductive Number := NaN | Infinity (negative : bool) | Finite (q : Q).

(** *** Doubles *)

(** The integer nearest to [n / d], ties to even, for [0 < d]. *)
Definition round_half_even (n d : Z) : Z :=
  let f := n / d in
  let r := n mod d in
  if 2 * r <? d then f
  else if d <? 2 * r then f + 1
  else if Z.even f then f else f + 1.

(** The floor of the binary logarithm of [a / b], for [0 < a] and
    [0 < b]. *)
Definition ilog2 (a b : Z) : Z :=
  let d := Z.log2 a - Z.log2 b in
  if (if 0 <=? d then 2 ^ d * b <=? a else b <=? 2 ^ (- d) * a) then d else d - 1.

(** The double nearest to [a / b], for [0 < a] and [0 < b]: 53 bits of
    mantissa [m] at the exponent [e] of the number, which is not below
    that of the subnormal numbers; what rounds to [2 ^ 1024] is
    infinite. *)
Definition nearest (a b : Z) : Number :=
  let e := Z.max (ilog2 a b - 52) (-1074) in
  let m := round_half_even (a * 2 ^ Z.max (- e) 0) (b * 2 ^ Z.max e 0) in
  if 0 <=? e then
    if 2 ^ 1024 <=? m * 2 ^ e then Infinity false else Finite (inject_Z (m * 2 ^ e))
  else Finite (Qred (Qmake m (Z.to_pos (2 ^ (- e))))).

Definition negate (n : Number) : Number :=
  match n with
  | NaN => NaN
  | Infinity negative => Infinity (negb negative)
  | Finite q => Finite (- q)
  end.

(** The Number value for a rational. *)
Definition round_double (q : Q) : Number :=
  match Qnum q with
  | 0 => Finite 0
  | Zpos a => nearest (Zpos a) (Zpos (Qden q))
  | Zneg a => negate (nearest (Zpos a) (Zpos (Qden q)))
  end.

(** [Math.floor] *)
Definition floor (n : Number) : Number :=
  match n with
  | Finite q => Finite (inject_Z (Qfloor q))
  | _ => n
  end.

(** *** Values *)

#[local] Unset Elimination Schemes.
Inductive Value :=
| Undefined
| Null
| Boolean (b : bool)
| Num (n : Number)
| Str (s : string)
| Array (elements : list Value)
| Object (properties : list (string * Value)).
#[local] Set Elimination Schemes.

(** The properties of an object are its own, each name once. *)
Fixpoint lookup (properties : list (string * Value)) (name : string) : Value :=
  match properties with
  | [] => Undefined
  | (k, v) :: rest => if String.eqb k name then v else lookup rest name
  end.

Definition has_own (properties : list (string * Value)) (name : string) : bool :=
  existsb (fun kv => String.eqb (fst kv) name) properties.

(** All the values, or [None] when one is missing. *)
Fixpoint sequence {A : Type} (l : list (option A)) : option (list A) :=
  match l with
  | [] => Some []
  | Some x :: rest => option_map (cons x) (sequence rest)
  | None :: _ => None
  end.

(** [v.name], for the names read here ([format], [duration], [size]),
    which only an object can have; [None] is the TypeError of reading a
    property of [undefined] or [null]. *)
Definition member (v : Value) (name : string) : option Value :=
  match v with
  | Undefined | Null => None
  | Object properties => Some (lookup properties name)
  | Boolean _ | Num _ | Str _ | Array _ => Some Undefined
  end.

(** *** Reading numbers *)

(** The number of bytes of the white space or line terminator at the head
    of [s], 0 when there is none: TAB, LF, VT, FF, CR and SP in one byte,
    U+00A0 in two, and U+1680, U+2000 to U+200A, U+2028, U+2029, U+202F,
    U+205F, U+3000 and U+FEFF in three. *)
Definition space_length (s : list ascii) : nat :=
  match s with
  | [] => 0
  | c :: rest =>
      let c0 := nat_of_ascii c in
      let c1 := match rest with c' :: _ => nat_of_ascii c' | [] => 0 end in
      let c2 := match rest with _ :: c' :: _ => nat_of_ascii c' | _ => 0 end in
      if (9 <=? c0) && (c0 <=? 13) || (c0 =? 32) then 1
      else if (c0 =? 194) && (c1 =? 160) then 2
      else if (c0 =? 225) && (c1 =? 154) && (c2 =? 128) then 3
      else if (c0 =? 226) && (c1 =? 128) &&
              ((128 <=? c2) && (c2 <=? 138) || (c2 =? 168) || (c2 =? 169) || (c2 =? 175))
           then 3
      else if (c0 =? 226) && (c1 =? 129) && (c2 =? 159) then 3
      else if (c0 =? 227) && (c1 =? 128) && (c2 =? 128) then 3
      else if (c0 =? 239) && (c1 =? 187) && (c2 =? 191) then 3
      else 0
  end%nat.

(** [s] without the [pending] bytes left of a white space, and without
    the white space that follows them. *)
Fixpoint skip_bytes (pending : nat) (s : list ascii) : list ascii :=
  match s with
  | [] => []
  | c :: rest =>
      match pending with
      | S k => skip_bytes k rest
      | O =>
          match space_length s with
          | S k => skip_bytes k rest
          | O => s
          end
      end
  end.

Definition skip_space (s : list ascii) : list ascii := skip_bytes 0 s.

Definition is_digit (c : ascii) : bool :=
  let n := nat_of_ascii c in ((48 <=? n) && (n <=? 57))%nat.

Definition digit (c : ascii) : Z := Z.of_nat (nat_of_ascii c) - 48.

Definition is_hex (c : ascii) : bool :=
  let n := nat_of_ascii c in
  (is_digit c || (65 <=? n) && (n <=? 70) || (97 <=? n) && (n <=? 102))%nat.

Definition hex (c : ascii) : Z :=
  let n := nat_of_ascii c in
  if is_digit c then digit c
  else if (n <=? 70)%nat then Z.of_nat n - 55
  else Z.of_nat n - 87.

(** The longest prefix of [s] made of characters of [p], and the rest. *)
Fixpoint span (p : ascii -> bool) (s : list ascii) : list ascii * list ascii :=
  match s with
  | c :: rest =>
      if p c then let (taken, left) := span p rest in (c :: taken, left)
      else ([], s)
  | [] => ([], [])
  end.

Definition number_of (radix : Z) (value : ascii -> Z) (ds : list ascii) : Z :=
  fold_left (fun n c => radix * n + value c) ds 0.

Definition sign (s : list ascii) : bool * list ascii :=
  match s with
  | "-"%char :: rest => (true, rest)
  | "+"%char :: rest => (false, rest)
  | _ => (false, s)
  end.

Fixpoint starts_with (prefix s : list ascii) : bool :=
  match prefix, s with
  | [], _ => true
  | p :: prefix', c :: s' => Ascii.eqb p c && starts_with prefix' s'
  | _ :: _, [] => false
  end.

Definition signed (negative : bool) (z : Z) : Z := if negative then - z else z.

(** [m * 10 ^ e] *)
Definition scale (m e : Z) : Q :=
  if 0 <=? e then inject_Z (m * 10 ^ e) else Qmake m (Z.to_pos (10 ^ (- e))).

(** The exponent part, when there is one. *)
Definition exponent (s : list ascii) : Z :=
  match s with
  | c :: rest =>
      if Ascii.eqb c "e" || Ascii.eqb c "E" then
        let (negative, rest') := sign rest in
        match span is_digit rest' with
        | ([], _) => 0
        | (ds, _) => signed negative (number_of 10 digit ds)
        end
      else 0
  | [] => 0
  end.

(** [parseFloat] of a string: white space, a sign, and the longest
    prefix that is a decimal literal, rounded to a double. *)
Definition parseFloat_string (s : string) : Number :=
  let (negative, s') := sign (skip_space (list_ascii_of_string s)) in
  if starts_with (list_ascii_of_string "Infinity") s' then Infinity negative
  else
    let (ip, r) := span is_digit s' in
    let (fp, r') :=
      match r with
      | "."%char :: rest => span is_digit rest
      | _ => ([], r)
      end in
    match ip, fp with
    | [], [] => NaN
    | _, _ =>
        round_double (scale (signed negative (number_of 10 digit (ip ++ fp)))
                            (exponent r' - Z.of_nat (List.length fp)))
    end.

(** [parseInt] of a string, no radix given: white space, a sign, [0x]
    for base 16, and the longest prefix of digits, rounded to a double. *)
Definition parseInt_string (s : string) : Number :=
  let (negative, s') := sign (skip_space (list_ascii_of_string s)) in
  match s' with
  | "0"%char :: x :: rest =>
      if Ascii.eqb x "x" || Ascii.eqb x "X" then
        match span is_hex rest with
        | ([], _) => NaN
        | (ds, _) => round_double (inject_Z (signed negative (number_of 16 hex ds)))
        end
      else
        match span is_digit s' with
        | ([], _) => NaN
        | (ds, _) => round_double (inject_Z (signed negative (number_of 10 digit ds)))
        end
  | _ =>
      match span is_digit s' with
      | ([], _) => NaN
      | (ds, _) => round_double (inject_Z (signed negative (number_of 10 digit ds)))
      end
  end.

Inductive Outcome :=
| Resolve (duration size : Number)
| Reject (message : string)
| RejectError.

(** What happens to the [ffprobe] process: a [Buffer] on its standard
    output, its ['close'], its ['error']. *)
Inductive Event :=
| Data (chunk : list Byte.byte)
| Close (code : option Z)
| Error.

Section Runtime.

Variable JSON_parse : string -> option Value.
Variable Number_toString : Number -> string.
Variable Buffer_toString : list Byte.byte -> string.

(** [ToString]; [None] is the TypeError of an object that has a
    [toString] of its own, which is not a function since the object was
    parsed from JSON, and whose [valueOf] does not give a primitive
    either. *)
Fixpoint ToString (v : Value) : option string :=
  match v with
  | Undefined => Some "undefined"
  | Null => Some "null"
  | Boolean b => Some (if b then "true" else "false")
  | Num n => Some (Number_toString n)
  | Str s => Some s
  | Array elements =>
      option_map (String.concat ",")
        (sequence (List.map (fun e => match e with
                                      | Undefined | Null => Some ""
                                      | _ => ToString e
                                      end) elements))
  | Object properties =>
      if has_own properties "toString" then None else Some "[object Object]"
  end.

Definition parseFloat (v : Value) : option Number :=
  option_map parseFloat_string (ToString v).

Definition parseInt (v : Value) : option Number :=
  option_map parseInt_string (ToString v).

(** The ['close'] listener of [ffprobe]. *)
Definition on_close (output : string) (code : option Z) : Outcome :=
  match code with
  | Some 0 =>
      match JSON_parse output with
      | Some info =>
          match member info "format" with
          | Some format =>
              match member format "duration", member format "size" with
              | Some duration, Some size =>
                  match parseFloat duration, parseInt size with
                  | Some d, Some s => Resolve (floor d) s
                  | _, _ => Reject "Failed to parse video info"
                  end
              | _, _ => Reject "Failed to parse video info"
              end
          | None => Reject "Failed to parse video info"
          end
      | None => Reject "Failed to parse video info"
      end
  | _ => Reject "FFprobe failed"
  end.

(** [output += data.toString()] *)
Definition on_data (output : string) (chunk : list Byte.byte) : string :=
  String.append output (Buffer_toString chunk).

(** The promise of [getVideoInfo] under the events of the [ffprobe]
    process: the first settlement, [None] while there is none. *)
Fixpoint getVideoInfo (output : string) (events : list Event) : option Outcome :=
  match events with
  | [] => None
  | Data chunk :: rest => getVideoInfo (on_data output chunk) rest
  | Close code :: _ => Some (on_close output code)
  | Error :: _ => Some RejectError
  end.

End Runtime.

(** What [probe] fails with. *)
Definition ProbeFailed (o : option Outcome) : Prop :=
  exists message, o = Some (Reject message).

(** The number written [ip.fp] in decimal. *)
Definition decimal (ip fp : list ascii) : Q :=
  Qmake (number_of 10 digit (ip ++ fp)) (Z.to_pos (10 ^ Z.of_nat (List.length fp))).

Definition digits (s : list ascii) : Prop := s <> [] /\ forallb is_digit s = true.

(** [undefined] or [null] *)
Definition nullish (v : Value) : Prop :=
  match v with
  | Undefined | Null => True
  | _ => False
  end.

(** The [format] whose [duration] or [size] cannot be made a string. *)
Definition unprintable (Number_toString : Number -> string) (format : Value) : Prop :=
  exists duration size,
    member format "duration" = Some duration /\
    member format "size" = Some size /\
    (ToString Number_toString duration = None \/ ToString Number_toString size = None).

End VideoInfo.

(** ** The metrics of [MemStorage]

    The [metrics] map of the storage class, on its own: no other operation
    of the class reads or writes it. *)

Module Metrics.

Definition t := JsMap.t StreamMetrics.

Definition createMetrics (ms : t) (insertMetrics : InsertStreamMetrics)
           (uuid : string) (now : Date) : t * StreamMetrics :=
  let metrics :=
    mkMetrics uuid (im_sessionId insertMetrics)
              (or_else (im_currentViewers insertMetrics) 0)
              (or_else (im_peakViewers insertMetrics) 0)
              (or_else (im_totalReach insertMetrics) 0)
              (or_else (im_engagementRate insertMetrics) "0%")
              (or_else (im_duration insertMetrics) 0)
              (or_else (im_dataUsage insertMetrics) 0)
              now in
  (JsMap.set ms uuid metrics, metrics).

Definition latest_first (a b : StreamMetrics) : Z := m_timestamp b - m_timestamp a.

Definition getLatestMetrics (ms : t) (sessionId : string) : option StreamMetrics :=
  hd_error
    (array_sort latest_first
       (filter (fun m => String.eqb (m_sessionId m) sessionId) (JsMap.values ms))).

End Metrics.

(** ** The arguments [startStream] gives to [ffmpeg]

    [inputPath] is what [path.join] made of the working directory,
    ["uploads"] and the input file; the printing of a number is the
    runtime's. *)

Module Args.

(** [n * k] for an integer [k] other than 0, rounded to a double. *)
Definition times (n : VideoInfo.Number) (k : Z) : VideoInfo.Number :=
  match n with
  | VideoInfo.NaN => VideoInfo.NaN
  | VideoInfo.Infinity negative => VideoInfo.Infinity (xorb negative (k <? 0))
  | VideoInfo.Finite q => VideoInfo.round_double (q * inject_Z k)%Q
  end.

Definition ffmpegArgs (Number_toString : VideoInfo.Number -> string)
           (inputPath : string) (options : FFmpeg.StreamingOptions) : list string :=
  ["-re";
   "-i"; inputPath;
   "-c:v"; "libx264";
   "-preset"; "fast";
   "-b:v"; String.append (FFmpeg.bitrate options) "k";
   "-maxrate"; String.append (FFmpeg.bitrate options) "k";
   "-bufsize";
   String.append
     (Number_toString (times (VideoInfo.parseInt_string (FFmpeg.bitrate options)) 2))
     "k";
   "-c:a"; "aac";
   "-b:a"; "128k";
   "-ar"; "44100";
   "-f"; "flv";
   FFmpeg.rtmpUrl options].

End Args.

(** ** The upload route and the sampler of [routes.ts]

    Both write maps the stream handlers do not touch, so they are given the
    storage, the metrics and their own list of broadcast messages. *)

Module Upload.

(** [req.file] as [multer] leaves it. *)
Record File := mkFile {
  filename : string;
  originalname : string;
  mimetype : string
}.

(** What is given to [insertVideoSchema.parse]. *)
Record VideoData := mkVideoData {
  d_filename : string;
  d_originalName : string;
  d_size : VideoInfo.Number;
  d_duration : VideoInfo.Number;
  d_status : string
}.

Inductive Message := video_uploaded (data : Video).

Inductive Response :=
| json_video (video : Video)
| json_error (status : nat) (error : string).

(** The [fileFilter] of the [multer] configuration. *)
Definition allowedTypes : list string := ["video/mp4"; "video/avi"; "video/quicktime"].

Definition fileFilter (file : File) : bool :=
  existsb (String.eqb (mimetype file)) allowedTypes.

Section Schema.

(** [insertVideoSchema.parse]: [None] when it throws. *)
Variable parse : VideoData -> option InsertVideo.

(** [app.post("/api/videos/upload")]; [videoInfo] is what the promise of
    [getVideoInfo] settles to, [None] while it is pending. *)
Definition upload (st : MemStorage.t) (sent : list Message) (file : option File)
           (videoInfo : option VideoInfo.Outcome) (uuid : string) (now : Date)
  : MemStorage.t * list Message * option Response :=
  match file with
  | None => (st, sent, Some (json_error 400 "No video file provided"))
  | Some file =>
      match videoInfo with
      | None => (st, sent, None)
      | Some (VideoInfo.Resolve duration size) =>
          match parse (mkVideoData (filename file) (originalname file) size duration
                                   "ready") with
          | Some videoData =>
              let (st', video) := MemStorage.createVideo st videoData uuid now in
              (st', sent ++ [video_uploaded video], Some (json_video video))
          | None => (st, sent, Some (json_error 500 "Failed to upload video"))
          end
      | Some _ => (st, sent, Some (json_error 500 "Failed to upload video"))
      end
  end.

End Schema.

End Upload.

Module Sampler.

Inductive Message := metrics_updated (data : StreamMetrics).

(** The numbers [Math.random()] gave, each at least 0 and below 1, and the
    printing of the engagement rate, [toFixed(1)], which is the
    runtime's. *)
Record Random := mkRandom {
  r_currentViewers : Q;
  r_peakViewers : Q;
  r_totalReach : Q;
  r_engagementRate : Q;
  r_dataUsage : Q
}.

(** [Math.floor(Math.random() * range) + base] *)
Definition pick (r : Q) (range base : Z) : Z :=
  Qfloor (r * inject_Z range)%Q + base.

(** The callback of [setInterval(..., 5000)]; dates are in
    milliseconds.  A session without start time makes the callback throw
    before [createMetrics] is called. *)
Definition tick (toFixed1 : Q -> string) (st : MemStorage.t) (ff : FFmpeg.t)
           (ms : Metrics.t) (sent : list Message)
           (random : Random) (uuid : string) (dateNow now : Date)
  : Metrics.t * list Message :=
  match MemStorage.getCurrentSession st with
  | Some currentSession =>
      if FFmpeg.getStreamingStatus ff then
        match s_startTime currentSession with
        | Some startTime =>
            let (ms', metrics) :=
              Metrics.createMetrics ms
                (mkInsertMetrics
                   (s_id currentSession)
                   (Some (pick (r_currentViewers random) 2000 500))
                   (Some (pick (r_peakViewers random) 3000 1000))
                   (Some (pick (r_totalReach random) 10000 2000))
                   (Some (String.append
                            (toFixed1 (r_engagementRate random * inject_Z 20 + inject_Z 5)%Q)
                            "%"))
                   (Some ((dateNow - startTime) / 1000))
                   (Some (pick (r_dataUsage random) 1000 500)))
                uuid now in
            (ms', sent ++ [metrics_updated metrics])
        | None => (ms, sent)
        end
      else (ms, sent)
  | None => (ms, sent)
  end.

End Sampler.

(** ** client/src/components: how durations are shown

    The components compute on JavaScript numbers; the printing of a
    number, which is made of ASCII characters, is the runtime's. *)

Module Client.

(** [n / k], for an integer [k] above 0. *)
Definition divide (n : VideoInfo.Number) (k : Z) : VideoInfo.Number :=
  match n with
  | VideoInfo.Finite q => VideoInfo.round_double (q / inject_Z k)%Q
  | _ => n
  end.

(** [n % k], for an integer [k] above 0: what is left of [n] when [k]
    times the integer part of [n / k] is taken away, which is a double. *)
Definition remainder (n : VideoInfo.Number) (k : Z) : VideoInfo.Number :=
  match n with
  | VideoInfo.Finite q =>
      VideoInfo.Finite
        (Qred (q - inject_Z (k * Z.quot (Qnum q) (Zpos (Qden q) * k)))%Q)
  | _ => VideoInfo.NaN
  end.

(** [String.prototype.padStart], with a pad string of one character. *)
Definition padStart (s : string) (targetLength : nat) (padString : ascii) : string :=
  String.append
    (string_of_list_ascii (repeat padString (targetLength - String.length s)))
    s.

(** [formatDuration] of the queue and of the video list. *)
Module StreamingQueue.

Definition formatDuration (Number_toString : VideoInfo.Number -> string)
           (seconds : VideoInfo.Number) : string :=
  let minutes := VideoInfo.floor (divide seconds 60) in
  let remainingSeconds := remainder seconds 60 in
  String.append (Number_toString minutes)
                (String.append ":" (padStart (Number_toString remainingSeconds) 2 "0")).

End StreamingQueue.

(** [formatDuration] of the analytics. *)
Module StreamAnalytics.

Definition hours (seconds : VideoInfo.Number) : VideoInfo.Number :=
  VideoInfo.floor (divide seconds 3600).

Definition minutes (seconds : VideoInfo.Number) : VideoInfo.Number :=
  VideoInfo.floor (divide (remainder seconds 3600) 60).

Definition formatDuration (Number_toString : VideoInfo.Number -> string)
           (seconds : VideoInfo.Number) : string :=
  String.append (Number_toString (hours seconds))
                (String.append "h "
                   (String.append (Number_toString (minutes seconds)) "m")).

End StreamAnalytics.

End Client.

(** ** Vocabulary of the statements *)

(** The order of the queue read. *)
Definition position_le (a b : StreamingQueue * Video) : Prop :=
  q_position (fst a) <= q_position (fst b).

Definition head_id (st : MemStorage.t) : option string :=
  option_map (fun e => q_id (fst e)) (Routes.dequeueHead st).

(** [reorderQueue] rewrites the position of an entry and nothing else. *)
Definition moved (item : StreamingQueue) (newPosition : Z) : StreamingQueue :=
  mkQueue (q_id item) (q_videoId item) newPosition (q_sessionId item)
          (q_createdAt item).

(** A catalog of two videos and a queue of two entries, [a] then [b], at
    the given positions. *)
Definition two_videos : MemStorage.t :=
  let st := MemStorage.init in
  let st := fst (MemStorage.createVideo st
                   (mkInsertVideo "one.mp4" "One" 1000 (Some 60) (Some "ready"))
                   "v1" 1) in
  fst (MemStorage.createVideo st
         (mkInsertVideo "two.mp4" "Two" 2000 (Some 90) (Some "ready")) "v2" 2).

Definition queue_of_two (pa pb : Z) : MemStorage.t :=
  let st := fst (MemStorage.addToQueue two_videos (mkInsertQueue "v1" pa None) "a" 3) in
  fst (MemStorage.addToQueue st (mkInsertQueue "v2" pb None) "b" 4).

(** A server with one video and the credentials of one page, nothing
    streaming. *)
Definition studio : Routes.t :=
  let st := MemStorage.init in
  let st := fst (MemStorage.createVideo st
                   (mkInsertVideo "one.mp4" "One" 1000 (Some 60) (Some "ready"))
                   "v1" 1) in
  let st := fst (MemStorage.createFacebookCredentials st
                   (mkInsertCredentials "token" "page" "Page" None) "c1" 2) in
  Routes.mk st FFmpeg.init [] [].

(** A start request for that video that Facebook accepts, whose input file
    exists and whose process is still there when the only pending timer,
    the one of the confirmation, fires. *)
Definition start_request (uuid : string) (now : Date) : Routes.Action :=
  Routes.RequestStart (Routes.mkStartBody "v1" "page" "Live" "From the studio")
                      "cfg" uuid now
                      (Some (Facebook.mkLiveVideo "fb1" "rtmp://x"))
                      true [FFmpeg.Fire 0%nat].

(** A stop request during which process [pid] ends and is closed. *)
Definition stop_request (pid : nat) (now : Date) : Routes.Action :=
  Routes.RequestStop now [FFmpeg.ProcessExits pid; FFmpeg.EmitClose pid].

Definition no_stream : Routes.Response := Routes.json_error 400 "No active stream found".

(** What holds of the sessions of every state the server reaches: a map
    without repeated keys, every session under its own identifier. *)
Definition sessions_ok (st : MemStorage.t) : Prop :=
  JsMap.wf (MemStorage.sessions st) /\
  forall k s, In (k, s) (MemStorage.sessions st) -> s_id s = k.

(** The session a stop request leaves behind. *)
Definition stopped (s : StreamingSession) (now : Date) : StreamingSession :=
  MemStorage.spread s (mkPartialSession (Some "stopped") None None None None None
                                        (Some (Some now))).

Definition session_status (app : Routes.t) (id : string) : option string :=
  option_map s_status (JsMap.get (MemStorage.sessions (Routes.storage app)) id).

Definition sent (s : FFmpeg.t) (pid : nat) : list FFmpeg.Signal :=
  match FFmpeg.process s pid with
  | Some p => FFmpeg.signals p
  | None => []
  end.

Definition some_options : FFmpeg.StreamingOptions :=
  FFmpeg.mkOptions "one.mp4" "rtmp://x" "1080p" "4000".

(** The server on air: [studio] after a start request that succeeded. *)
Definition on_air : Routes.t :=
  fst (Routes.streamStart studio
         (Routes.mkStartBody "v1" "page" "Live" "From the studio") "cfg" "s1" 10
         (Some (Facebook.mkLiveVideo "fb1" "rtmp://x")) true [FFmpeg.Fire 0%nat]).

(** The process of the stream ends by itself and is closed. *)
Definition crash (pid : nat) : list Routes.Action :=
  [Routes.Callback (FFmpeg.ProcessExits pid); Routes.Callback (FFmpeg.EmitClose pid)].

(** [on_air] once the process of the stream has ended by itself, and once
    its ['close'] has been emitted. *)
Definition exiting : Routes.t :=
  match Routes.act on_air (Routes.Callback (FFmpeg.ProcessExits 0)) with
  | Some (app, _) => app
  | None => on_air
  end.

Definition after_exit : Routes.t :=
  match Routes.act exiting (Routes.Callback (FFmpeg.EmitClose 0)) with
  | Some (app, _) => app
  | None => exiting
  end.

Definition observe {A B : Type} (f : Routes.t -> A) (g : list Routes.Response -> B)
           (r : option (Routes.t * list Routes.Response)) : option (A * B) :=
  option_map (fun x => (f (fst x), g (snd x))) r.

Definition is_stopped (m : Routes.Message) : bool :=
  match m with Routes.stream_stopped _ => true | _ => false end.

(** What [ffprobe] prints for a file of 12.75 seconds and 1048576 bytes,
    in two chunks (its double quotes are written ['] here), a decoding of
    the chunks that is right for ASCII, and a [JSON.parse] that reads
    what was printed. *)
Definition sample_chunks : list (list Byte.byte) :=
  List.map list_byte_of_string
           ["{ 'format': { 'duration': '12.750000',"; " 'size': '1048576' } }"].

Definition decode (chunk : list Byte.byte) : string := string_of_list_byte chunk.

(** What has been read of the chunks when the probe is closed. *)
Definition output_of (Buffer_toString : list Byte.byte -> string)
           (chunks : list (list Byte.byte)) : string :=
  fold_left (VideoInfo.on_data Buffer_toString) chunks "".

Definition sample_info : VideoInfo.Value :=
  VideoInfo.Object
    [("format",
      VideoInfo.Object [("duration", VideoInfo.Str "12.750000");
                        ("size", VideoInfo.Str "1048576")])].

Definition sample_parse (output : string) : option VideoInfo.Value :=
  if String.eqb output (output_of decode sample_chunks)
  then Some sample_info else None.

(** Output with a duration and a size that no double is, and what
    [JSON.parse] makes of it. *)
Definition long_info : VideoInfo.Value :=
  VideoInfo.Object
    [("format",
      VideoInfo.Object [("duration", VideoInfo.Str "0.999999999999999999999");
                        ("size", VideoInfo.Str "9007199254740993")])].

(** Output without numbers, and what [JSON.parse] makes of it. *)
Definition empty_info : VideoInfo.Value :=
  VideoInfo.Object [("format", VideoInfo.Object [])].

(** The decimal writing of an integer, and a printing of numbers that
    writes the integers so. *)
Definition decimal_string (z : Z) : string := NilZero.string_of_int (Z.to_int z).

Definition write_number (n : VideoInfo.Number) : string :=
  match n with
  | VideoInfo.NaN => "NaN"
  | VideoInfo.Infinity negative => if negative then "-Infinity" else "Infinity"
  | VideoInfo.Finite q => decimal_string (Qfloor q)
  end.

(** The printing of numbers writes the integers that a double holds
    exactly in decimal. *)
Definition prints_integers (Number_toString : VideoInfo.Number -> string) : Prop :=
  forall z, 0 <= z < 2 ^ 53 ->
            Number_toString (VideoInfo.Finite (inject_Z z)) = decimal_string z.

Definition is_streaming (s : StreamingSession) : bool :=
  String.eqb (s_status s) "streaming".

(** [a] comes before an occurrence of [b] in [l]. *)
Inductive before {A : Type} (a b : A) : list A -> Prop :=
| before_here l : In b l -> before a b (a :: l)
| before_later x l : before a b l -> before a b (x :: l).

(** What holds of the queue of every state the storage reaches: every
    entry is under its own identifier. *)
Definition queue_ok (st : MemStorage.t) : Prop :=
  forall k item, In (k, item) (MemStorage.queue st) -> q_id item = k.

Definition has_id (id : string) (e : StreamingQueue * Video) : bool :=
  String.eqb (q_id (fst e)) id.

Definition has_video (vs : JsMap.t Video) (item : StreamingQueue) : bool :=
  match JsMap.get vs (q_videoId item) with Some _ => true | None => false end.

(** An entry of the read without its position. *)
Definition unposition (e : StreamingQueue * Video) : StreamingQueue * Video :=
  (moved (fst e) 0, snd e).

(** What holds of every state the FFmpeg service reaches. *)
Definition starts_with_StartClose (p : FFmpeg.ChildProcess) : Prop :=
  exists rest, FFmpeg.closeListeners p = FFmpeg.StartClose :: rest.

(** [stopStream] waits on [promise] at some process. *)
Definition awaited_by_stop (promise : nat) (s : FFmpeg.t) : Prop :=
  exists pid p, FFmpeg.process s pid = Some p /\
                In (FFmpeg.StopClose promise) (FFmpeg.closeListeners p).

(** No [stopStream] waits on [promise]. *)
Definition not_awaited (promise : nat) (s : FFmpeg.t) : Prop :=
  forall pid p, FFmpeg.process s pid = Some p ->
                ~ In (FFmpeg.StopClose promise) (FFmpeg.closeListeners p).

Record service_ok (s : FFmpeg.t) : Prop := mk_service_ok {
  ok_listeners :
    forall pid p, FFmpeg.process s pid = Some p -> starts_with_StartClose p;
  ok_handle :
    forall pid, FFmpeg.streamingProcess s = Some pid ->
                exists p, FFmpeg.process s pid = Some p /\ FFmpeg.closed p = false;
  ok_streaming :
    FFmpeg.isStreaming s = true ->
    FFmpeg.streamingProcess s <> None /\ FFmpeg.currentStreamInfo s <> None;
  ok_promises :
    forall promise, awaited_by_stop promise s ->
                    (promise < List.length (FFmpeg.promises s))%nat
}.

(** The character of a decimal digit. *)
Definition digit_char (d : Z) : ascii := ascii_of_nat (48 + Z.to_nat d).

(** * Properties *)

(** ** Maps *)

Section JsMapFacts.
Context {V : Type}.
Implicit Types (m : JsMap.t V) (k : string) (v : V).

Lemma get_set_same m k v : JsMap.get (JsMap.set m k v) k = Some v.
Proof.
  induction m as [|[k' v'] m IH]; simpl.
  - now rewrite String.eqb_refl.
  - destruct (String.eqb k' k) eqn:E; simpl; rewrite E; auto.
Qed.

Lemma get_set_other m k k' v :
  k' <> k -> JsMap.get (JsMap.set m k v) k' = JsMap.get m k'.
Proof.
  intros Hne. induction m as [|[k0 v0] m IH]; simpl.
  - destruct (String.eqb k k') eqn:E; auto.
    apply String.eqb_eq in E. congruence.
  - destruct (String.eqb k0 k) eqn:E; simpl.
    + apply String.eqb_eq in E. subst k0.
      destruct (String.eqb k k') eqn:E'; auto.
      apply String.eqb_eq in E'. congruence.
    + now rewrite IH.
Qed.

Lemma get_delete_same m k : JsMap.get (fst (JsMap.delete m k)) k = None.
Proof.
  induction m as [|[k' v'] m IH]; simpl; auto.
  destruct (JsMap.delete m k) as [r b]. simpl in IH.
  destruct (String.eqb k' k) eqn:E; simpl; auto.
  now rewrite E.
Qed.

Lemma get_delete_other m k k' :
  k' <> k -> JsMap.get (fst (JsMap.delete m k)) k' = JsMap.get m k'.
Proof.
  intros Hne. induction m as [|[k0 v0] m IH]; simpl; auto.
  destruct (JsMap.delete m k) as [r b]. simpl in IH.
  destruct (String.eqb k0 k) eqn:E; simpl.
  - apply String.eqb_eq in E. subst k0.
    destruct (String.eqb k k') eqn:E'; auto.
    apply String.eqb_eq in E'. congruence.
  - now rewrite IH.
Qed.

Lemma get_In m k v : JsMap.get m k = Some v -> In (k, v) m.
Proof.
  induction m as [|[k' v'] m IH]; simpl; [discriminate|].
  destruct (String.eqb k' k) eqn:E.
  - apply String.eqb_eq in E. intros [= ->]. left. now subst.
  - auto.
Qed.

Lemma In_get m k v : JsMap.wf m -> In (k, v) m -> JsMap.get m k = Some v.
Proof.
  unfold JsMap.wf, JsMap.keys.
  induction m as [|[k' v'] m IH]; simpl; [tauto|].
  intros Hnd [H|H]; inversion Hnd as [|? ? Hnotin Hnd']; subst.
  - injection H as -> ->. now rewrite String.eqb_refl.
  - destruct (String.eqb k' k) eqn:E; auto.
    apply String.eqb_eq in E. subst k'.
    exfalso. apply Hnotin. apply (in_map fst) in H. exact H.
Qed.

Lemma keys_set_present m k v :
  In k (JsMap.keys m) -> JsMap.keys (JsMap.set m k v) = JsMap.keys m.
Proof.
  unfold JsMap.keys.
  induction m as [|[k' v'] m IH]; simpl; [tauto|].
  intros H. destruct (String.eqb k' k) eqn:E; simpl; auto.
  f_equal. apply IH. destruct H as [H|H]; auto.
  subst. now rewrite String.eqb_refl in E.
Qed.

Lemma keys_set_absent m k v :
  ~ In k (JsMap.keys m) -> JsMap.keys (JsMap.set m k v) = JsMap.keys m ++ [k].
Proof.
  unfold JsMap.keys.
  induction m as [|[k' v'] m IH]; simpl; auto.
  intros H. destruct (String.eqb k' k) eqn:E; simpl.
  - apply String.eqb_eq in E. tauto.
  - f_equal. apply IH. tauto.
Qed.

Lemma wf_set m k v : JsMap.wf m -> JsMap.wf (JsMap.set m k v).
Proof.
  unfold JsMap.wf. intros Hnd.
  destruct (in_dec string_dec k (JsMap.keys m)) as [Hin|Hout].
  - now rewrite keys_set_present.
  - rewrite keys_set_absent by assumption.
    apply NoDup_app; auto.
    + repeat constructor. simpl. tauto.
    + intros x Hx [<-|[]]. auto.
Qed.

Lemma In_set m k v k' v' :
  JsMap.wf m -> In (k', v') (JsMap.set m k v) ->
  (k' = k /\ v' = v) \/ (k' <> k /\ In (k', v') m).
Proof.
  unfold JsMap.wf, JsMap.keys.
  induction m as [|[k0 v0] m IH]; simpl.
  - intros _ [[= <- <-]|[]]. auto.
  - intros Hnd. inversion Hnd as [|? ? Hnotin Hnd']; subst.
    destruct (String.eqb k0 k) eqn:E; simpl.
    + apply String.eqb_eq in E. subst k0.
      intros [[= <- <-]|H]; auto.
      right. split; auto. intros ->. apply Hnotin.
      apply (in_map fst) in H. exact H.
    + intros [[= <- <-]|H].
      * right. split; auto. intros ->. now rewrite String.eqb_refl in E.
      * destruct (IH Hnd' H) as [?|[? ?]]; auto.
Qed.

Lemma set_In m k v : In (k, v) (JsMap.set m k v).
Proof.
  apply get_In, get_set_same.
Qed.

End JsMapFacts.

(** ** The sort *)

Section SortFacts.
Context {A : Type} (cmp : A -> A -> Z).

Lemma sort_insert_perm x l : Permutation (sort_insert cmp x l) (x :: l).
Proof.
  induction l as [|y l IH]; simpl; auto.
  destruct (cmp x y <=? 0); auto.
  rewrite IH. apply perm_swap.
Qed.

Lemma array_sort_perm l : Permutation (array_sort cmp l) l.
Proof.
  induction l as [|x l IH]; simpl; auto.
  rewrite sort_insert_perm. now constructor.
Qed.

Lemma array_sort_In x l : In x (array_sort cmp l) <-> In x l.
Proof.
  split; apply Permutation_in; [|symmetry]; apply array_sort_perm.
Qed.

(** The comparators that order by a key. *)
Variable key : A -> Z.
Hypothesis cmp_key : forall a b, cmp a b = key a - key b.

Let le_key (a b : A) : Prop := key a <= key b.

Lemma sort_insert_sorted x l :
  StronglySorted le_key l -> StronglySorted le_key (sort_insert cmp x l).
Proof.
  induction 1 as [|y l Hs IH Hall]; simpl.
  - repeat constructor.
  - rewrite cmp_key. destruct (key x - key y <=? 0) eqn:E.
    + apply Z.leb_le in E. constructor; [now constructor|].
      constructor; [unfold le_key; lia|].
      eapply Forall_impl; [|exact Hall]. unfold le_key. intros; lia.
    + apply Z.leb_gt in E. constructor; auto.
      eapply Permutation_Forall; [symmetry; apply sort_insert_perm|].
      constructor; auto. unfold le_key. lia.
Qed.

Lemma array_sort_sorted l : StronglySorted le_key (array_sort cmp l).
Proof.
  induction l; simpl; [constructor|now apply sort_insert_sorted].
Qed.

End SortFacts.

(** ** The queue read *)

Lemma attach_videos_In vs l item video :
  In (item, video) (MemStorage.attach_videos vs l) <->
  In item l /\ JsMap.get vs (q_videoId item) = Some video.
Proof.
  induction l as [|x l IH]; simpl; [tauto|].
  destruct (JsMap.get vs (q_videoId x)) as [v|] eqn:E; simpl; rewrite IH.
  - split.
    + intros [[= <- <-]|[? ?]]; auto.
    + intros [[<-|?] ?]; auto. left. congruence.
  - split.
    + intros [? ?]; auto.
    + intros [[<-|?] ?]; auto. congruence.
Qed.

Lemma attach_videos_perm vs l l' :
  Permutation l l' ->
  Permutation (MemStorage.attach_videos vs l) (MemStorage.attach_videos vs l').
Proof.
  induction 1 as [|x l l' _ IH|x y l|l l' l'' _ IH1 _ IH2]; simpl; auto.
  - destruct (JsMap.get vs (q_videoId x)); auto.
  - destruct (JsMap.get vs (q_videoId x)), (JsMap.get vs (q_videoId y)); auto.
    apply perm_swap.
  - now rewrite IH1.
Qed.

Lemma attach_videos_sorted vs l :
  StronglySorted (fun a b => q_position a <= q_position b) l ->
  StronglySorted position_le (MemStorage.attach_videos vs l).
Proof.
  induction 1 as [|x l Hs IH Hall]; simpl; [constructor|].
  destruct (JsMap.get vs (q_videoId x)) as [v|]; auto.
  constructor; auto.
  apply Forall_forall. intros [item video] Hin.
  apply attach_videos_In in Hin. destruct Hin as [Hin _].
  rewrite Forall_forall in Hall. unfold position_le. simpl. auto.
Qed.

Lemma getQueue_sorted st : StronglySorted position_le (MemStorage.getQueue st).
Proof.
  unfold MemStorage.getQueue. apply attach_videos_sorted.
  apply (array_sort_sorted MemStorage.by_position q_position). reflexivity.
Qed.

Lemma getQueue_In st item video :
  In (item, video) (MemStorage.getQueue st) <->
  In item (JsMap.values (MemStorage.queue st)) /\
  MemStorage.getVideo st (q_videoId item) = Some video.
Proof.
  unfold MemStorage.getQueue. rewrite attach_videos_In, array_sort_In. reflexivity.
Qed.

Lemma deleteVideo_queue st id :
  MemStorage.queue (fst (MemStorage.deleteVideo st id)) = MemStorage.queue st.
Proof.
  unfold MemStorage.deleteVideo.
  destruct (JsMap.delete (MemStorage.videos st) id). reflexivity.
Qed.

Lemma deleteVideo_getVideo st id :
  MemStorage.getVideo (fst (MemStorage.deleteVideo st id)) id = None.
Proof.
  unfold MemStorage.deleteVideo, MemStorage.getVideo.
  pose proof (get_delete_same (MemStorage.videos st) id) as H.
  destruct (JsMap.delete (MemStorage.videos st) id). exact H.
Qed.

(** C10.  The queue read returns exactly the entries of the queue map whose
    video is in the catalog, each once and with its video, in ascending
    order of position; an entry whose video is gone is left out of the read
    and stays in the map: deleting a video does not touch the queue map, and
    no entry of the deleted video is read afterwards. *)
Theorem getQueue_omits_orphans (st : MemStorage.t) :
  (forall item video,
      In (item, video) (MemStorage.getQueue st) <->
      In item (JsMap.values (MemStorage.queue st)) /\
      MemStorage.getVideo st (q_videoId item) = Some video) /\
  Permutation (MemStorage.getQueue st)
              (MemStorage.attach_videos (MemStorage.videos st)
                                        (JsMap.values (MemStorage.queue st))) /\
  StronglySorted position_le (MemStorage.getQueue st) /\
  (forall id,
      MemStorage.queue (fst (MemStorage.deleteVideo st id)) = MemStorage.queue st /\
      forall item video,
        In (item, video) (MemStorage.getQueue (fst (MemStorage.deleteVideo st id))) ->
        q_videoId item <> id).
Proof.
  split; [|split; [|split]].
  - intros. apply getQueue_In.
  - unfold MemStorage.getQueue. apply attach_videos_perm, array_sort_perm.
  - apply getQueue_sorted.
  - intros id. split; [apply deleteVideo_queue|].
    intros item video Hin Heq. apply getQueue_In in Hin.
    destruct Hin as [_ Hget]. rewrite Heq, deleteVideo_getVideo in Hget.
    discriminate.
Qed.

(** ** The head of the queue *)

Lemma values_In {V : Type} (m : JsMap.t V) (v : V) :
  In v (JsMap.values m) <-> exists k, In (k, v) m.
Proof.
  unfold JsMap.values. rewrite in_map_iff. split.
  - intros [[k v'] [<- H]]. now exists k.
  - intros [k H]. now exists (k, v).
Qed.

Lemma head_is_minimum st head e :
  Routes.dequeueHead st = Some head -> In e (MemStorage.getQueue st) ->
  position_le head e.
Proof.
  unfold Routes.dequeueHead. pose proof (getQueue_sorted st) as Hs.
  destruct (MemStorage.getQueue st) as [|h rest]; simpl; [discriminate|].
  intros [= <-] [<-|Hin].
  - unfold position_le. lia.
  - inversion Hs as [|? ? _ Hall]; subst.
    rewrite Forall_forall in Hall. auto.
Qed.

Lemma reorderQueue_found st id item newPosition :
  JsMap.get (MemStorage.queue st) id = Some item ->
  fst (MemStorage.reorderQueue st id newPosition) =
  MemStorage.with_queue st (JsMap.set (MemStorage.queue st) id (moved item newPosition)).
Proof.
  unfold MemStorage.reorderQueue. now intros ->.
Qed.

(** C5, as the code has it.  The head of the queue read has the least
    position among the entries of the read, and a non-empty read has a head;
    after [reorderQueue(X, 0)] of an entry [X] whose video is in the catalog,
    the head is [X] when every other entry with a video in the catalog has a
    position above 0. *)
Theorem dequeueHead_minimum_and_reorder :
  (forall st head e,
      Routes.dequeueHead st = Some head -> In e (MemStorage.getQueue st) ->
      position_le head e) /\
  (forall st, MemStorage.getQueue st <> [] ->
              exists head, Routes.dequeueHead st = Some head) /\
  (forall st id item video,
      JsMap.wf (MemStorage.queue st) ->
      JsMap.get (MemStorage.queue st) id = Some item ->
      MemStorage.getVideo st (q_videoId item) = Some video ->
      (forall k other,
          In (k, other) (MemStorage.queue st) -> k <> id ->
          MemStorage.getVideo st (q_videoId other) <> None ->
          0 < q_position other) ->
      Routes.dequeueHead (fst (MemStorage.reorderQueue st id 0)) =
      Some (moved item 0, video)).
Proof.
  split; [exact head_is_minimum|split].
  - intros st Hne. unfold Routes.dequeueHead.
    destruct (MemStorage.getQueue st) as [|h rest]; [congruence|].
    now exists h.
  - intros st id item video Hwf Hget Hvideo Hothers.
    rewrite (reorderQueue_found st id item 0 Hget).
    set (st' := MemStorage.with_queue st _).
    assert (Hin : In (moved item 0, video) (MemStorage.getQueue st')).
    { apply getQueue_In. split; [|exact Hvideo].
      apply values_In. exists id. apply set_In. }
    destruct (Routes.dequeueHead st') as [[hitem hvideo]|] eqn:Hhead.
    2:{ unfold Routes.dequeueHead in Hhead.
        destruct (MemStorage.getQueue st'); [contradiction|discriminate]. }
    pose proof (head_is_minimum st' _ _ Hhead Hin) as Hle.
    unfold position_le in Hle. simpl in Hle.
    assert (Hh : In (hitem, hvideo) (MemStorage.getQueue st')).
    { unfold Routes.dequeueHead in Hhead.
      destruct (MemStorage.getQueue st'); [discriminate|].
      injection Hhead as ->. now left. }
    apply getQueue_In in Hh. destruct Hh as [Hhq Hhv].
    apply values_In in Hhq. destruct Hhq as [k Hk].
    apply In_set in Hk; [|exact Hwf].
    destruct Hk as [[-> ->]|[Hne Hk]].
    + simpl in Hhv. unfold MemStorage.getVideo in *. simpl in Hhv.
      rewrite Hvideo in Hhv. now injection Hhv as ->.
    + exfalso. specialize (Hothers k hitem Hk Hne).
      unfold MemStorage.getVideo in *. simpl in Hhv.
      rewrite Hhv in Hothers. assert (0 < q_position hitem) by (apply Hothers; discriminate).
      lia.
Qed.

(** Entry [b] moved to position 0 is the head when [a] is at position 1. *)
Lemma dequeueHead_minimum_and_reorder_witness :
  head_id (fst (MemStorage.reorderQueue (queue_of_two 1 2) "b" 0)) = Some "b".
Proof.
  destruct dequeueHead_minimum_and_reorder as [_ [_ H]].
  unfold head_id.
  rewrite (H (queue_of_two 1 2) "b" (mkQueue "b" "v2" 2 None 4)
             (mkVideo "v2" "two.mp4" "Two" 2000 (Some 90) "ready" 2)).
  - reflexivity.
  - repeat constructor; simpl; intuition discriminate.
  - reflexivity.
  - reflexivity.
  - simpl. intros k other [[= <- <-]|[[= <- <-]|[]]] Hk _; simpl; [lia|congruence].
Defined.

(** C5, as the specification has it, fails: with [a] at position 0 and [b]
    at position 1, [b] is in the queue, and after [reorderQueue(b, 0)] the
    head is still [a]: two entries at position 0 stay in the order they were
    inserted in. *)
Lemma reorder_to_front_keeps_earlier_tie :
  ~ (forall st id,
        In id (List.map (fun e => q_id (fst e)) (MemStorage.getQueue st)) ->
        head_id (fst (MemStorage.reorderQueue st id 0)) = Some id).
Proof.
  intros H. specialize (H (queue_of_two 0 1) "b").
  assert (Hin : In "b" (List.map (fun e => q_id (fst e))
                                 (MemStorage.getQueue (queue_of_two 0 1)))).
  { vm_compute. auto. }
  specialize (H Hin). vm_compute in H. discriminate.
Qed.

(** ** Adding to the queue *)

(** C6, as the code has it.  A request whose body passes the schema stores
    a new entry with the video and the position of the body, whatever the
    catalog and the length of the queue are, leaves the other entries and
    the catalog alone, reports the queue and answers the entry; a request
    whose body does not pass fails with status 500 and changes nothing. *)
Theorem postQueue_stores_the_body (app : Routes.t) (uuid : string) (now : Date) :
  (forall insertItem,
      let item := mkQueue uuid (iq_videoId insertItem) (iq_position insertItem)
                          (iq_sessionId insertItem) now in
      let app' := fst (Routes.postQueue app (Some insertItem) uuid now) in
      snd (Routes.postQueue app (Some insertItem) uuid now) = Routes.json_queueItem item /\
      JsMap.get (MemStorage.queue (Routes.storage app')) uuid = Some item /\
      (forall k, k <> uuid ->
                 JsMap.get (MemStorage.queue (Routes.storage app')) k =
                 JsMap.get (MemStorage.queue (Routes.storage app)) k) /\
      MemStorage.videos (Routes.storage app') = MemStorage.videos (Routes.storage app) /\
      Routes.broadcasts app' =
      Routes.broadcasts app ++
        [Routes.queue_updated (MemStorage.getQueue (Routes.storage app'))]) /\
  Routes.postQueue app None uuid now =
  (app, Routes.json_error 500 "Failed to add to queue").
Proof.
  split; [|reflexivity].
  intros insertItem. simpl. repeat split.
  - apply get_set_same.
  - intros k Hk. now apply get_set_other.
Qed.

(** C6, as the specification has it, fails twice on the empty server: an
    entry for a video that is not in the catalog is created and answered,
    and its position is the 7 of the body, not the length 0 of the queue. *)
Lemma postQueue_checks_nothing :
  let request := Routes.postQueue Routes.init (Some (mkInsertQueue "ghost" 7 None)) "q1" 10 in
  MemStorage.getVideo (Routes.storage Routes.init) "ghost" = None /\
  JsMap.size (MemStorage.queue (Routes.storage Routes.init)) = 0%nat /\
  snd request = Routes.json_queueItem (mkQueue "q1" "ghost" 7 None 10) /\
  JsMap.get (MemStorage.queue (Routes.storage (fst request))) "q1" =
  Some (mkQueue "q1" "ghost" 7 None 10).
Proof.
  repeat split.
Qed.

(** ** Sessions *)

Lemma array_find_filter {A : Type} (p : A -> bool) (l : list A) :
  array_find p l = hd_error (filter p l).
Proof.
  induction l as [|x l IH]; simpl; auto.
  destruct (p x); auto.
Qed.

Lemma getCurrentSession_In st s :
  MemStorage.getCurrentSession st = Some s ->
  In s (JsMap.values (MemStorage.sessions st)) /\ is_streaming s = true.
Proof.
  unfold MemStorage.getCurrentSession. rewrite array_find_filter.
  fold is_streaming.
  destruct (filter is_streaming _) as [|x l] eqn:E; simpl; [discriminate|].
  intros [= ->]. apply filter_In. rewrite E. now left.
Qed.

Lemma sessions_ok_get st s :
  sessions_ok st -> In s (JsMap.values (MemStorage.sessions st)) ->
  JsMap.get (MemStorage.sessions st) (s_id s) = Some s.
Proof.
  intros [Hwf Hid] Hin. apply values_In in Hin. destruct Hin as [k Hk].
  rewrite (Hid _ _ Hk). now apply In_get.
Qed.

(** Replacing the only streaming session by one that is not streaming
    leaves none. *)
Lemma set_last_streaming (m : JsMap.t StreamingSession) k s s' :
  JsMap.wf m -> In (k, s) m -> is_streaming s = true -> is_streaming s' = false ->
  (List.length (filter is_streaming (JsMap.values m)) <= 1)%nat ->
  filter is_streaming (JsMap.values (JsMap.set m k s')) = [].
Proof.
  unfold JsMap.wf, JsMap.keys, JsMap.values.
  induction m as [|[k0 s0] m IH]; simpl; [tauto|].
  intros Hnd Hin Hs Hs' Hlen. inversion Hnd as [|? ? Hnotin Hnd']; subst.
  destruct (String.eqb k0 k) eqn:E; simpl.
  - apply String.eqb_eq in E. subst k0. rewrite Hs'.
    destruct Hin as [[= <-]|Hin].
    + rewrite Hs in Hlen. simpl in Hlen.
      destruct (filter is_streaming (List.map snd m)); auto. simpl in Hlen. lia.
    + exfalso. apply Hnotin. apply (in_map fst) in Hin. exact Hin.
  - destruct Hin as [[= -> ->]|Hin]; [now rewrite String.eqb_refl in E|].
    destruct (is_streaming s0) eqn:E0.
    + exfalso. simpl in Hlen.
      assert (Hmem : In s (filter is_streaming (List.map snd m))).
      { apply filter_In. split; auto. apply (in_map snd) in Hin. exact Hin. }
      destruct (filter is_streaming (List.map snd m)); [contradiction|].
      simpl in Hlen. lia.
    + apply IH; auto.
Qed.

(** ** The FFmpeg service *)

Lemma nth_error_last {A : Type} (l : list A) (x : A) :
  nth_error (l ++ [x]) (List.length l) = Some x.
Proof.
  rewrite nth_error_app2 by lia. now rewrite Nat.sub_diag.
Qed.

Lemma nth_error_update_nth {A : Type} (f : A -> A) (l : list A) (n m : nat) :
  nth_error (FFmpeg.update_nth n f l) m =
  if Nat.eqb n m then option_map f (nth_error l m) else nth_error l m.
Proof.
  revert n m. induction l as [|x l IH]; intros [|n] [|m]; simpl; auto.
  now destruct (Nat.eqb n m).
Qed.

Lemma length_update_nth {A : Type} (f : A -> A) (l : list A) (n : nat) :
  List.length (FFmpeg.update_nth n f l) = List.length l.
Proof.
  revert n. induction l as [|x l IH]; intros [|n]; simpl; auto.
Qed.

Lemma on_close_processes ls s :
  FFmpeg.processes (fold_left FFmpeg.on_close ls s) = FFmpeg.processes s.
Proof.
  revert s. induction ls as [|l ls IH]; intros s; simpl; auto.
  rewrite IH. now destruct l.
Qed.

Lemma on_close_clears ls s :
  ls <> [] ->
  FFmpeg.streamingProcess (fold_left FFmpeg.on_close ls s) = None /\
  FFmpeg.isStreaming (fold_left FFmpeg.on_close ls s) = false.
Proof.
  intros Hne. destruct ls as [|l ls]; [congruence|]. clear Hne. simpl.
  assert (H : FFmpeg.streamingProcess (FFmpeg.on_close s l) = None /\
              FFmpeg.isStreaming (FFmpeg.on_close s l) = false)
    by (now destruct l).
  revert H. generalize (FFmpeg.on_close s l). clear s l.
  induction ls as [|l ls IH]; intros s H; simpl; auto.
  apply IH. now destruct l.
Qed.

(** A signal sent to a process stays sent. *)
Lemma step_sent s e s' pid sig :
  FFmpeg.step s e = Some s' -> In sig (sent s pid) -> In sig (sent s' pid).
Proof.
  unfold sent, FFmpeg.process.
  assert (Happ : forall l (x : FFmpeg.ChildProcess),
             match nth_error l pid with Some p => In sig (FFmpeg.signals p) | None => False end ->
             match nth_error (l ++ [x]) pid with Some p => In sig (FFmpeg.signals p) | None => False end).
  { intros l x. destruct (nth_error l pid) eqn:E; [|tauto].
    rewrite nth_error_app1 by (apply nth_error_Some; congruence). now rewrite E. }
  assert (Hupd : forall l n f,
             (forall p, In sig (FFmpeg.signals p) -> In sig (FFmpeg.signals (f p))) ->
             match nth_error l pid with Some p => In sig (FFmpeg.signals p) | None => False end ->
             match nth_error (FFmpeg.update_nth n f l) pid with
             | Some p => In sig (FFmpeg.signals p) | None => False end).
  { intros l n f Hf. rewrite nth_error_update_nth.
    destruct (Nat.eqb n pid); auto. destruct (nth_error l pid); simpl; auto. }
  assert (Hkill : forall k p, In sig (FFmpeg.signals p) -> In sig (FFmpeg.signals (FFmpeg.kill k p))).
  { intros k p. simpl. intros. apply in_or_app. auto. }
  intros Hstep Hin.
  assert (Hin' : match nth_error (FFmpeg.processes s) pid with
                 | Some p => In sig (FFmpeg.signals p) | None => False end).
  { destruct (nth_error (FFmpeg.processes s) pid); auto. }
  clear Hin.
  assert (Hgoal : match nth_error (FFmpeg.processes s') pid with
                  | Some p => In sig (FFmpeg.signals p) | None => False end).
  { destruct e as [options ex| |q|q|q|i]; simpl in Hstep.
    - injection Hstep as <-. unfold FFmpeg.startStream.
      destruct (FFmpeg.isStreaming s); simpl; [exact Hin'|].
      destruct (negb ex); simpl; [exact Hin'|apply Happ; exact Hin'].
    - injection Hstep as <-. unfold FFmpeg.stopStream.
      destruct (FFmpeg.isStreaming s), (FFmpeg.streamingProcess s); simpl;
        try exact Hin'.
      apply Hupd; [|exact Hin']. intros p Hp. apply Hkill. exact Hp.
    - unfold FFmpeg.process in Hstep.
      destruct (nth_error (FFmpeg.processes s) q) as [p|]; [|discriminate].
      destruct (FFmpeg.running p); [|discriminate].
      injection Hstep as <-. simpl. apply Hupd; [auto|exact Hin'].
    - unfold FFmpeg.process in Hstep.
      destruct (nth_error (FFmpeg.processes s) q) as [p|]; [|discriminate].
      destruct (negb (FFmpeg.running p) && negb (FFmpeg.closed p)); [|discriminate].
      injection Hstep as <-. rewrite on_close_processes. simpl.
      apply Hupd; [auto|exact Hin'].
    - unfold FFmpeg.process in Hstep.
      destruct (nth_error (FFmpeg.processes s) q) as [p|]; [|discriminate].
      destruct (FFmpeg.closed p); [discriminate|].
      injection Hstep as <-. simpl. exact Hin'.
    - destruct (nth_error (FFmpeg.timers s) i) as [[promise options|]|]; [| |discriminate];
        injection Hstep as <-.
      + unfold FFmpeg.on_confirm. destruct (FFmpeg.handle_not_killed _); simpl; exact Hin'.
      + unfold FFmpeg.on_escalation. destruct (FFmpeg.handle_not_killed _); simpl;
          [|exact Hin'].
        destruct (FFmpeg.streamingProcess s); simpl; [|exact Hin'].
        apply Hupd; [|exact Hin']. intros p Hp. apply Hkill. exact Hp. }
  destruct (nth_error (FFmpeg.processes s') pid); [exact Hgoal|contradiction].
Qed.

Lemma await_sent during s promise s' r pid sig :
  FFmpeg.await s promise during = (s', r) ->
  In sig (sent s pid) -> In sig (sent s' pid).
Proof.
  revert s. induction during as [|e during IH]; intros s; simpl.
  - destruct (FFmpeg.settled s promise); intros [= <- _]; auto.
  - destruct (FFmpeg.settled s promise); [intros [= <- _]; auto|].
    destruct (FFmpeg.step s e) as [s1|] eqn:E; [|intros [= <- _]; auto].
    intros H Hin. apply (IH s1 H). eapply step_sent; eauto.
Qed.

Lemma stopStream_sends_SIGTERM s pid p :
  FFmpeg.isStreaming s = true -> FFmpeg.streamingProcess s = Some pid ->
  FFmpeg.process s pid = Some p ->
  sent (fst (FFmpeg.stopStream s)) pid = FFmpeg.signals p ++ [FFmpeg.SIGTERM].
Proof.
  unfold FFmpeg.stopStream, sent, FFmpeg.process. intros -> -> Hp. simpl.
  now rewrite nth_error_update_nth, Nat.eqb_refl, Hp.
Qed.

(** ** Starting and stopping the stream *)

(** C1, on the code.  The stream is started, its process ends by itself,
    and the stream is started again: the second start succeeds, and two
    sessions have status [streaming]. *)
Theorem restart_after_exit_two_streaming :
  observe (fun app => List.map s_id (Routes.streaming app)) (List.map Routes.status)
          (Routes.run studio (start_request "s1" 10 :: crash 0 ++ [start_request "s2" 20]))
  = Some (["s1"; "s2"], [200; 200]%nat).
Proof.
  vm_compute. reflexivity.
Qed.

(** C2, as the code has it.  When a process that no [stopStream] was
    called on is closed, the service drops its handle and its streaming
    flag and closes the process, and nothing else happens: the storage (so
    every session), the messages broadcast, the calls to Facebook and the
    promises of the service are what they were. *)
Theorem exit_only_clears_the_handle (app app' : Routes.t) (pid : nat)
        (p : FFmpeg.ChildProcess) (responses : list Routes.Response)
        (Hp : FFmpeg.process (Routes.ffmpeg app) pid = Some p)
        (Hunexpected : FFmpeg.closeListeners p = [FFmpeg.StartClose])
        (Hclose : Routes.act app (Routes.Callback (FFmpeg.EmitClose pid)) =
                  Some (app', responses)) :
  FFmpeg.streamingProcess (Routes.ffmpeg app') = None /\
  FFmpeg.isStreaming (Routes.ffmpeg app') = false /\
  FFmpeg.process (Routes.ffmpeg app') pid = Some (FFmpeg.set_closed p) /\
  FFmpeg.promises (Routes.ffmpeg app') = FFmpeg.promises (Routes.ffmpeg app) /\
  Routes.storage app' = Routes.storage app /\
  Routes.broadcasts app' = Routes.broadcasts app /\
  Routes.facebook app' = Routes.facebook app /\
  responses = [].
Proof.
  simpl in Hclose. rewrite Hp in Hclose.
  destruct (negb (FFmpeg.running p) && negb (FFmpeg.closed p)); [|discriminate].
  rewrite Hunexpected in Hclose. simpl in Hclose.
  injection Hclose as <- <-. simpl. repeat split.
  unfold FFmpeg.process in *. simpl.
  now rewrite nth_error_update_nth, Nat.eqb_refl, Hp.
Qed.

Lemma exit_only_clears_the_handle_witness :
  FFmpeg.streamingProcess (Routes.ffmpeg after_exit) = None /\
  FFmpeg.isStreaming (Routes.ffmpeg after_exit) = false /\
  FFmpeg.process (Routes.ffmpeg after_exit) 0 =
  Some (FFmpeg.set_closed
          (FFmpeg.mkProcess some_options false false false [] [FFmpeg.StartClose] 0)) /\
  FFmpeg.promises (Routes.ffmpeg after_exit) = FFmpeg.promises (Routes.ffmpeg exiting) /\
  Routes.storage after_exit = Routes.storage exiting /\
  Routes.broadcasts after_exit = Routes.broadcasts exiting /\
  Routes.facebook after_exit = Routes.facebook exiting /\
  @nil Routes.Response = [].
Proof.
  apply (exit_only_clears_the_handle exiting after_exit 0
           (FFmpeg.mkProcess some_options false false false [] [FFmpeg.StartClose] 0) []);
    reflexivity.
Defined.

(** C2, as the specification has it, fails: the server is on air with
    session [s1], no stop was asked for, the process ends and is closed;
    afterwards [s1] still has status [streaming], not [error], and no
    message was broadcast. *)
Lemma unexpected_exit_is_absorbed :
  session_status on_air "s1" = Some "streaming" /\
  sent (Routes.ffmpeg on_air) 0 = [] /\
  observe (fun app => (session_status app "s1",
                       List.length (Routes.broadcasts app),
                       FFmpeg.streamingProcess (Routes.ffmpeg app)))
          (fun responses => responses)
          (Routes.run on_air (crash 0))
  = Some ((Some "streaming", List.length (Routes.broadcasts on_air), None), []).
Proof.
  vm_compute. auto.
Qed.

(** Every state the server reaches has its sessions in order. *)
Lemma createSession_ok st insertSession uuid now :
  sessions_ok st -> sessions_ok (fst (MemStorage.createSession st insertSession uuid now)).
Proof.
  intros [Hwf Hid]. split; simpl.
  - now apply wf_set.
  - intros k s Hin. apply In_set in Hin; [|exact Hwf].
    destruct Hin as [[-> ->]|[_ Hin]]; auto.
Qed.

Lemma updateSession_ok st id updates :
  sessions_ok st -> sessions_ok (fst (MemStorage.updateSession st id updates)).
Proof.
  intros Hok. unfold MemStorage.updateSession.
  destruct (JsMap.get (MemStorage.sessions st) id) as [session|] eqn:E; [|exact Hok].
  destruct Hok as [Hwf Hid]. split; simpl.
  - now apply wf_set.
  - intros k s Hin. apply In_set in Hin; [|exact Hwf].
    destruct Hin as [[-> ->]|[_ Hin]]; auto.
    simpl. apply Hid. now apply get_In.
Qed.

Lemma getConfiguration_sessions st uuid now :
  MemStorage.sessions (fst (MemStorage.getConfiguration st uuid now)) =
  MemStorage.sessions st.
Proof.
  unfold MemStorage.getConfiguration. now destruct (MemStorage.configuration st).
Qed.

Lemma streamStart_sessions_ok app body configUuid uuid now response inputExists during :
  sessions_ok (Routes.storage app) ->
  sessions_ok (Routes.storage
                 (fst (Routes.streamStart app body configUuid uuid now response
                                          inputExists during))).
Proof.
  intros Hok. unfold Routes.streamStart.
  destruct (MemStorage.getVideo _ _) as [video|]; [|exact Hok].
  destruct (array_find _ _) as [pageCredential|]; [|exact Hok].
  destruct response as [liveVideo|]; simpl; [|exact Hok].
  destruct (MemStorage.getConfiguration (Routes.storage app) configUuid now)
    as [st config] eqn:Ec.
  assert (Hst : sessions_ok st).
  { unfold sessions_ok.
    replace (MemStorage.sessions st) with (MemStorage.sessions (Routes.storage app));
      [exact Hok|].
    rewrite <- (getConfiguration_sessions (Routes.storage app) configUuid now).
    now rewrite Ec. }
  destruct (FFmpeg.startStream _ _ _) as [ff promise].
  destruct (FFmpeg.await ff promise during) as [ff' [[value|reason]|]]; simpl; auto.
  exact (createSession_ok st
           (mkInsertSession (Some "streaming") (Some (Routes.videoId body))
                            (Some (Routes.facebookPageId body))
                            (Some (Routes.streamTitle body))
                            (Some (Routes.streamDescription body))
                            (Some now) None)
           uuid now Hst).
Qed.

Lemma streamStop_sessions_ok app now during :
  sessions_ok (Routes.storage app) ->
  sessions_ok (Routes.storage (fst (Routes.streamStop app now during))).
Proof.
  intros Hok. unfold Routes.streamStop.
  destruct (MemStorage.getCurrentSession _) as [currentSession|]; [|exact Hok].
  destruct (FFmpeg.stopStream _) as [ff promise].
  destruct (FFmpeg.await ff promise during) as [ff' [[value|reason]|]]; simpl; auto.
  pose proof (updateSession_ok (Routes.storage app) (s_id currentSession)
                (mkPartialSession (Some "stopped") None None None None None
                                  (Some (Some now))) Hok) as H.
  destruct (MemStorage.updateSession _ _ _). exact H.
Qed.

Lemma fst_sent_response r : fst (Routes.sent_response r) = fst r.
Proof.
  unfold Routes.sent_response. now destruct (snd r).
Qed.

Lemma run_sessions_ok actions app app' responses :
  sessions_ok (Routes.storage app) ->
  Routes.run app actions = Some (app', responses) ->
  sessions_ok (Routes.storage app').
Proof.
  revert app responses. induction actions as [|a actions IH]; intros app responses Hok.
  - simpl. now intros [= <- _].
  - simpl. destruct (Routes.act app a) as [[app1 r1]|] eqn:Ea; [|discriminate].
    destruct (Routes.run app1 actions) as [[app2 r2]|] eqn:Er; [|discriminate].
    intros [= <- _]. apply (IH app1 r2); auto.
    destruct a as [body configUuid uuid now response inputExists during|now during|e];
      simpl in Ea.
    + injection Ea as Ea. apply (f_equal fst) in Ea.
      rewrite fst_sent_response in Ea. simpl in Ea. subst app1.
      now apply streamStart_sessions_ok.
    + injection Ea as Ea. apply (f_equal fst) in Ea.
      rewrite fst_sent_response in Ea. simpl in Ea. subst app1.
      now apply streamStop_sessions_ok.
    + destruct (FFmpeg.step (Routes.ffmpeg app) e); [|discriminate].
      now injection Ea as <- _.
Qed.

Lemma studio_sessions_ok : sessions_ok (Routes.storage studio).
Proof.
  split; [constructor|intros k s []].
Qed.

Lemma await_settled s promise during r :
  FFmpeg.settled s promise = Some r -> FFmpeg.await s promise during = (s, Some r).
Proof.
  intros H. destruct during; simpl; now rewrite H.
Qed.

(** The guard of [startStream] at work: while the service is streaming, a
    start request is refused, and no session is created and nothing is
    broadcast. *)
Lemma streamStart_while_streaming app body configUuid uuid now response inputExists during :
  FFmpeg.isStreaming (Routes.ffmpeg app) = true ->
  let r := Routes.streamStart app body configUuid uuid now response inputExists during in
  MemStorage.sessions (Routes.storage (fst r)) = MemStorage.sessions (Routes.storage app) /\
  Routes.broadcasts (fst r) = Routes.broadcasts app /\
  exists code message, snd r = Some (Routes.json_error code message).
Proof.
  intros Hs. unfold Routes.streamStart.
  destruct (MemStorage.getVideo _ _) as [video|]; [|simpl; eauto].
  destruct (array_find _ _) as [pageCredential|]; [|simpl; eauto].
  destruct response as [liveVideo|]; simpl; [|eauto].
  pose proof (getConfiguration_sessions (Routes.storage app) configUuid now) as Hc.
  destruct (MemStorage.getConfiguration (Routes.storage app) configUuid now)
    as [st config].
  unfold FFmpeg.startStream. rewrite Hs.
  rewrite (await_settled _ _ _ (FFmpeg.Rejected FFmpeg.AlreadyRunning)).
  - simpl. eauto.
  - unfold FFmpeg.settled. simpl. now rewrite nth_error_last.
Qed.

Lemma streamStop_no_session app now during :
  MemStorage.getCurrentSession (Routes.storage app) = None ->
  Routes.streamStop app now during = (app, Some no_stream).
Proof.
  unfold Routes.streamStop. now intros ->.
Qed.

(** What a stop request that answers success has done. *)
Lemma streamStop_success_inv app now during app' :
  Routes.streamStop app now during = (app', Some Routes.json_success) ->
  exists currentSession ff,
    MemStorage.getCurrentSession (Routes.storage app) = Some currentSession /\
    fst (FFmpeg.await (fst (FFmpeg.stopStream (Routes.ffmpeg app)))
                      (snd (FFmpeg.stopStream (Routes.ffmpeg app))) during) = ff /\
    app' = Routes.mk
             (fst (MemStorage.updateSession (Routes.storage app) (s_id currentSession)
                     (mkPartialSession (Some "stopped") None None None None None
                                       (Some (Some now)))))
             ff (Routes.facebook app)
             (Routes.broadcasts app ++ [Routes.stream_stopped (s_id currentSession)]).
Proof.
  unfold Routes.streamStop.
  destruct (MemStorage.getCurrentSession (Routes.storage app)) as [cur|]; [|discriminate].
  destruct (FFmpeg.stopStream (Routes.ffmpeg app)) as [ff promise]. simpl.
  destruct (FFmpeg.await ff promise during) as [ff' [[value|reason]|]]; try discriminate.
  destruct (MemStorage.updateSession _ _ _) as [st o] eqn:E.
  intros [= <-]. exists cur, ff'. now rewrite E.
Qed.

Lemma updateSession_found st s updates :
  sessions_ok st -> In s (JsMap.values (MemStorage.sessions st)) ->
  fst (MemStorage.updateSession st (s_id s) updates) =
  MemStorage.with_sessions st
    (JsMap.set (MemStorage.sessions st) (s_id s) (MemStorage.spread s updates)).
Proof.
  intros Hok Hin. unfold MemStorage.updateSession.
  now rewrite (sessions_ok_get st s Hok Hin).
Qed.

(** C3, as the code has it.  A stop request fails with "No active stream
    found" exactly when no session has status [streaming], and then the
    state of the server is what it was; when at most one session has status
    [streaming], a stop request that succeeded is followed by one that
    fails so and changes nothing, whatever happens in between to the
    process. *)
Theorem streamStop_without_stream :
  (forall app now during,
      MemStorage.getCurrentSession (Routes.storage app) = None <->
      snd (Routes.streamStop app now during) = Some no_stream) /\
  (forall app now during,
      MemStorage.getCurrentSession (Routes.storage app) = None ->
      Routes.streamStop app now during = (app, Some no_stream)) /\
  (forall app now during app' now' during',
      sessions_ok (Routes.storage app) ->
      (List.length (Routes.streaming app) <= 1)%nat ->
      Routes.streamStop app now during = (app', Some Routes.json_success) ->
      Routes.streamStop app' now' during' = (app', Some no_stream)).
Proof.
  split; [|split].
  - intros app now during. split.
    + intros H. now rewrite streamStop_no_session.
    + unfold Routes.streamStop.
      destruct (MemStorage.getCurrentSession (Routes.storage app)); auto.
      destruct (FFmpeg.stopStream (Routes.ffmpeg app)) as [ff promise].
      destruct (FFmpeg.await ff promise during) as [ff' [[value|reason]|]];
        try discriminate.
      destruct (MemStorage.updateSession _ _ _). discriminate.
  - exact streamStop_no_session.
  - intros app now during app' now' during' Hok Hone Hstop.
    apply streamStop_success_inv in Hstop.
    destruct Hstop as (cur & ff & Hcur & _ & ->).
    apply streamStop_no_session. simpl.
    apply getCurrentSession_In in Hcur. destruct Hcur as [Hin Hstreaming].
    rewrite (updateSession_found _ _ _ Hok Hin).
    unfold MemStorage.getCurrentSession. rewrite array_find_filter. simpl.
    fold is_streaming.
    destruct Hok as [Hwf Hid].
    apply values_In in Hin. destruct Hin as [k Hk].
    pose proof (Hid _ _ Hk) as Hkey. rewrite Hkey.
    rewrite (set_last_streaming _ k cur); auto.
Qed.

Lemma streamStop_without_stream_witness :
  Routes.streamStop (fst (Routes.streamStop on_air 30 [FFmpeg.ProcessExits 0; FFmpeg.EmitClose 0]))
                    40 []
  = (fst (Routes.streamStop on_air 30 [FFmpeg.ProcessExits 0; FFmpeg.EmitClose 0]),
     Some no_stream).
Proof.
  destruct streamStop_without_stream as [_ [_ H]].
  apply (H on_air 30 [FFmpeg.ProcessExits 0; FFmpeg.EmitClose 0]).
  - split.
    + repeat constructor. simpl. tauto.
    + simpl. intros k s [[= <- <-]|[]]. reflexivity.
  - simpl. lia.
  - reflexivity.
Defined.

(** C3, as the specification has it, fails: after a start, the end of the
    process by itself and a second start, two stop requests in a row both
    answer success and each broadcasts [stream_stopped]. *)
Lemma second_stop_succeeds_after_restart :
  observe (fun app => filter is_stopped (Routes.broadcasts app)) (List.map Routes.status)
          (Routes.run studio
             (start_request "s1" 10 :: crash 0 ++
              [start_request "s2" 20; stop_request 1 30; stop_request 1 40]))
  = Some ([Routes.stream_stopped "s1"; Routes.stream_stopped "s2"],
          [200; 200; 200; 200]%nat).
Proof.
  vm_compute. reflexivity.
Qed.

(** C4, as the code has it.  A stop request that succeeds has found a
    streaming session; it leaves that session with status [stopped] and the
    time of the request as its end time, broadcasts [stream_stopped] with
    its identifier, has sent SIGTERM to the process of the service when the
    service was streaming, and has made no call to Facebook. *)
Theorem streamStop_success (app app' : Routes.t) (now : Date)
        (during : list FFmpeg.Event)
        (Hok : sessions_ok (Routes.storage app))
        (Hstop : Routes.streamStop app now during = (app', Some Routes.json_success)) :
  exists currentSession,
    MemStorage.getCurrentSession (Routes.storage app) = Some currentSession /\
    JsMap.get (MemStorage.sessions (Routes.storage app')) (s_id currentSession) =
    Some (stopped currentSession now) /\
    s_status (stopped currentSession now) = "stopped" /\
    s_endTime (stopped currentSession now) = Some now /\
    Routes.broadcasts app' =
    Routes.broadcasts app ++ [Routes.stream_stopped (s_id currentSession)] /\
    (forall pid p,
        FFmpeg.isStreaming (Routes.ffmpeg app) = true ->
        FFmpeg.streamingProcess (Routes.ffmpeg app) = Some pid ->
        FFmpeg.process (Routes.ffmpeg app) pid = Some p ->
        In FFmpeg.SIGTERM (sent (Routes.ffmpeg app') pid)) /\
    Routes.facebook app' = Routes.facebook app.
Proof.
  apply streamStop_success_inv in Hstop.
  destruct Hstop as (cur & ff & Hcur & Hff & ->).
  exists cur. split; [exact Hcur|].
  apply getCurrentSession_In in Hcur. destruct Hcur as [Hin _].
  simpl. rewrite (updateSession_found _ _ _ Hok Hin). simpl.
  repeat split.
  - apply get_set_same.
  - intros pid p Hs Hh Hp. subst ff.
    destruct (FFmpeg.await _ _ during) as [ff' r] eqn:E. simpl.
    eapply await_sent; [exact E|].
    rewrite (stopStream_sends_SIGTERM _ pid p Hs Hh Hp).
    apply in_or_app. right. now left.
Qed.

Lemma streamStop_success_witness :
  exists currentSession,
    MemStorage.getCurrentSession (Routes.storage on_air) = Some currentSession /\
    s_id currentSession = "s1".
Proof.
  destruct (streamStop_success on_air
              (fst (Routes.streamStop on_air 30 [FFmpeg.ProcessExits 0; FFmpeg.EmitClose 0]))
              30 [FFmpeg.ProcessExits 0; FFmpeg.EmitClose 0])
    as (cur & Hcur & _).
  - split.
    + repeat constructor. simpl. tauto.
    + simpl. intros k s [[= <- <-]|[]]. reflexivity.
  - reflexivity.
  - exists cur. split; [exact Hcur|].
    vm_compute in Hcur. now injection Hcur as <-.
Defined.

(** C4, as the specification has it, fails: the server is on air after
    Facebook created live video [fb1]; a stop request succeeds and leaves
    the session stopped, and [endLiveVideo] has not been called: the only
    call to Facebook is the [createLiveVideo] of the start. *)
Lemma stop_does_not_end_the_live_video :
  let stop := Routes.streamStop on_air 30 [FFmpeg.ProcessExits 0; FFmpeg.EmitClose 0] in
  snd stop = Some Routes.json_success /\
  session_status (fst stop) "s1" = Some "stopped" /\
  existsb Facebook.is_end (Routes.facebook (fst stop)) = false /\
  Routes.facebook (fst stop) =
  [Facebook.CreateLiveVideo "page" "token" "Live" "From the studio"].
Proof.
  vm_compute. auto.
Qed.

(** ** Launching *)

Lemma settled_settle ps promise r :
  nth_error ps promise = Some None ->
  nth_error (FFmpeg.settle promise r ps) promise = Some (Some r).
Proof.
  intros H. unfold FFmpeg.settle.
  now rewrite nth_error_update_nth, Nat.eqb_refl, H.
Qed.

(** C7, as the code has it.  [startStream] is refused with AlreadyRunning
    when the service is streaming and with InputNotFound when the input file
    is missing, in both cases without a process, a handle or a timer; else
    it spawns a process, keeps its handle and arms the confirmation, the
    promise pending.  When the confirmation fires on a pending launch it
    leaves the handle as it is: the launch succeeds, and the service is
    streaming, when there is a handle whose process was not killed, and
    fails with LaunchFailed otherwise.  A process that is closed has had its
    handle dropped by its ['close'] listener, so a launch whose process
    exited fails with no handle left. *)
Theorem startStream_launch (s : FFmpeg.t) (options : FFmpeg.StreamingOptions) :
  (FFmpeg.isStreaming s = true ->
   forall inputExists,
     let r := FFmpeg.startStream s options inputExists in
     FFmpeg.settled (fst r) (snd r) = Some (FFmpeg.Rejected FFmpeg.AlreadyRunning) /\
     FFmpeg.processes (fst r) = FFmpeg.processes s /\
     FFmpeg.streamingProcess (fst r) = FFmpeg.streamingProcess s /\
     FFmpeg.timers (fst r) = FFmpeg.timers s) /\
  (FFmpeg.isStreaming s = false ->
   let r := FFmpeg.startStream s options false in
   FFmpeg.settled (fst r) (snd r) =
   Some (FFmpeg.Rejected (FFmpeg.InputNotFound (FFmpeg.inputFile options))) /\
   FFmpeg.processes (fst r) = FFmpeg.processes s /\
   FFmpeg.streamingProcess (fst r) = FFmpeg.streamingProcess s /\
   FFmpeg.timers (fst r) = FFmpeg.timers s) /\
  (FFmpeg.isStreaming s = false ->
   let r := FFmpeg.startStream s options true in
   let pid := List.length (FFmpeg.processes s) in
   FFmpeg.settled (fst r) (snd r) = None /\
   FFmpeg.isStreaming (fst r) = false /\
   FFmpeg.streamingProcess (fst r) = Some pid /\
   FFmpeg.process (fst r) pid =
   Some (FFmpeg.mkProcess options false true false [] [FFmpeg.StartClose] (snd r)) /\
   FFmpeg.timers (fst r) = FFmpeg.timers s ++ [FFmpeg.ConfirmTimer (snd r) options]) /\
  (forall i promise,
      nth_error (FFmpeg.timers s) i = Some (FFmpeg.ConfirmTimer promise options) ->
      nth_error (FFmpeg.promises s) promise = Some None ->
      exists s',
        FFmpeg.step s (FFmpeg.Fire i) = Some s' /\
        FFmpeg.streamingProcess s' = FFmpeg.streamingProcess s /\
        if FFmpeg.handle_not_killed s
        then FFmpeg.settled s' promise = Some (FFmpeg.Resolved true) /\
             FFmpeg.isStreaming s' = true /\
             FFmpeg.currentStreamInfo s' = Some options
        else FFmpeg.settled s' promise = Some (FFmpeg.Rejected FFmpeg.LaunchFailed) /\
             FFmpeg.isStreaming s' = FFmpeg.isStreaming s) /\
  (forall pid p s',
      FFmpeg.process s pid = Some p -> FFmpeg.closeListeners p <> [] ->
      FFmpeg.step s (FFmpeg.EmitClose pid) = Some s' ->
      FFmpeg.streamingProcess s' = None /\ FFmpeg.handle_not_killed s' = false).
Proof.
  repeat apply conj.
  - intros Hs inputExists. unfold FFmpeg.startStream. rewrite Hs. simpl.
    unfold FFmpeg.settled. simpl. now rewrite nth_error_last.
  - intros Hs. unfold FFmpeg.startStream. rewrite Hs. simpl.
    unfold FFmpeg.settled. simpl. now rewrite nth_error_last.
  - intros Hs. unfold FFmpeg.startStream. rewrite Hs. simpl.
    unfold FFmpeg.settled, FFmpeg.process. simpl. now rewrite !nth_error_last.
  - intros i promise Hi Hpending. simpl. rewrite Hi. eexists. split; [reflexivity|].
    unfold FFmpeg.on_confirm.
    change (FFmpeg.handle_not_killed (FFmpeg.with_timers s _))
      with (FFmpeg.handle_not_killed s).
    destruct (FFmpeg.handle_not_killed s); simpl; unfold FFmpeg.settled; simpl;
      now rewrite (settled_settle _ _ _ Hpending).
  - intros pid p s' Hp Hls. simpl. rewrite Hp.
    destruct (negb (FFmpeg.running p) && negb (FFmpeg.closed p)); [|discriminate].
    intros [= <-]. destruct (on_close_clears (FFmpeg.closeListeners p)
      (FFmpeg.with_processes s (FFmpeg.update_nth pid FFmpeg.set_closed (FFmpeg.processes s)))
      Hls) as [H _].
    split; [exact H|]. unfold FFmpeg.handle_not_killed. now rewrite H.
Qed.

(** A launch from rest whose process runs through the window. *)
Lemma startStream_launch_witness :
  exists s',
    FFmpeg.step (fst (FFmpeg.startStream FFmpeg.init some_options true)) (FFmpeg.Fire 0)
    = Some s' /\
    FFmpeg.settled s' 0 = Some (FFmpeg.Resolved true) /\
    FFmpeg.isStreaming s' = true.
Proof.
  destruct (startStream_launch (fst (FFmpeg.startStream FFmpeg.init some_options true))
                               some_options) as (_ & _ & _ & H & _).
  destruct (H 0%nat 0%nat eq_refl eq_refl) as (s' & Hstep & _ & Hs).
  exists s'. split; [exact Hstep|]. simpl in Hs. tauto.
Defined.

(** C7, as the specification has it, fails.  Two launches are made one
    after the other, the second (promise 1, process 1) while the first is
    still in its window, so it is not refused and its process takes the
    handle.  The confirmation of the first fires and the service is
    streaming; [stopStream] is called and kills process 1; then the
    confirmation of the second launch fires: that launch fails with
    LaunchFailed, and the handle, process 1, killed and not yet closed, is
    kept. *)
Lemma launch_fails_with_the_handle_kept :
  option_map (fun s => (FFmpeg.settled s 1, FFmpeg.streamingProcess s,
                        option_map FFmpeg.killed (FFmpeg.process s 1),
                        option_map FFmpeg.closed (FFmpeg.process s 1)))
             (FFmpeg.run FFmpeg.init
                [FFmpeg.CallStart some_options true;
                 FFmpeg.CallStart some_options true;
                 FFmpeg.Fire 0; FFmpeg.CallStop; FFmpeg.Fire 0])
  = Some (Some (FFmpeg.Rejected FFmpeg.LaunchFailed), Some 1%nat, Some true, Some false).
Proof.
  vm_compute. reflexivity.
Qed.

(** ** Terminating *)

(** After [stopStream] has delivered SIGTERM, the check of the escalation
    finds the process [killed], and the escalation does nothing. *)
Lemma escalation_after_SIGTERM s pid p :
  FFmpeg.isStreaming s = true -> FFmpeg.streamingProcess s = Some pid ->
  FFmpeg.process s pid = Some p -> FFmpeg.running p = true ->
  FFmpeg.on_escalation (fst (FFmpeg.stopStream s)) = fst (FFmpeg.stopStream s).
Proof.
  intros Hs Hh Hp Hr. unfold FFmpeg.on_escalation.
  replace (FFmpeg.handle_not_killed (fst (FFmpeg.stopStream s))) with false; auto.
  unfold FFmpeg.stopStream. rewrite Hs, Hh. unfold FFmpeg.handle_not_killed. simpl.
  unfold FFmpeg.process in *. simpl.
  rewrite nth_error_update_nth, Nat.eqb_refl, Hp. simpl.
  now rewrite Hr, orb_true_r.
Qed.

(** C8, on the code.  A stream is started and confirmed, [stopStream] is
    called, the process does not end, and the escalation fires: the only
    signal sent to the process is SIGTERM, the process is still running,
    the promise of [stopStream] (promise 1) is pending, the handle is kept
    and no timer is left. *)
Theorem escalation_sends_no_SIGKILL :
  option_map (fun s => (sent s 0, option_map FFmpeg.running (FFmpeg.process s 0),
                        FFmpeg.settled s 1, FFmpeg.streamingProcess s,
                        FFmpeg.timers s))
             (FFmpeg.run FFmpeg.init
                [FFmpeg.CallStart some_options true; FFmpeg.Fire 0;
                 FFmpeg.CallStop; FFmpeg.Fire 0])
  = Some ([FFmpeg.SIGTERM], Some true, None, Some 0%nat, []).
Proof.
  vm_compute. reflexivity.
Qed.

(** ** Probing a file *)

Section ProbeFacts.
Import VideoInfo.

Lemma digit_range c : is_digit c = true -> 0 <= digit c <= 9.
Proof.
  unfold is_digit, digit. intros H. apply andb_prop in H. destruct H as [H1 H2].
  apply Nat.leb_le in H1, H2. lia.
Qed.

Lemma skip_space_digit c rest : is_digit c = true -> skip_space (c :: rest) = c :: rest.
Proof.
  intros H. unfold skip_space. cbn [skip_bytes].
  replace (space_length (c :: rest)) with 0%nat; [reflexivity|].
  destruct c as [[] [] [] [] [] [] [] []]; try discriminate H; reflexivity.
Qed.

Lemma digit_not c c' : is_digit c = true -> is_digit c' = false -> Ascii.eqb c' c = false.
Proof.
  intros H H'. apply Ascii.eqb_neq. congruence.
Qed.

Lemma sign_digit c r : is_digit c = true -> sign (c :: r) = (false, c :: r).
Proof.
  intros H.
  assert (Hm : Ascii.eqb "-" c = false) by now apply digit_not.
  assert (Hp : Ascii.eqb "+" c = false) by now apply digit_not.
  apply Ascii.eqb_neq in Hm, Hp.
  destruct c as [[] [] [] [] [] [] [] []]; try reflexivity; congruence.
Qed.

Lemma span_app p ds rest :
  forallb p ds = true ->
  match rest with [] => True | c :: _ => p c = false end ->
  span p (ds ++ rest) = (ds, rest).
Proof.
  intros Hds Hrest. induction ds as [|d ds IH]; simpl in *.
  - destruct rest as [|c rest]; simpl; auto. now rewrite Hrest.
  - apply andb_prop in Hds. destruct Hds as [-> Hds]. now rewrite IH.
Qed.

Lemma number_of_acc radix value ds acc :
  fold_left (fun n c => radix * n + value c) ds acc =
  acc * radix ^ Z.of_nat (List.length ds) + number_of radix value ds.
Proof.
  unfold number_of. revert acc. induction ds as [|d ds IH]; intros acc.
  - simpl. lia.
  - cbn [fold_left List.length]. rewrite IH, (IH (radix * 0 + value d)).
    rewrite Nat2Z.inj_succ, Z.pow_succ_r by lia. ring.
Qed.

Lemma number_of_app radix value a b :
  number_of radix value (a ++ b) =
  number_of radix value a * radix ^ Z.of_nat (List.length b) + number_of radix value b.
Proof.
  unfold number_of at 1. rewrite fold_left_app.
  fold (number_of radix value a). apply number_of_acc.
Qed.

Lemma number_of_digits_range ds :
  forallb is_digit ds = true ->
  0 <= number_of 10 digit ds < 10 ^ Z.of_nat (List.length ds).
Proof.
  induction ds as [|d ds IH] using rev_ind; intros H.
  - simpl. unfold number_of. simpl. lia.
  - rewrite forallb_app in H. apply andb_prop in H. destruct H as [Hds Hd].
    simpl in Hd. rewrite andb_true_r in Hd. apply digit_range in Hd.
    specialize (IH Hds). rewrite number_of_app, length_app. simpl List.length.
    replace (number_of 10 digit [d]) with (digit d) by (unfold number_of; simpl; lia).
    rewrite Nat2Z.inj_add, Z.pow_add_r by lia. simpl Z.of_nat.
    change (10 ^ 1) with 10. lia.
Qed.

Lemma to_pos_pow10 k : Zpos (Z.to_pos (10 ^ Z.of_nat k)) = 10 ^ Z.of_nat k.
Proof.
  apply Z2Pos.id. apply Z.pow_pos_nonneg; lia.
Qed.

(** The floor of [ip.fp] is [ip]. *)
Lemma Qfloor_decimal ip fp :
  forallb is_digit fp = true ->
  Qfloor (decimal ip fp) = number_of 10 digit ip.
Proof.
  intros Hfp. unfold decimal, Qfloor. rewrite to_pos_pow10, number_of_app.
  pose proof (number_of_digits_range fp Hfp).
  rewrite Z.add_comm, Z.div_add by lia. rewrite Z.div_small by lia. lia.
Qed.

(** *** Rounding to a double *)

Lemma pow2_pos x : 0 <= x -> 0 < 2 ^ x.
Proof. intros. apply Z.pow_pos_nonneg; lia. Qed.

Lemma round_half_even_bounds n d :
  0 < d ->
  n / d <= round_half_even n d <= n / d + 1 /\
  (round_half_even n d = n / d + 1 -> d <= 2 * (n mod d)).
Proof.
  intros Hd. unfold round_half_even.
  destruct (Z.ltb_spec (2 * (n mod d)) d); [lia|].
  destruct (Z.ltb_spec d (2 * (n mod d))); [lia|].
  destruct (Z.even (n / d)); lia.
Qed.

Lemma round_half_even_exact n d : 0 < d -> round_half_even (n * d) d = n.
Proof.
  intros Hd. unfold round_half_even. rewrite Z.mod_mul, Z.div_mul by lia.
  destruct (Z.ltb_spec (2 * 0) d); lia.
Qed.

(** [2 ^ ilog2 a b <= a / b] *)
Lemma ilog2_lower a b s :
  0 < a -> 0 < b -> 0 <= s -> 0 <= ilog2 a b + s ->
  2 ^ (ilog2 a b + s) * b <= a * 2 ^ s.
Proof.
  intros Ha Hb Hs Hl. unfold ilog2 in *.
  pose proof (Z.log2_spec a Ha) as [Ha1 Ha2].
  pose proof (Z.log2_spec b Hb) as [Hb1 Hb2].
  pose proof (Z.log2_nonneg a). pose proof (Z.log2_nonneg b).
  set (la := Z.log2 a) in *. set (lb := Z.log2 b) in *.
  destruct (if 0 <=? la - lb then 2 ^ (la - lb) * b <=? a else b <=? 2 ^ (- (la - lb)) * a)
    eqn:E.
  - destruct (Z.leb_spec 0 (la - lb)) as [Hd|Hd].
    + apply Z.leb_le in E. rewrite Z.pow_add_r by lia.
      pose proof (pow2_pos s Hs). nia.
    + apply Z.leb_le in E.
      assert (Hsplit : 2 ^ s = 2 ^ (la - lb + s) * 2 ^ (- (la - lb))).
      { rewrite <- Z.pow_add_r by lia. f_equal. lia. }
      rewrite Hsplit. pose proof (pow2_pos (la - lb + s) Hl). nia.
  - clear E.
    assert (Hlt : 2 ^ (la - lb - 1 + s) * 2 ^ (lb + 1) = 2 ^ la * 2 ^ s).
    { rewrite <- !Z.pow_add_r by lia. f_equal. lia. }
    replace (Z.succ lb) with (lb + 1) in Hb2 by lia.
    pose proof (pow2_pos (la - lb - 1 + s) Hl). pose proof (pow2_pos s Hs).
    assert (2 ^ (la - lb - 1 + s) * b <= 2 ^ (la - lb - 1 + s) * 2 ^ (lb + 1)) by nia.
    nia.
Qed.

(** [a / b < 2 ^ (ilog2 a b + 1)] *)
Lemma ilog2_upper a b s :
  0 < a -> 0 < b -> 0 <= s -> 0 <= ilog2 a b + 1 + s ->
  a * 2 ^ s < 2 ^ (ilog2 a b + 1 + s) * b.
Proof.
  intros Ha Hb Hs Hl. unfold ilog2 in *.
  pose proof (Z.log2_spec a Ha) as [Ha1 Ha2].
  pose proof (Z.log2_spec b Hb) as [Hb1 Hb2].
  pose proof (Z.log2_nonneg a). pose proof (Z.log2_nonneg b).
  set (la := Z.log2 a) in *. set (lb := Z.log2 b) in *.
  replace (Z.succ la) with (la + 1) in Ha2 by lia.
  pose proof (pow2_pos s Hs).
  destruct (if 0 <=? la - lb then 2 ^ (la - lb) * b <=? a else b <=? 2 ^ (- (la - lb)) * a)
    eqn:E.
  - clear E.
    assert (Heq : 2 ^ (la - lb + 1 + s) * 2 ^ lb = 2 ^ (la + 1) * 2 ^ s).
    { rewrite <- !Z.pow_add_r by lia. f_equal. lia. }
    pose proof (pow2_pos (la - lb + 1 + s) Hl).
    assert (2 ^ (la - lb + 1 + s) * 2 ^ lb <= 2 ^ (la - lb + 1 + s) * b) by nia.
    nia.
  - replace (la - lb - 1 + 1 + s) with (la - lb + s) in * by lia.
    destruct (Z.leb_spec 0 (la - lb)) as [Hd|Hd].
    + apply Z.leb_gt in E. rewrite Z.pow_add_r by lia. nia.
    + apply Z.leb_gt in E.
      assert (Hsplit : 2 ^ s = 2 ^ (la - lb + s) * 2 ^ (- (la - lb))).
      { rewrite <- Z.pow_add_r by lia. f_equal. lia. }
      rewrite Hsplit. pose proof (pow2_pos (la - lb + s) Hl). nia.
Qed.

(** The integer that [round_half_even] gives is within a half of
    [n / d]. *)
Lemma round_half_even_nearest n d :
  0 < d -> 2 * Z.abs (round_half_even n d * d - n) <= d.
Proof.
  intros Hd. unfold round_half_even.
  pose proof (Z.div_mod n d ltac:(lia)). pose proof (Z.mod_pos_bound n d Hd).
  destruct (Z.ltb_spec (2 * (n mod d)) d); [nia|].
  destruct (Z.ltb_spec d (2 * (n mod d))); [nia|].
  destruct (Z.even (n / d)); nia.
Qed.

Lemma Qred_inject_Z q z : q == inject_Z z -> Qred q = inject_Z z.
Proof.
  intros H. rewrite (Qred_complete _ _ H). unfold Qred, inject_Z.
  pose proof (Z.ggcd_correct_divisors z 1) as Hd.
  pose proof (Z.ggcd_gcd z 1) as Hg. rewrite Z.gcd_1_r in Hg.
  destruct (Z.ggcd z 1) as [g [aa bb]]. simpl in *. subst g.
  destruct Hd as [-> Hb]. assert (bb = 1) by lia. subst bb.
  now rewrite Z.mul_1_l.
Qed.

(** The floor of the double nearest to [a / b] is the floor of [a / b]
    when [a / b] is further from the next integer than that integer is
    from the doubles around it. *)
Lemma floor_nearest a b :
  0 < a -> 0 < b ->
  (a / b + 1) * b < ((a / b + 1) * b - a) * 2 ^ 53 ->
  floor (nearest a b) = Finite (inject_Z (a / b)).
Proof.
  intros Ha Hb Hgap.
  set (n := a / b) in *.
  assert (Hn : n * b <= a < (n + 1) * b).
  { unfold n. pose proof (Z.div_mod a b ltac:(lia)).
    pose proof (Z.mod_pos_bound a b Hb). nia. }
  set (g := (n + 1) * b - a) in *.
  assert (Hg : 0 < g) by (unfold g; lia).
  assert (Hn0 : 0 <= n) by (unfold n; apply Z.div_pos; lia).
  unfold nearest.
  set (l := ilog2 a b).
  set (e := Z.max (l - 52) (-1074)).
  assert (He : e <= 0).
  { destruct (Z.le_gt_cases e 0) as [|Hpos]; auto. exfalso.
    assert (Hl : 53 <= l) by (unfold e in Hpos; lia).
    pose proof (ilog2_lower a b 0 Ha Hb ltac:(lia) ltac:(fold l; lia)) as Hlow.
    fold l in Hlow. rewrite Z.add_0_r, Z.pow_0_r in Hlow.
    assert (2 ^ 53 <= 2 ^ l) by (apply Z.pow_le_mono_r; lia).
    assert (g <= b) by (unfold g; nia).
    nia. }
  replace (Z.max e 0) with 0 by lia. replace (Z.max (- e) 0) with (- e) by lia.
  rewrite Z.pow_0_r, Z.mul_1_r.
  set (s := - e) in *. assert (Hs : 0 <= s) by (unfold s; lia).
  pose proof (pow2_pos s Hs) as Hps.
  set (m := round_half_even (a * 2 ^ s) b).
  destruct (round_half_even_bounds (a * 2 ^ s) b Hb) as [[Hlo Hhi] Hup].
  fold m in Hlo, Hhi, Hup.
  assert (Hf1 : n * 2 ^ s <= a * 2 ^ s / b) by (apply Z.div_le_lower_bound; nia).
  assert (Hf2 : a * 2 ^ s / b < (n + 1) * 2 ^ s) by (apply Z.div_lt_upper_bound; nia).
  assert (Hm : n * 2 ^ s <= m < (n + 1) * 2 ^ s).
  { split; [lia|].
    destruct (Z.lt_ge_cases m ((n + 1) * 2 ^ s)) as [|Hge]; auto. exfalso.
    assert (Hm1 : m = a * 2 ^ s / b + 1) by lia.
    specialize (Hup Hm1).
    pose proof (Z.div_mod (a * 2 ^ s) b ltac:(lia)) as Hdm.
    assert (Hstar : 2 * g * 2 ^ s <= b) by (unfold g; nia).
    destruct (Z.le_gt_cases (-1074) (l - 52)) as [Hnormal|Hsub].
    - assert (Hse : l + s = 52) by (unfold s, e; lia).
      pose proof (ilog2_lower a b s Ha Hb Hs ltac:(fold l; lia)) as Hlow.
      fold l in Hlow. rewrite Hse in Hlow.
      assert (H52 : 2 ^ 53 = 2 * 2 ^ 52) by reflexivity.
      nia.
    - assert (Hse : s = 1074) by (unfold s, e; lia).
      rewrite Hse in Hstar.
      assert (2 ^ 53 < 2 * 2 ^ 1074) by (vm_compute; reflexivity).
      assert (b <= a + g) by (unfold g; nia).
      nia. }
  assert (Hdiv : m / 2 ^ s = n).
  { symmetry. apply (Z.div_unique m (2 ^ s) n (m - n * 2 ^ s)); lia. }
  destruct (Z.leb_spec 0 e) as [He0|He0].
  - assert (He1 : e = 0) by lia. assert (Hs0 : s = 0) by (unfold s; lia).
    replace (2 ^ e) with 1 by (now rewrite He1).
    rewrite Hs0, Z.pow_0_r in *. rewrite Z.mul_1_r.
    assert (n + 1 < 2 ^ 53) by (assert (g <= b) by (unfold g; nia); nia).
    assert (2 ^ 53 < 2 ^ 1024) by (vm_compute; reflexivity).
    destruct (Z.leb_spec (2 ^ 1024) m); [lia|].
    unfold floor. rewrite Qfloor_Z. do 2 f_equal. lia.
  - unfold floor. do 2 f_equal.
    rewrite (Qfloor_comp _ _ (Qred_correct _)).
    unfold Qfloor. fold s. rewrite Z2Pos.id by lia. exact Hdiv.
Qed.

Lemma nearest_integer n :
  0 < n < 2 ^ 53 -> nearest n 1 = Finite (inject_Z n).
Proof.
  intros [Hn Hlt]. unfold nearest.
  assert (Hl : ilog2 n 1 = Z.log2 n).
  { unfold ilog2. change (Z.log2 1) with 0. rewrite Z.sub_0_r.
    pose proof (Z.log2_nonneg n). pose proof (Z.log2_spec n Hn).
    destruct (Z.leb_spec 0 (Z.log2 n)); [|lia].
    destruct (Z.leb_spec (2 ^ Z.log2 n * 1) n); lia. }
  rewrite Hl.
  assert (Hl53 : 0 <= Z.log2 n < 53).
  { split; [apply Z.log2_nonneg|]. apply Z.log2_lt_pow2; lia. }
  set (e := Z.max (Z.log2 n - 52) (-1074)).
  assert (He : e = Z.log2 n - 52) by (unfold e; lia).
  replace (Z.max e 0) with 0 by lia. replace (Z.max (- e) 0) with (- e) by lia.
  rewrite Z.pow_0_r, Z.mul_1_l.
  replace (n * 2 ^ (- e)) with (n * 2 ^ (- e) * 1) by lia.
  rewrite round_half_even_exact by lia.
  pose proof (pow2_pos (- e) ltac:(lia)) as Hp.
  destruct (Z.leb_spec 0 e) as [He0|He0].
  - assert (He1 : e = 0) by lia. rewrite He1. simpl Z.opp.
    rewrite !Z.pow_0_r, !Z.mul_1_r.
    assert (2 ^ 53 < 2 ^ 1024) by (vm_compute; reflexivity).
    destruct (Z.leb_spec (2 ^ 1024) n); [lia|reflexivity].
  - f_equal. apply Qred_inject_Z. unfold Qeq. simpl.
    rewrite Z2Pos.id by lia. lia.
Qed.

(** An integer that a double holds is not rounded. *)
Lemma round_double_integer z :
  - 2 ^ 53 < z < 2 ^ 53 -> round_double (inject_Z z) = Finite (inject_Z z).
Proof.
  intros Hz. unfold round_double. simpl Qnum. simpl Qden.
  destruct z as [|p|p]; auto.
  - now apply nearest_integer.
  - rewrite nearest_integer by lia. reflexivity.
Qed.

(** The rounding at work: a tenth; the ties above [2 ^ 53], which go to
    the even mantissa; the largest double and what is infinite; the
    smallest double and what is zero. *)
Lemma round_double_examples :
  round_double (1 # 10) = Finite (3602879701896397 # 36028797018963968) /\
  round_double (inject_Z (2 ^ 53 + 1)) = Finite (inject_Z (2 ^ 53)) /\
  round_double (inject_Z (2 ^ 53 + 3)) = Finite (inject_Z (2 ^ 53 + 4)) /\
  round_double (inject_Z (2 ^ 1024 - 2 ^ 970 - 1)) =
  Finite (inject_Z (2 ^ 1024 - 2 ^ 971)) /\
  round_double (inject_Z (2 ^ 1024 - 2 ^ 970)) = Infinity false /\
  round_double (- inject_Z (10 ^ 309)) = Infinity true /\
  round_double (Qmake 5 (Z.to_pos (10 ^ 324))) = Finite (Qmake 1 (Z.to_pos (2 ^ 1074))) /\
  round_double (Qmake 1 (Z.to_pos (2 ^ 1075))) = Finite 0.
Proof.
  repeat split; vm_compute; reflexivity.
Qed.

(** The white space at work: every white space and line terminator,
    written in UTF-8, is skipped, and U+200B, which is neither, is not. *)
Lemma skip_space_examples :
  skip_space
    (List.map ascii_of_nat
       [9; 10; 11; 12; 13; 32; 194; 160; 225; 154; 128; 226; 128; 128; 226; 128; 138;
        226; 128; 168; 226; 128; 169; 226; 128; 175; 226; 129; 159; 227; 128; 128;
        239; 187; 191; 52; 32]%nat)
  = List.map ascii_of_nat [52; 32]%nat /\
  skip_space (List.map ascii_of_nat [226; 128; 139; 52]%nat)
  = List.map ascii_of_nat [226; 128; 139; 52]%nat /\
  parseInt_string (string_of_list_ascii (List.map ascii_of_nat [194; 160; 52; 48]%nat))
  = Finite (inject_Z 40).
Proof.
  repeat split; vm_compute; reflexivity.
Qed.

Lemma pow10_15 : 2 * 10 ^ 15 < 2 ^ 53.
Proof. vm_compute. reflexivity. Qed.

(** A decimal of at most fifteen digits is rounded to a double with the
    same floor. *)
Lemma floor_round_decimal m k :
  0 <= m < 10 ^ 15 -> (k <= 15)%nat ->
  floor (round_double (scale m (0 - Z.of_nat k))) =
  Finite (inject_Z (m / 10 ^ Z.of_nat k)).
Proof.
  intros Hm Hk.
  assert (Hb : 0 < 10 ^ Z.of_nat k <= 10 ^ 15).
  { split; [apply Z.pow_pos_nonneg; lia|apply Z.pow_le_mono_r; lia]. }
  pose proof pow10_15 as H15.
  assert (Hround : floor (round_double (Qmake m (Z.to_pos (10 ^ Z.of_nat k)))) =
                   Finite (inject_Z (m / 10 ^ Z.of_nat k))).
  { unfold round_double. simpl Qnum. simpl Qden. rewrite to_pos_pow10.
    destruct m as [|p|p]; [now rewrite Z.div_0_l by lia| |lia].
    apply floor_nearest; try lia.
    set (b := 10 ^ Z.of_nat k) in *. set (a := Z.pos p) in *.
    pose proof (Z.div_mod a b ltac:(lia)). pose proof (Z.mod_pos_bound a b ltac:(lia)).
    nia. }
  unfold scale. destruct (0 <=? 0 - Z.of_nat k) eqn:E.
  - apply Z.leb_le in E. assert (k = 0%nat) by lia. subst k.
    simpl Z.of_nat in *. change (0 - 0) with 0. rewrite Z.pow_0_r in *.
    rewrite Z.mul_1_r. exact Hround.
  - replace (- (0 - Z.of_nat k)) with (Z.of_nat k) by lia. exact Hround.
Qed.

Lemma pow10_length (ds : list ascii) :
  (List.length ds <= 15)%nat -> 10 ^ Z.of_nat (List.length ds) <= 10 ^ 15.
Proof.
  intros H. apply Z.pow_le_mono_r; lia.
Qed.

(** *** Reading a decimal *)

Lemma parseFloat_decimal ip fp :
  digits ip -> forallb is_digit fp = true ->
  (List.length (ip ++ fp) <= 15)%nat ->
  floor (parseFloat_string (string_of_list_ascii (ip ++ "."%char :: fp))) =
  Finite (inject_Z (Qfloor (decimal ip fp))).
Proof.
  intros [Hne Hip] Hfp Hlen. unfold parseFloat_string.
  rewrite list_ascii_of_string_of_list_ascii.
  assert (Hall : forallb is_digit (ip ++ fp) = true)
    by (rewrite forallb_app, Hip, Hfp; reflexivity).
  pose proof (number_of_digits_range (ip ++ fp) Hall) as Hrange.
  pose proof (pow10_length (ip ++ fp) Hlen) as Hpow.
  assert (Hk : (List.length fp <= 15)%nat) by (rewrite length_app in Hlen; lia).
  destruct ip as [|c ip]; [congruence|]. clear Hne.
  simpl in Hip. apply andb_prop in Hip. destruct Hip as [Hc Hip].
  cbn [app]. rewrite (skip_space_digit c _ Hc), (sign_digit c _ Hc).
  cbn [starts_with list_ascii_of_string].
  rewrite (digit_not c "I") by (auto; reflexivity). cbn [andb].
  change (c :: ip ++ "."%char :: fp) with ((c :: ip) ++ "."%char :: fp).
  rewrite (span_app is_digit (c :: ip) ("."%char :: fp))
    by (simpl; try rewrite Hc; auto).
  pose proof (span_app is_digit fp [] Hfp I) as Hspan.
  rewrite app_nil_r in Hspan. rewrite Hspan.
  cbn [exponent signed].
  rewrite floor_round_decimal by (auto; cbn [app] in *; lia).
  do 2 f_equal. unfold decimal, Qfloor. now rewrite to_pos_pow10.
Qed.

Lemma parseInt_digits sd :
  digits sd -> (List.length sd <= 15)%nat ->
  parseInt_string (string_of_list_ascii sd) = Finite (inject_Z (number_of 10 digit sd)).
Proof.
  intros [Hne Hsd] Hlen. unfold parseInt_string.
  rewrite list_ascii_of_string_of_list_ascii.
  pose proof (number_of_digits_range sd Hsd) as Hrange.
  pose proof (pow10_length sd Hlen) as Hpow.
  pose proof pow10_15 as H15.
  destruct sd as [|c sd]; [congruence|]. clear Hne.
  pose proof Hsd as Hall.
  simpl in Hsd. apply andb_prop in Hsd. destruct Hsd as [Hc Hsd].
  rewrite (skip_space_digit c _ Hc), (sign_digit c _ Hc).
  pose proof (span_app is_digit (c :: sd) [] Hall I) as Hspan.
  rewrite app_nil_r in Hspan.
  assert (Hplain : match span is_digit (c :: sd) with
                   | ([], _) => NaN
                   | (ds, _) =>
                       round_double (inject_Z (signed false (number_of 10 digit ds)))
                   end = Finite (inject_Z (number_of 10 digit (c :: sd)))).
  { rewrite Hspan. cbn [signed]. apply round_double_integer. lia. }
  destruct sd as [|x sd].
  - destruct c as [[] [] [] [] [] [] [] []]; exact Hplain.
  - simpl in Hsd. apply andb_prop in Hsd. destruct Hsd as [Hx _].
    assert (Hx1 : Ascii.eqb x "x" = false)
      by (rewrite Ascii.eqb_sym; apply digit_not; auto).
    assert (Hx2 : Ascii.eqb x "X" = false)
      by (rewrite Ascii.eqb_sym; apply digit_not; auto).
    destruct c as [[] [] [] [] [] [] [] []]; try exact Hplain.
    rewrite Hx1, Hx2. exact Hplain.
Qed.

Lemma getVideoInfo_data JSON_parse Number_toString Buffer_toString chunks output rest :
  getVideoInfo JSON_parse Number_toString Buffer_toString output
               (List.map Data chunks ++ rest) =
  getVideoInfo JSON_parse Number_toString Buffer_toString
               (fold_left (on_data Buffer_toString) chunks output) rest.
Proof.
  revert output. induction chunks as [|chunk chunks IH]; intros output; simpl; auto.
Qed.

End ProbeFacts.

(** C9.  When [ffprobe] is closed with a code other than 0 the probe fails
    ("FFprobe failed"), and when it is closed with code 0 and [JSON.parse]
    throws on what it printed the probe fails ("Failed to parse video
    info").  The probe fails in these cases, when what was parsed, or its
    [format], is [undefined] or [null], and when the [duration] or the
    [size] cannot be made a string, and in no other case.  When
    [ffprobe] is closed with code 0 and printed a [format] whose
    [duration] is the decimal [ip.fp], of at most fifteen digits, and
    whose [size] is the decimal [sd], of at most fifteen digits, the probe
    returns the floor of [ip.fp], which is [ip], and [sd]. *)
Theorem getVideoInfo_outcome
        (JSON_parse : string -> option VideoInfo.Value)
        (Number_toString : VideoInfo.Number -> string)
        (Buffer_toString : list Byte.byte -> string)
        (chunks : list (list Byte.byte)) :
  let output := output_of Buffer_toString chunks in
  let probe code :=
    VideoInfo.getVideoInfo JSON_parse Number_toString Buffer_toString ""
      (List.map VideoInfo.Data chunks ++ [VideoInfo.Close code]) in
  (forall code, code <> Some 0 ->
                probe code = Some (VideoInfo.Reject "FFprobe failed")) /\
  (JSON_parse output = None ->
   probe (Some 0) = Some (VideoInfo.Reject "Failed to parse video info")) /\
  (forall code,
      VideoInfo.ProbeFailed (probe code) <->
      code <> Some 0 \/ JSON_parse output = None \/
      exists info,
        JSON_parse output = Some info /\
        (VideoInfo.nullish info \/
         exists format,
           VideoInfo.member info "format" = Some format /\
           (VideoInfo.nullish format \/
            VideoInfo.unprintable Number_toString format))) /\
  (forall info format ip fp sd,
      JSON_parse output = Some info ->
      VideoInfo.member info "format" = Some format ->
      VideoInfo.member format "duration" =
      Some (VideoInfo.Str (string_of_list_ascii (ip ++ "."%char :: fp))) ->
      VideoInfo.member format "size" = Some (VideoInfo.Str (string_of_list_ascii sd)) ->
      VideoInfo.digits ip -> forallb VideoInfo.is_digit fp = true ->
      VideoInfo.digits sd ->
      (List.length (ip ++ fp) <= 15)%nat -> (List.length sd <= 15)%nat ->
      probe (Some 0) =
      Some (VideoInfo.Resolve
              (VideoInfo.Finite (inject_Z (Qfloor (VideoInfo.decimal ip fp))))
              (VideoInfo.Finite (inject_Z (VideoInfo.number_of 10 VideoInfo.digit sd)))) /\
      Qfloor (VideoInfo.decimal ip fp) = VideoInfo.number_of 10 VideoInfo.digit ip).
Proof.
  intros output probe.
  assert (Hprobe : forall code,
             probe code =
             Some (VideoInfo.on_close JSON_parse Number_toString output code)).
  { intros code. unfold probe. now rewrite getVideoInfo_data. }
  assert (Hcode : forall code, code <> Some 0 ->
             probe code = Some (VideoInfo.Reject "FFprobe failed")).
  { intros code Hne. rewrite Hprobe.
    destruct code as [[|c|c]|]; simpl; congruence. }
  assert (Hparse : JSON_parse output = None ->
             probe (Some 0) = Some (VideoInfo.Reject "Failed to parse video info")).
  { intros Hnone. rewrite Hprobe. simpl. now rewrite Hnone. }
  split; [exact Hcode|split; [exact Hparse|split]].
  - intros code.
    assert (Hzero : code = Some 0 \/ code <> Some 0)
      by (destruct code as [[|c|c]|]; auto; right; discriminate).
    destruct Hzero as [->|Hne].
    2:{ split; [auto|]. intros _. eexists. now apply Hcode. }
    rewrite Hprobe. cbn [VideoInfo.on_close].
    destruct (JSON_parse output) as [info|] eqn:Hinfo.
    2:{ split; [auto|]. intros _. eexists. reflexivity. }
    assert (Hfailed : forall message,
               VideoInfo.ProbeFailed (Some (VideoInfo.Reject message)))
      by (intros message; eexists; reflexivity).
    assert (Hresolved : forall duration size,
               ~ VideoInfo.ProbeFailed (Some (VideoInfo.Resolve duration size)))
      by (intros duration size [message H]; discriminate).
    set (answer format :=
           match VideoInfo.member format "duration",
                 VideoInfo.member format "size" with
           | Some duration, Some size =>
               match VideoInfo.parseFloat Number_toString duration,
                     VideoInfo.parseInt Number_toString size with
               | Some d, Some s => VideoInfo.Resolve (VideoInfo.floor d) s
               | _, _ => VideoInfo.Reject "Failed to parse video info"
               end
           | _, _ => VideoInfo.Reject "Failed to parse video info"
           end).
    assert (Hformat : forall format,
               VideoInfo.ProbeFailed (Some (answer format)) <->
               VideoInfo.nullish format \/ VideoInfo.unprintable Number_toString format).
    { intros format. unfold answer, VideoInfo.unprintable.
      destruct (VideoInfo.member format "duration") as [duration|] eqn:Hd.
      2:{ split; [|auto]. intros _. left.
          destruct format; simpl in *; auto; discriminate. }
      destruct (VideoInfo.member format "size") as [size|] eqn:Hs.
      2:{ split; [|auto]. intros _. left.
          destruct format; simpl in *; auto; discriminate. }
      assert (Hnot : ~ VideoInfo.nullish format)
        by (destruct format; simpl in *; auto; discriminate).
      unfold VideoInfo.parseFloat, VideoInfo.parseInt.
      destruct (VideoInfo.ToString Number_toString duration) as [d|] eqn:Ed;
        destruct (VideoInfo.ToString Number_toString size) as [z|] eqn:Ez;
        cbn [option_map]; split; auto.
      - intros H. now apply Hresolved in H.
      - intros [Hn|(duration' & size' & [= <-] & [= <-] & [H|H])];
          [contradiction|congruence|congruence].
      - intros _. right. exists duration, size. auto.
      - intros _. right. exists duration, size. auto.
      - intros _. right. exists duration, size. auto. }
    destruct (VideoInfo.member info "format") as [format|] eqn:Hmember.
    + fold (answer format). rewrite (Hformat format). split.
      * intros Hn. right. right. exists info. split; auto. right. exists format. auto.
      * intros [Hne|[Hnone|(info' & [= <-] & [Hn|(format' & Hf & Hn)])]];
          try congruence.
        destruct info; simpl in *; try contradiction; discriminate.
    + split; [|auto]. intros _. right. right. exists info. split; auto. left.
      destruct info; simpl in *; auto; discriminate.
  - intros info format ip fp sd Hinfo Hformat Hduration Hsize Hip Hfp Hsd Hlen Hlens.
    split; [|now apply Qfloor_decimal].
    rewrite Hprobe. simpl. rewrite Hinfo, Hformat, Hduration, Hsize.
    unfold VideoInfo.parseFloat, VideoInfo.parseInt.
    cbn [VideoInfo.ToString option_map].
    now rewrite parseFloat_decimal, parseInt_digits.
Qed.

Lemma getVideoInfo_outcome_witness :
  VideoInfo.getVideoInfo sample_parse (fun _ => "") decode ""
    (List.map VideoInfo.Data sample_chunks ++ [VideoInfo.Close (Some 0)])
  = Some (VideoInfo.Resolve (VideoInfo.Finite (inject_Z 12))
                            (VideoInfo.Finite (inject_Z 1048576))).
Proof.
  destruct (getVideoInfo_outcome sample_parse (fun _ => "") decode sample_chunks)
    as (_ & _ & _ & H).
  apply (H sample_info
           (VideoInfo.Object [("duration", VideoInfo.Str "12.750000");
                              ("size", VideoInfo.Str "1048576")])
           (list_ascii_of_string "12") (list_ascii_of_string "750000")
           (list_ascii_of_string "1048576")).
  - reflexivity.
  - reflexivity.
  - reflexivity.
  - reflexivity.
  - split; [discriminate|reflexivity].
  - reflexivity.
  - split; [discriminate|reflexivity].
  - simpl. lia.
  - simpl. lia.
Defined.

(** C9, on the code.  A duration of 0.999999999999999999999 seconds, whose
    floor is 0, is returned as 1, and a size of 9007199254740993 bytes as
    9007199254740992: both are read into doubles.  And output that
    [JSON.parse] reads and whose [format] has no number does not fail the
    probe: it returns NaN twice. *)
Theorem probe_rounds_and_returns_NaN :
  VideoInfo.getVideoInfo (fun _ => Some long_info) write_number decode ""
    [VideoInfo.Data
       (list_byte_of_string
          "{ 'format': { 'duration': '0.999999999999999999999', 'size': '9007199254740993' } }");
     VideoInfo.Close (Some 0)]
  = Some (VideoInfo.Resolve (VideoInfo.Finite (inject_Z 1))
                            (VideoInfo.Finite (inject_Z 9007199254740992))) /\
  Qfloor (VideoInfo.decimal (list_ascii_of_string "0")
                            (list_ascii_of_string "999999999999999999999")) = 0 /\
  VideoInfo.getVideoInfo (fun _ => Some empty_info) write_number decode ""
    [VideoInfo.Data (list_byte_of_string "{ 'format': {} }"); VideoInfo.Close (Some 0)]
  = Some (VideoInfo.Resolve VideoInfo.NaN VideoInfo.NaN) /\
  ~ VideoInfo.ProbeFailed (Some (VideoInfo.Resolve VideoInfo.NaN VideoInfo.NaN)).
Proof.
  repeat split; try (vm_compute; reflexivity).
  intros [message H]. discriminate.
Qed.

(** When the process does end after SIGTERM, the promise of [stopStream]
    is resolved by the ['close'] of the process and not before, and the
    handle is dropped then. *)
Lemma stopStream_resolves_on_close :
  option_map (fun s => (sent s 0, FFmpeg.settled s 1, FFmpeg.streamingProcess s))
             (FFmpeg.run FFmpeg.init
                [FFmpeg.CallStart some_options true; FFmpeg.Fire 0;
                 FFmpeg.CallStop; FFmpeg.ProcessExits 0])
  = Some ([FFmpeg.SIGTERM], None, Some 0%nat) /\
  option_map (fun s => (sent s 0, FFmpeg.settled s 1, FFmpeg.streamingProcess s,
                        FFmpeg.isStreaming s))
             (FFmpeg.run FFmpeg.init
                [FFmpeg.CallStart some_options true; FFmpeg.Fire 0;
                 FFmpeg.CallStop; FFmpeg.ProcessExits 0; FFmpeg.EmitClose 0])
  = Some ([FFmpeg.SIGTERM], Some (FFmpeg.Resolved true), None, false).
Proof.
  split; vm_compute; reflexivity.
Qed.

(** * More of the storage *)

(** ** Maps, again *)

Section JsMapMore.
Context {V : Type}.
Implicit Types (m : JsMap.t V) (k : string) (v : V).

Lemma delete_filter m k :
  fst (JsMap.delete m k) = filter (fun kv => negb (String.eqb (fst kv) k)) m.
Proof.
  induction m as [|[k' v'] m IH]; simpl; auto.
  destruct (JsMap.delete m k) as [r b]. simpl in IH.
  destruct (String.eqb k' k); simpl; congruence.
Qed.

Lemma delete_answer m k : snd (JsMap.delete m k) = true <-> In k (JsMap.keys m).
Proof.
  unfold JsMap.keys.
  induction m as [|[k' v'] m IH]; simpl; [split; [discriminate|tauto]|].
  destruct (JsMap.delete m k) as [r b]. simpl in IH.
  destruct (String.eqb k' k) eqn:E; simpl.
  - apply String.eqb_eq in E. tauto.
  - apply String.eqb_neq in E. rewrite IH. tauto.
Qed.

Lemma delete_absent m k : ~ In k (JsMap.keys m) -> fst (JsMap.delete m k) = m.
Proof.
  unfold JsMap.keys. rewrite delete_filter.
  induction m as [|[k' v'] m IH]; simpl; auto.
  intros H. destruct (String.eqb k' k) eqn:E; simpl.
  - apply String.eqb_eq in E. tauto.
  - f_equal. apply IH. tauto.
Qed.

Lemma get_keys m k : JsMap.get m k <> None <-> In k (JsMap.keys m).
Proof.
  unfold JsMap.keys.
  induction m as [|[k' v'] m IH]; simpl; [tauto|].
  destruct (String.eqb k' k) eqn:E.
  - apply String.eqb_eq in E. split; [auto|discriminate].
  - apply String.eqb_neq in E. rewrite IH. tauto.
Qed.

Lemma keys_set m k v :
  JsMap.keys (JsMap.set m k v) =
  if in_dec string_dec k (JsMap.keys m) then JsMap.keys m else JsMap.keys m ++ [k].
Proof.
  destruct (in_dec string_dec k (JsMap.keys m)).
  - now apply keys_set_present.
  - now apply keys_set_absent.
Qed.

Lemma values_set_absent m k v :
  ~ In k (JsMap.keys m) -> JsMap.values (JsMap.set m k v) = JsMap.values m ++ [v].
Proof.
  unfold JsMap.keys, JsMap.values.
  induction m as [|[k' v'] m IH]; simpl; auto.
  intros H. destruct (String.eqb k' k) eqn:E; simpl.
  - apply String.eqb_eq in E. tauto.
  - f_equal. apply IH. tauto.
Qed.

(** Without the hypothesis on the keys: a binding of the new map is the new
    one or an old one. *)
Lemma In_set_weak m k v k' v' :
  In (k', v') (JsMap.set m k v) -> (k' = k /\ v' = v) \/ In (k', v') m.
Proof.
  induction m as [|[k0 v0] m IH]; simpl.
  - intros [[= <- <-]|[]]. auto.
  - destruct (String.eqb k0 k) eqn:E; simpl.
    + apply String.eqb_eq in E. subst k0. intros [[= <- <-]|H]; auto.
    + intros [H|H]; auto. destruct (IH H) as [?|?]; auto.
Qed.

(** [set] on a key that is bound changes nothing that the old value and
    the new one agree on. *)
Lemma values_set_image {B : Type} (g : V -> B) m k v v0 :
  JsMap.get m k = Some v0 -> g v = g v0 ->
  List.map g (JsMap.values (JsMap.set m k v)) = List.map g (JsMap.values m).
Proof.
  unfold JsMap.values. intros Hget Hg.
  induction m as [|[k' v'] m IH]; simpl in *; [discriminate|].
  destruct (String.eqb k' k) eqn:E; simpl.
  - injection Hget as ->. now rewrite Hg.
  - f_equal. now apply IH.
Qed.

End JsMapMore.

(** ** The sort, again *)

Section SortOrder.
Context {A : Type} (cmp : A -> A -> Z) (key : A -> Z).
Hypothesis cmp_key : forall a b, cmp a b = key a - key b.

(** An element that no element of the array goes after stays last. *)
Lemma sort_insert_last y s x :
  key y <= key x -> sort_insert cmp y (s ++ [x]) = sort_insert cmp y s ++ [x].
Proof.
  intros Hle. induction s as [|z s IH]; simpl.
  - rewrite cmp_key. destruct (Z.leb_spec (key y - key x) 0); [reflexivity|lia].
  - destruct (cmp y z <=? 0); simpl; congruence.
Qed.

Lemma array_sort_last l x :
  (forall y, In y l -> key y <= key x) ->
  array_sort cmp (l ++ [x]) = array_sort cmp l ++ [x].
Proof.
  induction l as [|y l IH]; intros H; simpl; auto.
  rewrite IH by (intros; apply H; now right).
  apply sort_insert_last. apply H. now left.
Qed.

Lemma sort_insert_head x t :
  match t with [] => True | z :: _ => key x <= key z end ->
  sort_insert cmp x t = x :: t.
Proof.
  destruct t as [|z t]; simpl; auto.
  intros H. rewrite cmp_key. destruct (Z.leb_spec (key x - key z) 0); [reflexivity|lia].
Qed.

(** Filtering commutes with the sort. *)
Lemma filter_sort_insert p x s :
  StronglySorted (fun a b => key a <= key b) s ->
  filter p (sort_insert cmp x s) =
  if p x then sort_insert cmp x (filter p s) else filter p s.
Proof.
  induction 1 as [|y s Hs IH Hall]; simpl.
  - now destruct (p x).
  - rewrite cmp_key. destruct (Z.leb_spec (key x - key y) 0) as [Hle|Hgt]; simpl.
    + destruct (p x) eqn:Ex; [|reflexivity].
      destruct (p y) eqn:Ey.
      * simpl. rewrite cmp_key.
        destruct (Z.leb_spec (key x - key y) 0); [reflexivity|lia].
      * symmetry. apply sort_insert_head.
        destruct (filter p s) as [|z t] eqn:Ef; auto.
        assert (Hz : In z (filter p s)) by (rewrite Ef; now left).
        apply filter_In in Hz. destruct Hz as [Hz _].
        rewrite Forall_forall in Hall. specialize (Hall z Hz). lia.
    + rewrite IH. destruct (p y) eqn:Ey; destruct (p x) eqn:Ex; simpl; auto.
      rewrite cmp_key. destruct (Z.leb_spec (key x - key y) 0); [lia|reflexivity].
Qed.

Lemma filter_array_sort p l :
  filter p (array_sort cmp l) = array_sort cmp (filter p l).
Proof.
  induction l as [|x l IH]; simpl; auto.
  rewrite filter_sort_insert by (apply (array_sort_sorted cmp key cmp_key)).
  rewrite IH. now destruct (p x).
Qed.

(** The sort is stable. *)
Lemma before_insert (a b x : A) s1 s2 :
  before a b (s1 ++ s2) -> before a b (s1 ++ x :: s2).
Proof.
  induction s1 as [|y s1 IH]; simpl; intros H.
  - now apply before_later.
  - inversion H as [l Hin|z l Hb]; subst.
    + apply before_here. apply in_app_or in Hin. apply in_or_app.
      destruct Hin; [left|right; right]; assumption.
    + apply before_later. now apply IH.
Qed.

Lemma sort_insert_split x s :
  exists s1 s2, s = s1 ++ s2 /\ sort_insert cmp x s = s1 ++ x :: s2.
Proof.
  induction s as [|y s (s1 & s2 & -> & IH)]; simpl.
  - now exists [], [].
  - destruct (cmp x y <=? 0).
    + now exists [], (y :: s1 ++ s2).
    + exists (y :: s1), s2. simpl. now rewrite IH.
Qed.

Lemma sort_insert_keeps_before a b x s :
  before a b s -> before a b (sort_insert cmp x s).
Proof.
  intros H. destruct (sort_insert_split x s) as (s1 & s2 & -> & ->).
  now apply before_insert.
Qed.

Lemma sort_insert_goes_before a b s :
  In b s -> key a <= key b -> before a b (sort_insert cmp a s).
Proof.
  intros Hin Hle. induction s as [|y s IH]; simpl; [contradiction|].
  rewrite cmp_key. destruct (Z.leb_spec (key a - key y) 0) as [H|H].
  - now apply before_here.
  - apply before_later. apply IH. destruct Hin as [->|Hin]; [lia|assumption].
Qed.

Lemma array_sort_stable a b l :
  before a b l -> key a <= key b -> before a b (array_sort cmp l).
Proof.
  induction 1 as [l Hin|x l Hb IH]; intros Hle; simpl.
  - apply sort_insert_goes_before; auto. now apply array_sort_In.
  - apply sort_insert_keeps_before. now apply IH.
Qed.

End SortOrder.

(** ** The queue, again *)

Lemma attach_videos_app vs l l' :
  MemStorage.attach_videos vs (l ++ l') =
  MemStorage.attach_videos vs l ++ MemStorage.attach_videos vs l'.
Proof.
  induction l as [|x l IH]; simpl; auto.
  destruct (JsMap.get vs (q_videoId x)); simpl; congruence.
Qed.

Lemma attach_videos_filter vs p l :
  MemStorage.attach_videos vs (filter p l) =
  filter (fun e => p (fst e)) (MemStorage.attach_videos vs l).
Proof.
  induction l as [|x l IH]; simpl; auto.
  destruct (p x) eqn:Ep; simpl;
    destruct (JsMap.get vs (q_videoId x)); simpl; rewrite ?Ep; congruence.
Qed.

Lemma attach_videos_visible vs l :
  MemStorage.attach_videos vs (filter (has_video vs) l) = MemStorage.attach_videos vs l.
Proof.
  induction l as [|x l IH]; simpl; auto. unfold has_video at 1.
  destruct (JsMap.get vs (q_videoId x)) eqn:E; simpl; rewrite ?E; congruence.
Qed.

Lemma attach_videos_unposition vs l :
  List.map unposition (MemStorage.attach_videos vs l) =
  MemStorage.attach_videos vs (List.map (fun item => moved item 0) l).
Proof.
  induction l as [|x l IH]; simpl; auto.
  change (q_videoId (moved x 0)) with (q_videoId x).
  destruct (JsMap.get vs (q_videoId x)); simpl; now rewrite IH.
Qed.

Lemma attach_videos_before vs a b va vb l :
  before a b l ->
  JsMap.get vs (q_videoId a) = Some va -> JsMap.get vs (q_videoId b) = Some vb ->
  before (a, va) (b, vb) (MemStorage.attach_videos vs l).
Proof.
  intros H Ha Hb. induction H as [l Hin|x l H IH]; simpl.
  - rewrite Ha. apply before_here. apply attach_videos_In. auto.
  - destruct (JsMap.get vs (q_videoId x)); auto. now apply before_later.
Qed.

Lemma by_position_key a b :
  MemStorage.by_position a b = q_position a - q_position b.
Proof. reflexivity. Qed.

Lemma with_queue_same st : MemStorage.with_queue st (MemStorage.queue st) = st.
Proof. now destruct st. Qed.

Lemma values_delete_queue st id :
  queue_ok st ->
  JsMap.values (fst (JsMap.delete (MemStorage.queue st) id)) =
  filter (fun item => negb (String.eqb (q_id item) id)) (JsMap.values (MemStorage.queue st)).
Proof.
  unfold queue_ok, JsMap.values. rewrite delete_filter.
  induction (MemStorage.queue st) as [|[k item] m IH]; intros Hok; simpl; auto.
  rewrite (Hok k item) by (now left). simpl.
  destruct (String.eqb k id); simpl; rewrite IH; auto;
    intros k' item' H; apply Hok; now right.
Qed.

(** The entries of the queue stay under their identifiers. *)
Lemma queue_ok_preserved st :
  queue_ok st ->
  (forall insertItem uuid now,
      queue_ok (fst (MemStorage.addToQueue st insertItem uuid now))) /\
  (forall id, queue_ok (fst (MemStorage.removeFromQueue st id))) /\
  (forall id newPosition, queue_ok (fst (MemStorage.reorderQueue st id newPosition))) /\
  queue_ok (fst (MemStorage.clearQueue st)) /\
  (forall id, queue_ok (fst (MemStorage.deleteVideo st id))).
Proof.
  intros Hok. repeat apply conj.
  - intros insertItem uuid now k item H. simpl in H.
    apply In_set_weak in H. destruct H as [[-> ->]|H]; auto.
  - intros id k item. unfold MemStorage.removeFromQueue.
    pose proof (delete_filter (MemStorage.queue st) id) as Hd.
    destruct (JsMap.delete (MemStorage.queue st) id) as [m b]. simpl in *. subst m.
    intros H. apply filter_In in H. apply Hok. tauto.
  - intros id newPosition k item. unfold MemStorage.reorderQueue.
    destruct (JsMap.get (MemStorage.queue st) id) as [found|] eqn:E; simpl; [|apply Hok].
    intros H. apply In_set_weak in H. destruct H as [[-> ->]|H]; auto.
    simpl. apply Hok. now apply get_In.
  - intros k item [].
  - intros id. unfold queue_ok. rewrite deleteVideo_queue. exact Hok.
Qed.

(** Removing an entry takes it, and nothing else, out of the read, and
    leaves the others in their order; the answer says whether the entry
    was there, and a removal of an unknown entry changes nothing. *)
Theorem removeFromQueue_read (st : MemStorage.t) (id : string)
        (Hok : queue_ok st) :
  MemStorage.getQueue (fst (MemStorage.removeFromQueue st id)) =
  filter (fun e => negb (has_id id e)) (MemStorage.getQueue st) /\
  (snd (MemStorage.removeFromQueue st id) = true <->
   In id (JsMap.keys (MemStorage.queue st))) /\
  (~ In id (JsMap.keys (MemStorage.queue st)) ->
   fst (MemStorage.removeFromQueue st id) = st).
Proof.
  unfold MemStorage.removeFromQueue.
  pose proof (values_delete_queue st id Hok) as Hv.
  pose proof (delete_answer (MemStorage.queue st) id) as Ha.
  pose proof (delete_absent (MemStorage.queue st) id) as Hn.
  destruct (JsMap.delete (MemStorage.queue st) id) as [m b]. simpl in *.
  repeat split; try tauto.
  - unfold MemStorage.getQueue. simpl. rewrite Hv.
    rewrite <- (filter_array_sort MemStorage.by_position q_position by_position_key).
    now rewrite attach_videos_filter.
  - intros H. rewrite (Hn H). apply with_queue_same.
Qed.

Lemma removeFromQueue_read_witness :
  List.map (fun e => q_id (fst e))
           (MemStorage.getQueue (fst (MemStorage.removeFromQueue (queue_of_two 0 1) "a")))
  = ["b"].
Proof.
  destruct (removeFromQueue_read (queue_of_two 0 1) "a") as [H _].
  - intros k item [[= <- <-]|[[= <- <-]|[]]]; reflexivity.
  - rewrite H. reflexivity.
Defined.

(** An entry added under a new identifier, for a video of the catalog, at
    a position that no entry of the queue exceeds, is read last, after the
    read as it was. *)
Theorem addToQueue_at_tail (st : MemStorage.t) (insertItem : InsertStreamingQueue)
        (uuid : string) (now : Date) (video : Video)
        (Hfresh : ~ In uuid (JsMap.keys (MemStorage.queue st)))
        (Hvideo : MemStorage.getVideo st (iq_videoId insertItem) = Some video)
        (Hlast : forall item, In item (JsMap.values (MemStorage.queue st)) ->
                              q_position item <= iq_position insertItem) :
  MemStorage.getQueue (fst (MemStorage.addToQueue st insertItem uuid now)) =
  MemStorage.getQueue st ++ [(snd (MemStorage.addToQueue st insertItem uuid now), video)].
Proof.
  unfold MemStorage.getQueue. simpl.
  rewrite (values_set_absent _ _ _ Hfresh).
  rewrite (array_sort_last MemStorage.by_position q_position by_position_key)
    by (intros y Hy; simpl; now apply Hlast).
  rewrite attach_videos_app. simpl.
  unfold MemStorage.getVideo in Hvideo. now rewrite Hvideo.
Qed.

Lemma addToQueue_at_tail_witness :
  List.map (fun e => q_id (fst e))
           (MemStorage.getQueue
              (fst (MemStorage.addToQueue (queue_of_two 0 1)
                      (mkInsertQueue "v1" 1 None) "c" 5)))
  = ["a"; "b"; "c"].
Proof.
  rewrite (addToQueue_at_tail (queue_of_two 0 1) (mkInsertQueue "v1" 1 None) "c" 5
             (mkVideo "v1" "one.mp4" "One" 1000 (Some 60) "ready" 1)).
  - reflexivity.
  - simpl. intuition discriminate.
  - reflexivity.
  - simpl. intros item [<-|[<-|[]]]; simpl; lia.
Defined.

(** An entry added under a new identifier for a video that is not in the
    catalog leaves the read as it was, whatever its position. *)
Theorem addToQueue_unknown_video (st : MemStorage.t) (insertItem : InsertStreamingQueue)
        (uuid : string) (now : Date)
        (Hfresh : ~ In uuid (JsMap.keys (MemStorage.queue st)))
        (Hvideo : MemStorage.getVideo st (iq_videoId insertItem) = None) :
  MemStorage.getQueue (fst (MemStorage.addToQueue st insertItem uuid now)) =
  MemStorage.getQueue st.
Proof.
  unfold MemStorage.getQueue. simpl.
  rewrite (values_set_absent _ _ _ Hfresh).
  rewrite <- (attach_videos_visible _ (array_sort _ (_ ++ _))).
  rewrite (filter_array_sort MemStorage.by_position q_position by_position_key).
  rewrite filter_app. simpl. unfold has_video at 2. simpl.
  unfold MemStorage.getVideo in Hvideo. rewrite Hvideo. rewrite app_nil_r.
  rewrite <- (filter_array_sort MemStorage.by_position q_position by_position_key).
  apply attach_videos_visible.
Qed.

Lemma addToQueue_unknown_video_witness :
  MemStorage.getQueue
    (fst (MemStorage.addToQueue (queue_of_two 0 1) (mkInsertQueue "ghost" 0 None) "c" 5))
  = MemStorage.getQueue (queue_of_two 0 1).
Proof.
  apply addToQueue_unknown_video.
  - simpl. intuition discriminate.
  - reflexivity.
Defined.

(** Reordering an unknown entry answers [false] and changes nothing;
    reordering a known one keeps the keys of the queue map in their order
    and keeps every entry of the read, with its video: only positions, and
    with them the order of the read, can differ. *)
Theorem reorderQueue_keeps_entries (st : MemStorage.t) (id : string) (newPosition : Z) :
  (JsMap.get (MemStorage.queue st) id = None ->
   MemStorage.reorderQueue st id newPosition = (st, false)) /\
  (JsMap.get (MemStorage.queue st) id <> None ->
   snd (MemStorage.reorderQueue st id newPosition) = true /\
   JsMap.keys (MemStorage.queue (fst (MemStorage.reorderQueue st id newPosition))) =
   JsMap.keys (MemStorage.queue st) /\
   Permutation
     (List.map unposition
               (MemStorage.getQueue (fst (MemStorage.reorderQueue st id newPosition))))
     (List.map unposition (MemStorage.getQueue st))).
Proof.
  unfold MemStorage.reorderQueue.
  destruct (JsMap.get (MemStorage.queue st) id) as [item|] eqn:Hget.
  - split; [discriminate|]. intros _. simpl. repeat split.
    + apply keys_set_present. apply get_keys. congruence.
    + unfold MemStorage.getQueue. simpl.
      transitivity (List.map unposition
                      (MemStorage.attach_videos (MemStorage.videos st)
                         (JsMap.values (MemStorage.queue st)))).
      * rewrite (Permutation_map unposition
                   (attach_videos_perm _ _ _ (array_sort_perm MemStorage.by_position _))).
        rewrite !attach_videos_unposition.
        now rewrite (values_set_image (fun item => moved item 0) _ _ _ item Hget).
      * apply Permutation_map, attach_videos_perm. symmetry. apply array_sort_perm.
  - split; [reflexivity|congruence].
Qed.

Lemma reorderQueue_keeps_entries_witness :
  Permutation
    (List.map unposition
              (MemStorage.getQueue (fst (MemStorage.reorderQueue (queue_of_two 0 1) "b" (-1)))))
    (List.map unposition (MemStorage.getQueue (queue_of_two 0 1))).
Proof.
  destruct (reorderQueue_keeps_entries (queue_of_two 0 1) "b" (-1)) as [_ H].
  apply H. discriminate.
Defined.

(** The read is stable: of two entries of the queue map with videos in the
    catalog, the one inserted first is read first unless its position is the
    greater one; so entries at the same position are read in the order they
    were inserted in. *)
Theorem getQueue_stable (st : MemStorage.t) (a b : StreamingQueue) (va vb : Video)
        (Horder : before a b (JsMap.values (MemStorage.queue st)))
        (Hle : q_position a <= q_position b)
        (Ha : MemStorage.getVideo st (q_videoId a) = Some va)
        (Hb : MemStorage.getVideo st (q_videoId b) = Some vb) :
  before (a, va) (b, vb) (MemStorage.getQueue st).
Proof.
  unfold MemStorage.getQueue. apply attach_videos_before; auto.
  now apply (array_sort_stable MemStorage.by_position q_position by_position_key).
Qed.

Lemma getQueue_stable_witness :
  before (mkQueue "a" "v1" 3 None 3, mkVideo "v1" "one.mp4" "One" 1000 (Some 60) "ready" 1)
         (mkQueue "b" "v2" 3 None 4, mkVideo "v2" "two.mp4" "Two" 2000 (Some 90) "ready" 2)
         (MemStorage.getQueue (queue_of_two 3 3)).
Proof.
  apply getQueue_stable.
  - apply before_here. simpl. auto.
  - simpl. lia.
  - reflexivity.
  - reflexivity.
Defined.

(** ** Videos *)

Lemma with_videos_same st : MemStorage.with_videos st (MemStorage.videos st) = st.
Proof. now destruct st. Qed.

(** A video that is created is found under its identifier, with status
    [uploaded] when none was given, and no other identifier is affected;
    deleting answers whether the video was there, after it the video is not
    found and every other video is found as before, and deleting an unknown
    video changes nothing. *)
Theorem videos_create_delete (st : MemStorage.t) :
  (forall insertVideo uuid now,
      let created := MemStorage.createVideo st insertVideo uuid now in
      MemStorage.getVideo (fst created) uuid = Some (snd created) /\
      v_id (snd created) = uuid /\
      v_status (snd created) = or_else (iv_status insertVideo) "uploaded" /\
      forall id, id <> uuid ->
                 MemStorage.getVideo (fst created) id = MemStorage.getVideo st id) /\
  (forall id,
      let deleted := MemStorage.deleteVideo st id in
      (snd deleted = true <-> MemStorage.getVideo st id <> None) /\
      MemStorage.getVideo (fst deleted) id = None /\
      (forall id', id' <> id ->
                   MemStorage.getVideo (fst deleted) id' = MemStorage.getVideo st id') /\
      (MemStorage.getVideo st id = None -> fst deleted = st)).
Proof.
  split.
  - intros insertVideo uuid now. simpl. unfold MemStorage.getVideo. simpl.
    repeat split.
    + apply get_set_same.
    + intros id Hne. now apply get_set_other.
  - intros id. unfold MemStorage.deleteVideo, MemStorage.getVideo.
    pose proof (delete_answer (MemStorage.videos st) id) as Ha.
    pose proof (get_delete_same (MemStorage.videos st) id) as Hs.
    pose proof (fun id' => get_delete_other (MemStorage.videos st) id id') as Ho.
    pose proof (delete_absent (MemStorage.videos st) id) as Hn.
    pose proof (get_keys (MemStorage.videos st) id) as Hk.
    destruct (JsMap.delete (MemStorage.videos st) id) as [m b]. simpl in *.
    repeat split; auto; try tauto.
    intros Hnone. rewrite Hn; [apply with_videos_same|]. rewrite <- Hk. congruence.
Qed.

Lemma videos_create_delete_witness :
  fst (MemStorage.deleteVideo (Routes.storage studio) "v2") = Routes.storage studio /\
  MemStorage.getVideo (fst (MemStorage.deleteVideo (Routes.storage studio) "v1")) "v1" = None.
Proof.
  destruct (videos_create_delete (Routes.storage studio)) as [_ Hdelete]. split.
  - destruct (Hdelete "v2") as (_ & _ & _ & Hunknown). now apply Hunknown.
  - destruct (Hdelete "v1") as (_ & Hgone & _). exact Hgone.
Defined.

(** Updating the status of an unknown video answers nothing and changes
    nothing; for a known video it changes the status and nothing else of the
    video, keeps the order of the catalog, and leaves every other video as
    it was. *)
Theorem updateVideoStatus_spec (st : MemStorage.t) (id status : string) :
  (MemStorage.getVideo st id = None ->
   MemStorage.updateVideoStatus st id status = (st, None)) /\
  (forall video,
      MemStorage.getVideo st id = Some video ->
      let updated := mkVideo (v_id video) (v_filename video) (v_originalName video)
                             (v_size video) (v_duration video) status
                             (v_createdAt video) in
      let st' := fst (MemStorage.updateVideoStatus st id status) in
      snd (MemStorage.updateVideoStatus st id status) = Some updated /\
      MemStorage.getVideo st' id = Some updated /\
      (forall id', id' <> id -> MemStorage.getVideo st' id' = MemStorage.getVideo st id') /\
      JsMap.keys (MemStorage.videos st') = JsMap.keys (MemStorage.videos st) /\
      MemStorage.queue st' = MemStorage.queue st /\
      MemStorage.getQueue st' =
      List.map (fun e => (fst e, if String.eqb (q_videoId (fst e)) id
                                 then updated else snd e))
               (MemStorage.getQueue st)).
Proof.
  unfold MemStorage.updateVideoStatus, MemStorage.getVideo. split.
  - now intros ->.
  - intros video Hget. rewrite Hget. simpl. repeat split.
    + apply get_set_same.
    + intros id' Hne. now apply get_set_other.
    + apply keys_set_present. apply get_keys. congruence.
    + unfold MemStorage.getQueue. simpl.
      induction (array_sort MemStorage.by_position (JsMap.values (MemStorage.queue st)))
        as [|item l IH]; simpl; auto.
      destruct (String.eqb (q_videoId item) id) eqn:E.
      * pose proof E as E'. apply String.eqb_eq in E'.
        rewrite E', get_set_same, Hget. simpl. rewrite E. now rewrite IH.
      * pose proof E as E'. apply String.eqb_neq in E'.
        rewrite get_set_other by assumption.
        destruct (JsMap.get (MemStorage.videos st) (q_videoId item)); simpl; auto.
        now rewrite E, IH.
Qed.

Lemma updateVideoStatus_spec_witness :
  option_map v_status
             (MemStorage.getVideo (fst (MemStorage.updateVideoStatus two_videos "v1" "error"))
                                  "v1")
  = Some "error".
Proof.
  destruct (updateVideoStatus_spec two_videos "v1" "error") as [_ H].
  destruct (H (mkVideo "v1" "one.mp4" "One" 1000 (Some 60) "ready" 1) eq_refl)
    as (_ & -> & _).
  reflexivity.
Defined.

(** ** The configuration *)

(** The first read of the configuration creates the defaults (1080p, 4000,
    both switches on) and every later read answers what is stored and
    changes nothing; an update keeps the identifier of a stored
    configuration and puts the default wherever the request is silent,
    whatever was stored, and the next read answers the update. *)
Theorem configuration_defaults (st : MemStorage.t) (uuid : string) (now : Date) :
  (MemStorage.configuration st = None ->
   snd (MemStorage.getConfiguration st uuid now) =
   mkConfiguration uuid "1080p" "4000" true true now) /\
  (forall uuid' now',
      MemStorage.getConfiguration (fst (MemStorage.getConfiguration st uuid now)) uuid' now' =
      (fst (MemStorage.getConfiguration st uuid now),
       snd (MemStorage.getConfiguration st uuid now))) /\
  (forall config,
      let updated := MemStorage.updateConfiguration st config uuid now in
      (forall c, MemStorage.configuration st = Some c -> c_id c <> "" ->
                 c_id (snd updated) = c_id c) /\
      c_quality (snd updated) = or_else (ic_quality config) "1080p" /\
      c_bitrate (snd updated) = or_else (ic_bitrate config) "4000" /\
      c_autoQueue (snd updated) = or_else (ic_autoQueue config) true /\
      c_notifications (snd updated) = or_else (ic_notifications config) true /\
      forall uuid' now',
        MemStorage.getConfiguration (fst updated) uuid' now' = (fst updated, snd updated)).
Proof.
  repeat apply conj.
  - unfold MemStorage.getConfiguration. now intros ->.
  - intros uuid' now'. unfold MemStorage.getConfiguration.
    destruct (MemStorage.configuration st) eqn:E; simpl; now rewrite ?E.
  - intros config. simpl. repeat split.
    intros c -> Hid. apply String.eqb_neq in Hid. now rewrite Hid.
Qed.

Lemma configuration_defaults_witness :
  c_bitrate (snd (MemStorage.updateConfiguration
                    (fst (MemStorage.updateConfiguration MemStorage.init
                            (mkInsertConfiguration (Some "720p") (Some "2500") None None)
                            "cfg" 1))
                    (mkInsertConfiguration (Some "480p") None None None) "other" 2))
  = "4000" /\
  c_id (snd (MemStorage.updateConfiguration
               (fst (MemStorage.updateConfiguration MemStorage.init
                       (mkInsertConfiguration (Some "720p") (Some "2500") None None)
                       "cfg" 1))
               (mkInsertConfiguration (Some "480p") None None None) "other" 2))
  = "cfg".
Proof.
  destruct (configuration_defaults
              (fst (MemStorage.updateConfiguration MemStorage.init
                      (mkInsertConfiguration (Some "720p") (Some "2500") None None)
                      "cfg" 1)) "other" 2) as (_ & _ & H).
  destruct (H (mkInsertConfiguration (Some "480p") None None None))
    as (Hid & _ & Hb & _).
  split; [exact Hb|].
  apply (Hid (mkConfiguration "cfg" "720p" "2500" true true 1)); [reflexivity|discriminate].
Defined.

(** ** Metrics *)

Lemma latest_first_key a b :
  Metrics.latest_first a b = (- m_timestamp a) - (- m_timestamp b).
Proof. unfold Metrics.latest_first. lia. Qed.

Lemma hd_error_sorted {A : Type} (R : A -> A -> Prop) (l : list A) (x y : A) :
  StronglySorted R l -> hd_error l = Some x -> In y l -> x = y \/ R x y.
Proof.
  intros Hs Hx Hy. destruct l as [|h l]; [discriminate|].
  injection Hx as ->. inversion Hs as [|? ? _ Hall]; subst.
  destruct Hy as [->|Hy]; auto. right. rewrite Forall_forall in Hall. auto.
Qed.

(** The latest metrics of a session are metrics of that session that no
    metrics of the session are later than; there are none exactly when the
    session has no metrics. *)
Theorem getLatestMetrics_latest (ms : Metrics.t) (sessionId : string) :
  (forall m,
      Metrics.getLatestMetrics ms sessionId = Some m ->
      In m (JsMap.values ms) /\ m_sessionId m = sessionId /\
      forall m', In m' (JsMap.values ms) -> m_sessionId m' = sessionId ->
                 m_timestamp m' <= m_timestamp m) /\
  (Metrics.getLatestMetrics ms sessionId = None <->
   forall m', In m' (JsMap.values ms) -> m_sessionId m' <> sessionId).
Proof.
  unfold Metrics.getLatestMetrics.
  set (mine := filter (fun m => String.eqb (m_sessionId m) sessionId) (JsMap.values ms)).
  assert (Hmine : forall m, In m mine <-> In m (JsMap.values ms) /\ m_sessionId m = sessionId).
  { intros m. unfold mine. rewrite filter_In, String.eqb_eq. reflexivity. }
  pose proof (array_sort_sorted Metrics.latest_first (fun m => - m_timestamp m)
                                latest_first_key mine) as Hs.
  split.
  - intros m Hm.
    assert (Hin : In m (array_sort Metrics.latest_first mine)).
    { destruct (array_sort Metrics.latest_first mine); [discriminate|].
      injection Hm as ->. now left. }
    apply array_sort_In, Hmine in Hin. destruct Hin as [Hin Hid].
    repeat split; auto.
    intros m' Hin' Hid'.
    assert (Hm' : In m' (array_sort Metrics.latest_first mine))
      by (apply array_sort_In, Hmine; auto).
    destruct (hd_error_sorted _ _ _ _ Hs Hm Hm') as [->|H]; lia.
  - split.
    + intros Hnone m' Hin Hid.
      assert (Hm' : In m' (array_sort Metrics.latest_first mine))
        by (apply array_sort_In, Hmine; auto).
      destruct (array_sort Metrics.latest_first mine); [contradiction|discriminate].
    + intros Hnot. destruct (array_sort Metrics.latest_first mine) as [|m l] eqn:E; auto.
      assert (Hin : In m (array_sort Metrics.latest_first mine)) by (rewrite E; now left).
      apply array_sort_In, Hmine in Hin. destruct Hin as [Hin Hid].
      exfalso. exact (Hnot m Hin Hid).
Qed.

(** An element that goes before every element of the array comes first. *)
Lemma array_sort_first {A : Type} (cmp : A -> A -> Z) (key : A -> Z) l x :
  (forall a b, cmp a b = key a - key b) ->
  (forall y, In y l -> key x < key y) ->
  array_sort cmp (l ++ [x]) = x :: array_sort cmp l.
Proof.
  intros cmp_key. induction l as [|y l IH]; intros H; simpl; auto.
  rewrite IH by (intros; apply H; now right). simpl.
  rewrite cmp_key. specialize (H y (or_introl eq_refl)).
  destruct (Z.leb_spec (key y - key x) 0); [lia|reflexivity].
Qed.

(** Metrics created later than all the metrics of their session become the
    latest of that session, and leave the latest of every other session as
    it was. *)
Theorem createMetrics_latest (ms : Metrics.t) (insertMetrics : InsertStreamMetrics)
        (uuid : string) (now : Date)
        (Hfresh : ~ In uuid (JsMap.keys ms))
        (Hlater : forall m, In m (JsMap.values ms) ->
                            m_sessionId m = im_sessionId insertMetrics ->
                            m_timestamp m < now) :
  let created := Metrics.createMetrics ms insertMetrics uuid now in
  Metrics.getLatestMetrics (fst created) (im_sessionId insertMetrics) = Some (snd created) /\
  forall sessionId, sessionId <> im_sessionId insertMetrics ->
                    Metrics.getLatestMetrics (fst created) sessionId =
                    Metrics.getLatestMetrics ms sessionId.
Proof.
  simpl. unfold Metrics.getLatestMetrics.
  rewrite (values_set_absent _ _ _ Hfresh). split.
  - rewrite filter_app. simpl. rewrite String.eqb_refl.
    rewrite (array_sort_first Metrics.latest_first (fun m => - m_timestamp m));
      [reflexivity|exact latest_first_key|].
    intros m Hm. apply filter_In in Hm. destruct Hm as [Hm Hid].
    apply String.eqb_eq in Hid. specialize (Hlater m Hm Hid). simpl. lia.
  - intros sessionId Hne. apply String.eqb_neq in Hne.
    rewrite String.eqb_sym in Hne. rewrite filter_app. simpl.
    rewrite Hne. now rewrite app_nil_r.
Qed.

Lemma createMetrics_latest_witness :
  option_map m_id
    (Metrics.getLatestMetrics
       (fst (Metrics.createMetrics
               (fst (Metrics.createMetrics JsMap.empty
                       (mkInsertMetrics "s1" (Some 700) None None None None None) "m1" 5000))
               (mkInsertMetrics "s1" (Some 900) None None None None None) "m2" 10000))
       "s1")
  = Some "m2".
Proof.
  destruct (createMetrics_latest
              (fst (Metrics.createMetrics JsMap.empty
                      (mkInsertMetrics "s1" (Some 700) None None None None None) "m1" 5000))
              (mkInsertMetrics "s1" (Some 900) None None None None None) "m2" 10000)
    as [H _].
  - simpl. intuition discriminate.
  - simpl. intros m [<-|[]] _. simpl. lia.
  - exact (f_equal (option_map m_id) H).
Defined.

Lemma getLatestMetrics_latest_witness :
  option_map m_sessionId
    (Metrics.getLatestMetrics
       (fst (Metrics.createMetrics JsMap.empty
               (mkInsertMetrics "s1" (Some 700) None None None None None) "m1" 5000)) "s1")
  = Some "s1".
Proof.
  destruct (Metrics.getLatestMetrics
              (fst (Metrics.createMetrics JsMap.empty
                      (mkInsertMetrics "s1" (Some 700) None None None None None) "m1" 5000))
              "s1") as [m|] eqn:E; [|vm_compute in E; discriminate].
  destruct (getLatestMetrics_latest
              (fst (Metrics.createMetrics JsMap.empty
                      (mkInsertMetrics "s1" (Some 700) None None None None None) "m1" 5000))
              "s1") as [Hl _].
  destruct (Hl m E) as (_ & Hid & _). simpl. now rewrite Hid.
Defined.

(** * More of the FFmpeg service *)

(** ** Promises *)

Lemma settle_keeps ps promise p r x :
  nth_error ps p = Some (Some x) ->
  nth_error (FFmpeg.settle promise r ps) p = Some (Some x).
Proof.
  intros H. unfold FFmpeg.settle. rewrite nth_error_update_nth.
  destruct (Nat.eqb promise p); [|exact H]. now rewrite H.
Qed.

Lemma settle_other ps promise p r :
  promise <> p -> nth_error (FFmpeg.settle promise r ps) p = nth_error ps p.
Proof.
  intros H. unfold FFmpeg.settle. rewrite nth_error_update_nth.
  apply Nat.eqb_neq in H. now rewrite H.
Qed.

Lemma length_settle ps promise r :
  List.length (FFmpeg.settle promise r ps) = List.length ps.
Proof. apply length_update_nth. Qed.

Lemma settled_nth s p r :
  FFmpeg.settled s p = Some r <-> nth_error (FFmpeg.promises s) p = Some (Some r).
Proof.
  unfold FFmpeg.settled. destruct (nth_error (FFmpeg.promises s) p) as [[x|]|];
    split; congruence.
Qed.

Lemma on_close_keeps ls s p x :
  nth_error (FFmpeg.promises s) p = Some (Some x) ->
  nth_error (FFmpeg.promises (fold_left FFmpeg.on_close ls s)) p = Some (Some x).
Proof.
  revert s. induction ls as [|l ls IH]; intros s H; simpl; auto.
  apply IH. destruct l; simpl; auto. now apply settle_keeps.
Qed.

Lemma on_close_length ls s :
  List.length (FFmpeg.promises (fold_left FFmpeg.on_close ls s)) =
  List.length (FFmpeg.promises s).
Proof.
  revert s. induction ls as [|l ls IH]; intros s; simpl; auto.
  rewrite IH. destruct l; simpl; auto. apply length_settle.
Qed.

Lemma on_close_timers ls s :
  FFmpeg.timers (fold_left FFmpeg.on_close ls s) = FFmpeg.timers s.
Proof.
  revert s. induction ls as [|l ls IH]; intros s; simpl; auto.
  rewrite IH. now destruct l.
Qed.

Lemma step_keeps_settled s e s' p x :
  FFmpeg.step s e = Some s' ->
  nth_error (FFmpeg.promises s) p = Some (Some x) ->
  nth_error (FFmpeg.promises s') p = Some (Some x).
Proof.
  intros Hstep H.
  assert (Happ : forall y, nth_error (FFmpeg.promises s ++ [y]) p = Some (Some x)).
  { intros y. rewrite nth_error_app1; auto. apply nth_error_Some. congruence. }
  destruct e as [options ex| |q|q|q|i]; simpl in Hstep.
  - injection Hstep as <-. unfold FFmpeg.startStream.
    destruct (FFmpeg.isStreaming s); simpl; auto. destruct (negb ex); simpl; auto.
  - injection Hstep as <-. unfold FFmpeg.stopStream.
    destruct (FFmpeg.isStreaming s), (FFmpeg.streamingProcess s); simpl; auto.
  - destruct (FFmpeg.process s q) as [pr|]; [|discriminate].
    destruct (FFmpeg.running pr); [|discriminate]. now injection Hstep as <-.
  - destruct (FFmpeg.process s q) as [pr|]; [|discriminate].
    destruct (negb (FFmpeg.running pr) && negb (FFmpeg.closed pr)); [|discriminate].
    injection Hstep as <-. now apply on_close_keeps.
  - destruct (FFmpeg.process s q) as [pr|]; [|discriminate].
    destruct (FFmpeg.closed pr); [discriminate|].
    injection Hstep as <-. simpl. now apply settle_keeps.
  - destruct (nth_error (FFmpeg.timers s) i) as [[promise options|]|]; [| |discriminate];
      injection Hstep as <-.
    + unfold FFmpeg.on_confirm. destruct (FFmpeg.handle_not_killed _); simpl;
        now apply settle_keeps.
    + unfold FFmpeg.on_escalation. destruct (FFmpeg.handle_not_killed _); simpl; auto.
      destruct (FFmpeg.streamingProcess s); simpl; auto.
Qed.

(** A promise of the service is settled once: whatever the service does
    next, a promise that is resolved or rejected stays as it is. *)
Theorem promise_settled_once (s s' : FFmpeg.t) (events : list FFmpeg.Event)
        (promise : nat) (r : FFmpeg.Settled)
        (Hrun : FFmpeg.run s events = Some s')
        (Hsettled : FFmpeg.settled s promise = Some r) :
  FFmpeg.settled s' promise = Some r.
Proof.
  revert s Hrun Hsettled. induction events as [|e events IH]; intros s Hrun Hsettled.
  - simpl in Hrun. now injection Hrun as <-.
  - simpl in Hrun. destruct (FFmpeg.step s e) as [s1|] eqn:E; [|discriminate].
    apply (IH s1 Hrun). apply settled_nth. eapply step_keeps_settled; eauto.
    now apply settled_nth.
Qed.

(** A launch that was refused stays refused when the stream it collided
    with is stopped and another is confirmed. *)
Lemma promise_settled_once_witness :
  exists s',
    FFmpeg.run (fst (FFmpeg.startStream
                       (fst (FFmpeg.startStream FFmpeg.init some_options true))
                       some_options false))
               [FFmpeg.Fire 0; FFmpeg.CallStop; FFmpeg.ProcessExits 0; FFmpeg.EmitClose 0]
    = Some s' /\
    FFmpeg.settled s' 1 = Some (FFmpeg.Rejected (FFmpeg.InputNotFound "one.mp4")).
Proof.
  destruct (FFmpeg.run _ _) as [s'|] eqn:E; [|vm_compute in E; discriminate].
  exists s'. split; [reflexivity|].
  apply (promise_settled_once _ s' _ 1%nat _ E). reflexivity.
Defined.

(** ** What every reachable state of the service satisfies *)

Lemma process_update {A : Type} (s : A) (ps : list A) pid (f : A -> A) q :
  nth_error (FFmpeg.update_nth pid f ps) q = Some s ->
  exists s0, nth_error ps q = Some s0 /\ (s = s0 \/ (pid = q /\ s = f s0)).
Proof.
  rewrite nth_error_update_nth. destruct (Nat.eqb_spec pid q) as [->|Hne].
  - destruct (nth_error ps q) as [s0|]; simpl; [|discriminate].
    intros [= <-]. exists s0. auto.
  - intros H. exists s. auto.
Qed.

Lemma process_last (ps : list FFmpeg.ChildProcess) new pid p :
  nth_error (ps ++ [new]) pid = Some p ->
  nth_error ps pid = Some p \/ (pid = List.length ps /\ p = new).
Proof.
  intros H. destruct (Nat.lt_ge_cases pid (List.length ps)) as [Hlt|Hge].
  - left. now rewrite nth_error_app1 in H.
  - right. rewrite nth_error_app2 in H by assumption.
    destruct (pid - List.length ps)%nat as [|n] eqn:E; simpl in H.
    + injection H as <-. split; [lia|reflexivity].
    + destruct n; discriminate.
Qed.

Lemma handle_not_killed_handle s :
  FFmpeg.handle_not_killed s = true -> FFmpeg.streamingProcess s <> None.
Proof.
  unfold FFmpeg.handle_not_killed. destruct (FFmpeg.streamingProcess s); congruence.
Qed.

(** The invariant for a state whose processes were updated in place by a
    function that keeps the listeners and the [closed] flag. *)
Lemma service_ok_update s f pid ps' promises' timers' :
  service_ok s ->
  (forall p, FFmpeg.closeListeners (f p) = FFmpeg.closeListeners p) ->
  (forall p, FFmpeg.closed (f p) = FFmpeg.closed p) ->
  ps' = FFmpeg.update_nth pid f (FFmpeg.processes s) ->
  (List.length (FFmpeg.promises s) <= List.length promises')%nat ->
  service_ok (FFmpeg.mk (FFmpeg.streamingProcess s) (FFmpeg.isStreaming s)
                        (FFmpeg.currentStreamInfo s) ps' promises' timers').
Proof.
  intros [Hl Hh Hs Hp] Hfl Hfc -> Hlen.
  constructor; unfold awaited_by_stop, FFmpeg.process in *; simpl.
  - intros q p H. apply process_update in H. destruct H as (p0 & H0 & [->|[_ ->]]).
    + eauto.
    + destruct (Hl q p0 H0) as [rest Hrest]. exists rest. now rewrite Hfl.
  - intros q Hq. destruct (Hh q Hq) as (p0 & H0 & Hc).
    rewrite nth_error_update_nth, H0.
    destruct (Nat.eqb pid q); simpl; [|eauto].
    exists (f p0). split; [reflexivity|]. now rewrite Hfc.
  - exact Hs.
  - intros promise (q & p & H & Hin). apply process_update in H.
    destruct H as (p0 & H0 & [->|[_ ->]]).
    + specialize (Hp promise (ex_intro _ q (ex_intro _ p0 (conj H0 Hin)))). lia.
    + rewrite Hfl in Hin.
      specialize (Hp promise (ex_intro _ q (ex_intro _ p0 (conj H0 Hin)))). lia.
Qed.

(** The invariant for a state with the same processes, no handle and no
    streaming flag. *)
Lemma service_ok_cleared s info ps' promises' timers' :
  service_ok s ->
  (forall q p, nth_error ps' q = Some p ->
               exists p0, nth_error (FFmpeg.processes s) q = Some p0 /\
                          FFmpeg.closeListeners p = FFmpeg.closeListeners p0) ->
  List.length promises' = List.length (FFmpeg.promises s) ->
  service_ok (FFmpeg.mk None false info ps' promises' timers').
Proof.
  intros [Hl Hh Hs Hp] Hps Hlen.
  constructor; unfold awaited_by_stop, FFmpeg.process in *; simpl; try discriminate.
  - intros q p H. destruct (Hps q p H) as (p0 & H0 & Heq).
    destruct (Hl q p0 H0) as [rest Hrest]. exists rest. congruence.
  - intros promise (q & p & H & Hin). destruct (Hps q p H) as (p0 & H0 & Heq).
    rewrite Heq in Hin. rewrite Hlen. apply Hp. eauto.
Qed.

Lemma init_ok : service_ok FFmpeg.init.
Proof.
  constructor; unfold awaited_by_stop, FFmpeg.process; simpl; try discriminate.
  - intros [|pid] p H; discriminate.
  - intros promise ([|pid] & p & H & _); discriminate.
Qed.

Lemma startStream_ok s options inputExists :
  service_ok s -> service_ok (fst (FFmpeg.startStream s options inputExists)).
Proof.
  intros Hok. unfold FFmpeg.startStream.
  destruct (FFmpeg.isStreaming s) eqn:Es; [|destruct (negb inputExists)]; simpl.
  - destruct Hok as [Hl Hh Hs Hp].
    constructor; unfold awaited_by_stop, FFmpeg.process in *; simpl; auto.
    intros promise H. rewrite length_app. specialize (Hp promise H). simpl. lia.
  - destruct Hok as [Hl Hh Hs Hp].
    constructor; unfold awaited_by_stop, FFmpeg.process in *; simpl; auto;
      try discriminate.
    intros promise H. rewrite length_app. specialize (Hp promise H). simpl. lia.
  - destruct Hok as [Hl Hh Hs Hp].
    constructor; unfold awaited_by_stop, FFmpeg.process in *; simpl.
    + intros q p H. apply process_last in H. destruct H as [H|[_ ->]]; eauto.
      now exists [].
    + intros q [= <-]. eexists. split; [apply nth_error_last|reflexivity].
    + congruence.
    + intros promise (q & p & H & Hin). rewrite length_app. simpl.
      apply process_last in H. destruct H as [H|[_ ->]].
      * specialize (Hp promise (ex_intro _ q (ex_intro _ p (conj H Hin)))). lia.
      * simpl in Hin. destruct Hin as [Hin|[]]. discriminate.
Qed.

Lemma stopStream_ok s : service_ok s -> service_ok (fst (FFmpeg.stopStream s)).
Proof.
  intros Hok. unfold FFmpeg.stopStream.
  assert (Hsame : service_ok
                    (FFmpeg.mk (FFmpeg.streamingProcess s) (FFmpeg.isStreaming s)
                               (FFmpeg.currentStreamInfo s) (FFmpeg.processes s)
                               (FFmpeg.promises s ++ [Some (FFmpeg.Resolved false)])
                               (FFmpeg.timers s))).
  { destruct Hok as [Hl Hh Hs Hp].
    constructor; unfold awaited_by_stop, FFmpeg.process in *; simpl; auto.
    intros promise H. rewrite length_app. specialize (Hp promise H). simpl. lia. }
  destruct (FFmpeg.isStreaming s) eqn:Es; [|exact Hsame].
  destruct (FFmpeg.streamingProcess s) as [pid|] eqn:Eh; [|exact Hsame].
  simpl. clear Hsame. destruct Hok as [Hl Hh Hs Hp].
  constructor; unfold awaited_by_stop, FFmpeg.process in *; simpl.
  - intros q p H. apply process_update in H. destruct H as (p0 & H0 & [->|[_ ->]]).
    + eauto.
    + destruct (Hl q p0 H0) as [rest Hrest].
      exists (rest ++ [FFmpeg.StopClose (List.length (FFmpeg.promises s))]).
      simpl. now rewrite Hrest.
  - intros q [= <-]. destruct (Hh pid Eh) as (p0 & H0 & Hc).
    rewrite nth_error_update_nth, Nat.eqb_refl, H0. simpl. eauto.
  - intros _. split; [congruence|]. now apply Hs.
  - intros promise (q & p & H & Hin). rewrite length_app. simpl.
    apply process_update in H. destruct H as (p0 & H0 & [->|[_ ->]]).
    + specialize (Hp promise (ex_intro _ q (ex_intro _ p0 (conj H0 Hin)))). lia.
    + simpl in Hin. apply in_app_or in Hin. destruct Hin as [Hin|[[= <-]|[]]]; [|lia].
      specialize (Hp promise (ex_intro _ q (ex_intro _ p0 (conj H0 Hin)))). lia.
Qed.

Lemma step_ok s e s' : service_ok s -> FFmpeg.step s e = Some s' -> service_ok s'.
Proof.
  intros Hok Hstep.
  destruct e as [options ex| |q|q|q|i]; simpl in Hstep.
  - injection Hstep as <-. now apply startStream_ok.
  - injection Hstep as <-. now apply stopStream_ok.
  - destruct (FFmpeg.process s q) as [pr|]; [|discriminate].
    destruct (FFmpeg.running pr); [|discriminate]. injection Hstep as <-.
    unfold FFmpeg.with_processes.
    apply (service_ok_update s (FFmpeg.set_running false) q); auto.
  - destruct (FFmpeg.process s q) as [pr|] eqn:Epr; [|discriminate].
    destruct (negb (FFmpeg.running pr) && negb (FFmpeg.closed pr)); [|discriminate].
    injection Hstep as <-.
    destruct (ok_listeners s Hok q pr Epr) as [rest Hrest].
    set (s1 := FFmpeg.with_processes s _).
    assert (Hne : FFmpeg.closeListeners pr <> []) by (rewrite Hrest; discriminate).
    destruct (on_close_clears (FFmpeg.closeListeners pr) s1 Hne) as [Hh Hs].
    pose proof (on_close_processes (FFmpeg.closeListeners pr) s1) as Hps.
    pose proof (on_close_length (FFmpeg.closeListeners pr) s1) as Hlen.
    destruct (fold_left FFmpeg.on_close (FFmpeg.closeListeners pr) s1)
      as [h st info ps promises timers].
    simpl in *. subst h st ps.
    apply (service_ok_cleared s); auto.
    intros q' p H. apply process_update in H.
    destruct H as (p0 & H0 & [->|[_ ->]]); eauto.
  - destruct (FFmpeg.process s q) as [pr|]; [|discriminate].
    destruct (FFmpeg.closed pr); [discriminate|]. injection Hstep as <-.
    unfold FFmpeg.on_error. apply (service_ok_cleared s); eauto.
    apply length_settle.
  - destruct (nth_error (FFmpeg.timers s) i) as [[promise options|]|]; [| |discriminate];
      injection Hstep as <-.
    + unfold FFmpeg.on_confirm.
      change (FFmpeg.handle_not_killed (FFmpeg.with_timers s _))
        with (FFmpeg.handle_not_killed s).
      destruct (FFmpeg.handle_not_killed s) eqn:Ek; simpl.
      * destruct Hok as [Hl Hh Hs Hp].
        constructor; unfold awaited_by_stop, FFmpeg.process in *; simpl; auto.
        -- intros _. split; [now apply handle_not_killed_handle|discriminate].
        -- intros p H. rewrite length_settle. auto.
      * destruct Hok as [Hl Hh Hs Hp].
        constructor; unfold awaited_by_stop, FFmpeg.process in *; simpl; auto.
        intros p H. rewrite length_settle. auto.
    + unfold FFmpeg.on_escalation.
      change (FFmpeg.handle_not_killed (FFmpeg.with_timers s _))
        with (FFmpeg.handle_not_killed s).
      assert (Hsame : service_ok (FFmpeg.with_timers s (FFmpeg.remove_nth i (FFmpeg.timers s)))).
      { destruct Hok as [Hl Hh Hs Hp]. constructor; auto. }
      destruct (FFmpeg.handle_not_killed s); [|exact Hsame].
      simpl. destruct (FFmpeg.streamingProcess s) as [pid|] eqn:Eh; [|exact Hsame].
      simpl.
      pose proof (service_ok_update s (FFmpeg.kill FFmpeg.SIGKILL) pid _
                    (FFmpeg.promises s) (FFmpeg.remove_nth i (FFmpeg.timers s)) Hok
                    (fun _ => eq_refl) (fun _ => eq_refl) eq_refl (le_n _)) as H.
      now rewrite Eh in H.
Qed.

Lemma run_ok events s s' : service_ok s -> FFmpeg.run s events = Some s' -> service_ok s'.
Proof.
  revert s. induction events as [|e events IH]; intros s Hok; simpl.
  - now intros [= <-].
  - destruct (FFmpeg.step s e) as [s1|] eqn:E; [|discriminate].
    apply IH. eapply step_ok; eauto.
Qed.

Lemma await_ok during s promise : service_ok s -> service_ok (fst (FFmpeg.await s promise during)).
Proof.
  revert s. induction during as [|e during IH]; intros s Hok; simpl.
  - now destruct (FFmpeg.settled s promise).
  - destruct (FFmpeg.settled s promise); auto.
    destruct (FFmpeg.step s e) as [s1|] eqn:E; auto.
    apply IH. eapply step_ok; eauto.
Qed.

(** Every ['close'] clears the handle and the streaming flag of the
    service, whichever process it is the ['close'] of: in every state the
    service reaches, after the ['close'] of any process there is no handle,
    the service is not streaming and [isProcessAlive] answers [false]. *)
Theorem every_close_clears_the_handle (events : list FFmpeg.Event) (s s' : FFmpeg.t)
        (pid : nat)
        (Hrun : FFmpeg.run FFmpeg.init events = Some s)
        (Hclose : FFmpeg.step s (FFmpeg.EmitClose pid) = Some s') :
  FFmpeg.streamingProcess s' = None /\
  FFmpeg.getStreamingStatus s' = false /\
  FFmpeg.isProcessAlive s' = false.
Proof.
  pose proof (run_ok events _ _ init_ok Hrun) as Hok.
  simpl in Hclose. destruct (FFmpeg.process s pid) as [p|] eqn:Ep; [|discriminate].
  destruct (negb (FFmpeg.running p) && negb (FFmpeg.closed p)); [|discriminate].
  injection Hclose as <-.
  destruct (ok_listeners s Hok pid p Ep) as [rest Hrest].
  assert (Hne : FFmpeg.closeListeners p <> []) by (rewrite Hrest; discriminate).
  destruct (on_close_clears (FFmpeg.closeListeners p)
              (FFmpeg.with_processes s
                 (FFmpeg.update_nth pid FFmpeg.set_closed (FFmpeg.processes s))) Hne)
    as [Hh Hs].
  repeat split; auto.
  unfold FFmpeg.isProcessAlive, FFmpeg.handle_not_killed. now rewrite Hh.
Qed.

(** Two launches overlap; the process of the first ends and is closed, and
    the handle, which was the second's, is gone. *)
Lemma every_close_clears_the_handle_witness :
  exists s s',
    FFmpeg.run FFmpeg.init
      [FFmpeg.CallStart some_options true; FFmpeg.CallStart some_options true;
       FFmpeg.ProcessExits 0] = Some s /\
    FFmpeg.streamingProcess s = Some 1%nat /\
    FFmpeg.step s (FFmpeg.EmitClose 0) = Some s' /\
    FFmpeg.streamingProcess s' = None.
Proof.
  destruct (FFmpeg.run FFmpeg.init
              [FFmpeg.CallStart some_options true; FFmpeg.CallStart some_options true;
               FFmpeg.ProcessExits 0]) as [s|] eqn:E; [|vm_compute in E; discriminate].
  destruct (FFmpeg.step s (FFmpeg.EmitClose 0)) as [s'|] eqn:E';
    [|vm_compute in E; injection E as <-; vm_compute in E'; discriminate].
  exists s, s'. split; [reflexivity|].
  split; [vm_compute in E; now injection E as <-|].
  split; [exact E'|].
  now destruct (every_close_clears_the_handle _ s s' 0%nat E E').
Defined.

(** In every state the service reaches, a handle refers to a process that
    has not been closed, and while the service is streaming there is a
    handle and there is stream info. *)
Theorem streaming_has_a_handle (events : list FFmpeg.Event) (s : FFmpeg.t)
        (Hrun : FFmpeg.run FFmpeg.init events = Some s) :
  (forall pid, FFmpeg.streamingProcess s = Some pid ->
               exists p, FFmpeg.process s pid = Some p /\ FFmpeg.closed p = false) /\
  (FFmpeg.getStreamingStatus s = true ->
   exists pid p options,
     FFmpeg.streamingProcess s = Some pid /\
     FFmpeg.process s pid = Some p /\ FFmpeg.closed p = false /\
     FFmpeg.getCurrentStreamInfo s = Some options).
Proof.
  pose proof (run_ok events _ _ init_ok Hrun) as [Hl Hh Hs Hp].
  split; [exact Hh|].
  intros Hst. destruct (Hs Hst) as [Hhandle Hinfo].
  destruct (FFmpeg.streamingProcess s) as [pid|] eqn:Eh; [|congruence].
  destruct (Hh pid eq_refl) as (p & Hp' & Hc).
  unfold FFmpeg.getCurrentStreamInfo.
  destruct (FFmpeg.currentStreamInfo s) as [options|]; [|congruence].
  exists pid, p, options. auto.
Qed.

Lemma streaming_has_a_handle_witness :
  exists s,
    FFmpeg.run FFmpeg.init [FFmpeg.CallStart some_options true; FFmpeg.Fire 0] = Some s /\
    FFmpeg.getStreamingStatus s = true /\
    exists p, FFmpeg.process s 0 = Some p /\ FFmpeg.closed p = false.
Proof.
  destruct (FFmpeg.run FFmpeg.init [FFmpeg.CallStart some_options true; FFmpeg.Fire 0])
    as [s|] eqn:E; [|vm_compute in E; discriminate].
  exists s. split; [reflexivity|].
  destruct (streaming_has_a_handle _ s E) as [Hh _].
  vm_compute in E. injection E as <-. split; [reflexivity|].
  apply Hh. reflexivity.
Defined.

(** ** The promise of a launch *)

(** ** The promise of a launch *)

Lemma on_close_other ls s promise :
  ~ In (FFmpeg.StopClose promise) ls ->
  nth_error (FFmpeg.promises (fold_left FFmpeg.on_close ls s)) promise =
  nth_error (FFmpeg.promises s) promise.
Proof.
  revert s. induction ls as [|l ls IH]; intros s Hnot; simpl; auto.
  rewrite IH by (intros H; apply Hnot; now right).
  destruct l as [|q]; simpl; auto.
  apply settle_other. intros ->. apply Hnot. now left.
Qed.

Lemma not_awaited_update s f pid promise ps' :
  not_awaited promise s ->
  (forall p, ~ In (FFmpeg.StopClose promise) (FFmpeg.closeListeners p) ->
             ~ In (FFmpeg.StopClose promise) (FFmpeg.closeListeners (f p))) ->
  ps' = FFmpeg.update_nth pid f (FFmpeg.processes s) ->
  forall q p, nth_error ps' q = Some p ->
              ~ In (FFmpeg.StopClose promise) (FFmpeg.closeListeners p).
Proof.
  intros Hn Hf -> q p H. apply process_update in H.
  destruct H as (p0 & H0 & [->|[_ ->]]); [|apply Hf]; exact (Hn q p0 H0).
Qed.

(** While a launch is pending and no [stopStream] waits on its promise, a
    step of the service leaves it so, or rejects it, or resolves it with
    [true] by a confirmation that found a handle whose process was not
    killed. *)
Lemma step_launch s e s1 promise :
  not_awaited promise s ->
  nth_error (FFmpeg.promises s) promise = Some None ->
  FFmpeg.step s e = Some s1 ->
  (nth_error (FFmpeg.promises s1) promise = Some None /\ not_awaited promise s1) \/
  (exists reason, FFmpeg.settled s1 promise = Some (FFmpeg.Rejected reason)) \/
  (FFmpeg.settled s1 promise = Some (FFmpeg.Resolved true) /\
   FFmpeg.isStreaming s1 = true /\ FFmpeg.isProcessAlive s1 = true).
Proof.
  intros Hn Hpend Hstep.
  assert (Hlt : (promise < List.length (FFmpeg.promises s))%nat)
    by (apply nth_error_Some; congruence).
  assert (Happ : forall y, nth_error (FFmpeg.promises s ++ [y]) promise = Some None)
    by (intros y; now rewrite nth_error_app1).
  destruct e as [options ex| |q|q|q|i]; simpl in Hstep.
  - injection Hstep as <-. left. unfold FFmpeg.startStream.
    destruct (FFmpeg.isStreaming s); [|destruct (negb ex)]; simpl;
      (split; [apply Happ|]); unfold not_awaited, FFmpeg.process; simpl;
      try exact Hn.
    intros pid p H. apply process_last in H. destruct H as [H|[_ ->]].
    + exact (Hn pid p H).
    + simpl. intros [H|[]]. discriminate.
  - injection Hstep as <-. left. unfold FFmpeg.stopStream.
    destruct (FFmpeg.isStreaming s), (FFmpeg.streamingProcess s) as [h|]; simpl;
      (split; [apply Happ|]); unfold not_awaited, FFmpeg.process; simpl;
      try exact Hn.
    apply (not_awaited_update s
             (fun p => FFmpeg.kill FFmpeg.SIGTERM
                         (FFmpeg.add_listener
                            (FFmpeg.StopClose (List.length (FFmpeg.promises s))) p))
             h promise); auto.
    intros p Hp. simpl. intros H. apply in_app_or in H.
    destruct H as [H|[[= H]|[]]]; [now apply Hp|lia].
  - destruct (FFmpeg.process s q) as [pr|]; [|discriminate].
    destruct (FFmpeg.running pr); [|discriminate]. injection Hstep as <-.
    left. split; [exact Hpend|]. unfold not_awaited, FFmpeg.process. simpl.
    apply (not_awaited_update s (FFmpeg.set_running false) q promise); auto.
  - destruct (FFmpeg.process s q) as [pr|] eqn:Epr; [|discriminate].
    destruct (negb (FFmpeg.running pr) && negb (FFmpeg.closed pr)); [|discriminate].
    injection Hstep as <-. left. split.
    + rewrite on_close_other by (exact (Hn q pr Epr)). exact Hpend.
    + unfold not_awaited, FFmpeg.process. rewrite on_close_processes. simpl.
      apply (not_awaited_update s FFmpeg.set_closed q promise); auto.
  - destruct (FFmpeg.process s q) as [pr|]; [|discriminate].
    destruct (FFmpeg.closed pr); [discriminate|]. injection Hstep as <-.
    destruct (Nat.eq_dec (FFmpeg.launch pr) promise) as [->|Hne].
    + right. left. eexists. apply settled_nth. simpl. now apply settled_settle.
    + left. split; [|exact Hn]. simpl. now rewrite settle_other.
  - destruct (nth_error (FFmpeg.timers s) i) as [[promise' options|]|]; [| |discriminate];
      injection Hstep as <-.
    + unfold FFmpeg.on_confirm.
      change (FFmpeg.handle_not_killed (FFmpeg.with_timers s _))
        with (FFmpeg.handle_not_killed s).
      destruct (Nat.eq_dec promise' promise) as [->|Hne].
      * destruct (FFmpeg.handle_not_killed s) eqn:Ek.
        -- right. right. repeat split.
           ++ apply settled_nth. simpl. now apply settled_settle.
           ++ exact Ek.
        -- right. left. eexists. apply settled_nth. simpl. now apply settled_settle.
      * left. destruct (FFmpeg.handle_not_killed s); simpl;
          (split; [now rewrite settle_other|exact Hn]).
    + left. unfold FFmpeg.on_escalation.
      change (FFmpeg.handle_not_killed (FFmpeg.with_timers s _))
        with (FFmpeg.handle_not_killed s).
      destruct (FFmpeg.handle_not_killed s); [|split; [exact Hpend|exact Hn]].
      simpl. destruct (FFmpeg.streamingProcess s) as [h|]; [|split; [exact Hpend|exact Hn]].
      split; [exact Hpend|]. unfold not_awaited, FFmpeg.process. simpl.
      apply (not_awaited_update s (FFmpeg.kill FFmpeg.SIGKILL) h promise); auto.
Qed.

Lemma await_launch during s promise s' value :
  not_awaited promise s ->
  nth_error (FFmpeg.promises s) promise = Some None ->
  FFmpeg.await s promise during = (s', Some (FFmpeg.Resolved value)) ->
  value = true /\ FFmpeg.isStreaming s' = true /\ FFmpeg.isProcessAlive s' = true.
Proof.
  revert s. induction during as [|e during IH]; intros s Hn Hpend; simpl;
    unfold FFmpeg.settled at 1; rewrite Hpend; [discriminate|].
  destruct (FFmpeg.step s e) as [s1|] eqn:E; [|discriminate].
  destruct (step_launch s e s1 promise Hn Hpend E)
    as [[Hpend1 Hn1]|[[reason Hr]|(Hr & Hs & Ha)]].
  - now apply IH.
  - rewrite (await_settled _ _ _ _ Hr). discriminate.
  - rewrite (await_settled _ _ _ _ Hr). now intros [= <- <-].
Qed.

(** What [startStream] leaves: a promise that is rejected, or a pending one
    that no [stopStream] waits on. *)
Lemma startStream_promise s options inputExists :
  service_ok s ->
  let r := FFmpeg.startStream s options inputExists in
  (exists reason, FFmpeg.settled (fst r) (snd r) = Some (FFmpeg.Rejected reason)) \/
  (nth_error (FFmpeg.promises (fst r)) (snd r) = Some None /\ not_awaited (snd r) (fst r)).
Proof.
  intros Hok. unfold FFmpeg.startStream.
  destruct (FFmpeg.isStreaming s); [|destruct (negb inputExists)]; simpl.
  - left. eexists. unfold FFmpeg.settled. simpl. now rewrite nth_error_last.
  - left. eexists. unfold FFmpeg.settled. simpl. now rewrite nth_error_last.
  - right. split; [apply nth_error_last|].
    unfold not_awaited, FFmpeg.process. simpl. intros pid p H Hin.
    apply process_last in H. destruct H as [H|[_ ->]].
    + pose proof (ok_promises s Hok (List.length (FFmpeg.promises s))
                    (ex_intro _ pid (ex_intro _ p (conj H Hin)))). lia.
    + simpl in Hin. destruct Hin as [Hin|[]]. discriminate.
Qed.

(** * More of the routes *)

Lemma streamStart_service_ok app body configUuid uuid now response inputExists during :
  service_ok (Routes.ffmpeg app) ->
  service_ok (Routes.ffmpeg
                (fst (Routes.streamStart app body configUuid uuid now response
                                         inputExists during))).
Proof.
  intros Hok. unfold Routes.streamStart.
  destruct (MemStorage.getVideo _ _) as [video|]; [|exact Hok].
  destruct (array_find _ _) as [pageCredential|]; [|exact Hok].
  destruct response as [liveVideo|]; simpl; [|exact Hok].
  destruct (MemStorage.getConfiguration (Routes.storage app) configUuid now)
    as [st config].
  pose proof (startStream_ok (Routes.ffmpeg app)
                (FFmpeg.mkOptions (v_filename video) (Facebook.stream_url liveVideo)
                   (Routes.or_default (c_quality config) "1080p")
                   (Routes.or_default (c_bitrate config) "4000"))
                inputExists Hok) as H1.
  destruct (FFmpeg.startStream _ _ _) as [ff promise]. simpl in H1.
  pose proof (await_ok during ff promise H1) as H2.
  destruct (FFmpeg.await ff promise during) as [ff' [[value|reason]|]]; simpl in *; auto.
Qed.

Lemma streamStop_service_ok app now during :
  service_ok (Routes.ffmpeg app) ->
  service_ok (Routes.ffmpeg (fst (Routes.streamStop app now during))).
Proof.
  intros Hok. unfold Routes.streamStop.
  destruct (MemStorage.getCurrentSession _) as [currentSession|]; [|exact Hok].
  pose proof (stopStream_ok (Routes.ffmpeg app) Hok) as H1.
  destruct (FFmpeg.stopStream _) as [ff promise]. simpl in H1.
  pose proof (await_ok during ff promise H1) as H2.
  destruct (FFmpeg.await ff promise during) as [ff' [[value|reason]|]]; simpl in *; auto.
  now destruct (MemStorage.updateSession _ _ _).
Qed.

Lemma run_service_ok actions app app' responses :
  service_ok (Routes.ffmpeg app) ->
  Routes.run app actions = Some (app', responses) ->
  service_ok (Routes.ffmpeg app').
Proof.
  revert app responses. induction actions as [|a actions IH]; intros app responses Hok.
  - simpl. now intros [= <- _].
  - simpl. destruct (Routes.act app a) as [[app1 r1]|] eqn:Ea; [|discriminate].
    destruct (Routes.run app1 actions) as [[app2 r2]|] eqn:Er; [|discriminate].
    intros [= <- _]. apply (IH app1 r2); auto.
    destruct a as [body configUuid uuid now response inputExists during|now during|e];
      simpl in Ea.
    + injection Ea as Ea. apply (f_equal fst) in Ea.
      rewrite fst_sent_response in Ea. simpl in Ea. subst app1.
      now apply streamStart_service_ok.
    + injection Ea as Ea. apply (f_equal fst) in Ea.
      rewrite fst_sent_response in Ea. simpl in Ea. subst app1.
      now apply streamStop_service_ok.
    + destruct (FFmpeg.step (Routes.ffmpeg app) e) as [ff|] eqn:E; [|discriminate].
      injection Ea as <- _. simpl. eapply step_ok; eauto.
Qed.

(** A start request answers a session only when the confirmation of its
    own launch found a handle whose process was not killed: in every state
    the server reaches from rest, a start that answers a session leaves the
    service streaming with [isProcessAlive] true, has stored that session,
    with status [streaming] and the video of the request, under the new
    identifier, and has broadcast it. *)
Theorem streamStart_success (actions : list Routes.Action) (app app' : Routes.t)
        (responses : list Routes.Response)
        (body : Routes.StartBody) (configUuid uuid : string) (now : Date)
        (response : option Facebook.LiveVideoResponse) (inputExists : bool)
        (during : list FFmpeg.Event) (session : StreamingSession)
        (Hrun : Routes.run studio actions = Some (app, responses))
        (Hstart : Routes.streamStart app body configUuid uuid now response
                                     inputExists during
                  = (app', Some (Routes.json_session session))) :
  FFmpeg.getStreamingStatus (Routes.ffmpeg app') = true /\
  FFmpeg.isProcessAlive (Routes.ffmpeg app') = true /\
  inputExists = true /\
  session = mkSession uuid "streaming" (Some (Routes.videoId body))
                      (Some (Routes.facebookPageId body))
                      (Some (Routes.streamTitle body))
                      (Some (Routes.streamDescription body)) (Some now) None now /\
  JsMap.get (MemStorage.sessions (Routes.storage app')) uuid = Some session /\
  exists video,
    MemStorage.getVideo (Routes.storage app) (Routes.videoId body) = Some video /\
    Routes.broadcasts app' = Routes.broadcasts app ++ [Routes.stream_started session video].
Proof.
  assert (Hok : service_ok (Routes.ffmpeg app))
    by (exact (run_service_ok actions studio app responses init_ok Hrun)).
  clear Hrun. unfold Routes.streamStart in Hstart.
  destruct (MemStorage.getVideo _ _) as [video|]; [|discriminate].
  destruct (array_find _ _) as [pageCredential|]; [|discriminate].
  destruct response as [liveVideo|]; simpl in Hstart; [|discriminate].
  destruct (MemStorage.getConfiguration (Routes.storage app) configUuid now)
    as [st config].
  set (options := FFmpeg.mkOptions _ _ _ _) in Hstart.
  pose proof (startStream_promise (Routes.ffmpeg app) options inputExists Hok) as Hp.
  assert (Hex : inputExists = false ->
                exists reason,
                  FFmpeg.settled (fst (FFmpeg.startStream (Routes.ffmpeg app) options inputExists))
                                 (snd (FFmpeg.startStream (Routes.ffmpeg app) options inputExists))
                  = Some (FFmpeg.Rejected reason)).
  { intros ->. unfold FFmpeg.startStream.
    destruct (FFmpeg.isStreaming (Routes.ffmpeg app)); simpl; eexists;
      unfold FFmpeg.settled; simpl; now rewrite nth_error_last. }
  destruct (FFmpeg.startStream (Routes.ffmpeg app) options inputExists) as [ff promise].
  simpl in Hp, Hex.
  destruct (FFmpeg.await ff promise during) as [ff' [[value|reason]|]] eqn:Ea;
    try discriminate.
  simpl in Hstart. injection Hstart as <- <-. simpl.
  assert (Hpending : nth_error (FFmpeg.promises ff) promise = Some None /\
                     not_awaited promise ff).
  { destruct Hp as [[reason Hr]|Hp]; [|exact Hp].
    rewrite (await_settled _ _ _ _ Hr) in Ea. discriminate. }
  destruct Hpending as [Hpend Hn].
  destruct (await_launch during ff promise ff' value Hn Hpend Ea) as (_ & Hs & Ha).
  repeat split; auto.
  - destruct inputExists; auto. destruct (Hex eq_refl) as [reason Hr].
    apply settled_nth in Hr. congruence.
  - apply get_set_same.
  - exists video. auto.
Qed.

Lemma streamStart_success_witness :
  FFmpeg.getStreamingStatus (Routes.ffmpeg on_air) = true /\
  JsMap.get (MemStorage.sessions (Routes.storage on_air)) "s1" =
  Some (mkSession "s1" "streaming" (Some "v1") (Some "page") (Some "Live")
                  (Some "From the studio") (Some 10) None 10).
Proof.
  destruct (streamStart_success [] studio on_air []
              (Routes.mkStartBody "v1" "page" "Live" "From the studio") "cfg" "s1" 10
              (Some (Facebook.mkLiveVideo "fb1" "rtmp://x")) true [FFmpeg.Fire 0%nat]
              (mkSession "s1" "streaming" (Some "v1") (Some "page") (Some "Live")
                         (Some "From the studio") (Some 10) None 10)
              eq_refl eq_refl) as (Hs & _ & _ & _ & Hget & _).
  split; assumption.
Defined.

(** A start request that does not answer a session has created no session
    and broadcast nothing; when the video or the credentials are not found
    it has changed nothing at all, and when Facebook refuses it has spawned
    no process. *)
Theorem streamStart_failure (app : Routes.t) (body : Routes.StartBody)
        (configUuid uuid : string) (now : Date)
        (response : option Facebook.LiveVideoResponse) (inputExists : bool)
        (during : list FFmpeg.Event) :
  let r := Routes.streamStart app body configUuid uuid now response inputExists during in
  ((forall session, snd r <> Some (Routes.json_session session)) ->
   MemStorage.sessions (Routes.storage (fst r)) = MemStorage.sessions (Routes.storage app) /\
   Routes.broadcasts (fst r) = Routes.broadcasts app) /\
  (MemStorage.getVideo (Routes.storage app) (Routes.videoId body) = None ->
   r = (app, Some (Routes.json_error 404 "Video not found"))) /\
  (MemStorage.getVideo (Routes.storage app) (Routes.videoId body) <> None ->
   (forall c, In c (MemStorage.getFacebookCredentials (Routes.storage app)) ->
              fc_pageId c <> Routes.facebookPageId body) ->
   r = (app, Some (Routes.json_error 400 "Facebook credentials not found"))) /\
  (response = None ->
   Routes.ffmpeg (fst r) = Routes.ffmpeg app /\
   Routes.storage (fst r) = Routes.storage app).
Proof.
  unfold Routes.streamStart. repeat apply conj.
  - intros Hnot.
    destruct (MemStorage.getVideo _ _) as [video|]; [|auto].
    destruct (array_find _ _) as [pageCredential|]; [|auto].
    destruct response as [liveVideo|]; simpl in *; [|auto].
    pose proof (getConfiguration_sessions (Routes.storage app) configUuid now) as Hc.
    destruct (MemStorage.getConfiguration (Routes.storage app) configUuid now)
      as [st config].
    destruct (FFmpeg.startStream _ _ _) as [ff promise].
    destruct (FFmpeg.await ff promise during) as [ff' [[value|reason]|]]; simpl in *; auto.
    exfalso. eapply Hnot. reflexivity.
  - now intros ->.
  - intros Hvideo Hcred.
    destruct (MemStorage.getVideo _ _) as [video|]; [|congruence].
    destruct (array_find _ _) as [pageCredential|] eqn:E; [|reflexivity].
    exfalso. rewrite array_find_filter in E.
    destruct (filter _ _) as [|c l] eqn:Ef; [discriminate|].
    assert (Hin : In c (c :: l)) by now left.
    rewrite <- Ef in Hin. apply filter_In in Hin. destruct Hin as [Hin Heq].
    apply String.eqb_eq in Heq. exact (Hcred c Hin Heq).
  - intros ->.
    destruct (MemStorage.getVideo _ _) as [video|]; [|auto].
    destruct (array_find _ _) as [pageCredential|]; auto.
Qed.

Lemma streamStart_failure_witness :
  Routes.streamStart studio (Routes.mkStartBody "v2" "page" "Live" "From the studio")
                     "cfg" "s1" 10 (Some (Facebook.mkLiveVideo "fb1" "rtmp://x")) true
                     [FFmpeg.Fire 0%nat]
  = (studio, Some (Routes.json_error 404 "Video not found")).
Proof.
  now apply streamStart_failure.
Defined.

(** After the process of a stream has gone without [stopStream], a stop
    request still succeeds: when a session has status [streaming] and the
    service is not streaming, the request marks the session stopped with
    the time of the request, broadcasts it, and sends no signal and arms no
    timer. *)
Theorem streamStop_stale_session (app : Routes.t) (now : Date)
        (during : list FFmpeg.Event) (currentSession : StreamingSession)
        (Hok : sessions_ok (Routes.storage app))
        (Hsession : MemStorage.getCurrentSession (Routes.storage app) = Some currentSession)
        (Hidle : FFmpeg.getStreamingStatus (Routes.ffmpeg app) = false) :
  let r := Routes.streamStop app now during in
  snd r = Some Routes.json_success /\
  JsMap.get (MemStorage.sessions (Routes.storage (fst r))) (s_id currentSession) =
  Some (stopped currentSession now) /\
  Routes.broadcasts (fst r) =
  Routes.broadcasts app ++ [Routes.stream_stopped (s_id currentSession)] /\
  FFmpeg.processes (Routes.ffmpeg (fst r)) = FFmpeg.processes (Routes.ffmpeg app) /\
  FFmpeg.timers (Routes.ffmpeg (fst r)) = FFmpeg.timers (Routes.ffmpeg app).
Proof.
  unfold Routes.streamStop, FFmpeg.getStreamingStatus in *. rewrite Hsession.
  unfold FFmpeg.stopStream. rewrite Hidle.
  rewrite (await_settled _ _ _ (FFmpeg.Resolved false))
    by (unfold FFmpeg.settled; simpl; now rewrite nth_error_last).
  apply getCurrentSession_In in Hsession. destruct Hsession as [Hin _].
  pose proof (updateSession_found (Routes.storage app) currentSession
                (mkPartialSession (Some "stopped") None None None None None
                                  (Some (Some now))) Hok Hin) as Hu.
  destruct (MemStorage.updateSession _ _ _) as [st o]. simpl in *. subst st.
  repeat split. simpl. apply get_set_same.
Qed.

Lemma streamStop_stale_session_witness :
  session_status (fst (Routes.streamStop after_exit 30 [])) "s1" = Some "stopped".
Proof.
  destruct (streamStop_stale_session after_exit 30 []
              (mkSession "s1" "streaming" (Some "v1") (Some "page") (Some "Live")
                         (Some "From the studio") (Some 10) None 10))
    as (_ & Hget & _).
  - split.
    + repeat constructor. simpl. tauto.
    + simpl. intros k s [[= <- <-]|[]]. reflexivity.
  - reflexivity.
  - reflexivity.
  - exact (f_equal (option_map s_status) Hget).
Defined.

(** No request and no callback makes the server call [endLiveVideo]: over
    any sequence of start requests, stop requests and callbacks of the
    service, the calls to Facebook that are there at the end are those that
    were there, followed by [createLiveVideo] calls only. *)
Theorem endLiveVideo_never_called (actions : list Routes.Action) (app app' : Routes.t)
        (responses : list Routes.Response)
        (Hrun : Routes.run app actions = Some (app', responses)) :
  exists calls,
    Routes.facebook app' = Routes.facebook app ++ calls /\
    forallb (fun c => negb (Facebook.is_end c)) calls = true.
Proof.
  revert app responses Hrun.
  induction actions as [|a actions IH]; intros app responses Hrun; simpl in Hrun.
  - injection Hrun as <- _. exists []. now rewrite app_nil_r.
  - destruct (Routes.act app a) as [[app1 r1]|] eqn:Ea; [|discriminate].
    destruct (Routes.run app1 actions) as [[app2 r2]|] eqn:Er; [|discriminate].
    injection Hrun as <- _.
    destruct (IH app1 r2 Er) as (calls & Hcalls & Hnone).
    assert (H1 : exists calls1,
               Routes.facebook app1 = Routes.facebook app ++ calls1 /\
               forallb (fun c => negb (Facebook.is_end c)) calls1 = true).
    { destruct a as [body configUuid uuid now response inputExists during|now during|e];
        simpl in Ea.
      - injection Ea as Ea. apply (f_equal fst) in Ea.
        rewrite fst_sent_response in Ea. simpl in Ea. subst app1.
        unfold Routes.streamStart.
        destruct (MemStorage.getVideo _ _) as [video|];
          [|exists []; now rewrite app_nil_r].
        destruct (array_find _ _) as [pageCredential|];
          [|exists []; now rewrite app_nil_r].
        destruct response as [liveVideo|]; simpl; [|eexists; split; reflexivity].
        destruct (MemStorage.getConfiguration _ _ _) as [st config].
        destruct (FFmpeg.startStream _ _ _) as [ff promise].
        destruct (FFmpeg.await ff promise during) as [ff' [[value|reason]|]]; simpl;
          eexists; split; reflexivity.
      - injection Ea as Ea. apply (f_equal fst) in Ea.
        rewrite fst_sent_response in Ea. simpl in Ea. subst app1.
        unfold Routes.streamStop.
        destruct (MemStorage.getCurrentSession _) as [currentSession|];
          [|exists []; now rewrite app_nil_r].
        destruct (FFmpeg.stopStream _) as [ff promise].
        destruct (FFmpeg.await ff promise during) as [ff' [[value|reason]|]]; simpl;
          try (exists []; now rewrite app_nil_r).
        destruct (MemStorage.updateSession _ _ _). exists []. simpl. now rewrite app_nil_r.
      - destruct (FFmpeg.step (Routes.ffmpeg app) e); [|discriminate].
        injection Ea as <- _. exists []. simpl. now rewrite app_nil_r. }
    destruct H1 as (calls1 & Hcalls1 & Hnone1).
    exists (calls1 ++ calls). split.
    + now rewrite Hcalls, Hcalls1, app_assoc.
    + now rewrite forallb_app, Hnone1, Hnone.
Qed.

Lemma endLiveVideo_never_called_witness :
  exists app' responses calls,
    Routes.run studio [start_request "s1" 10; stop_request 0 30] = Some (app', responses) /\
    Routes.facebook app' = calls /\
    forallb (fun c => negb (Facebook.is_end c)) calls = true.
Proof.
  destruct (Routes.run studio [start_request "s1" 10; stop_request 0 30])
    as [[app' responses]|] eqn:E; [|vm_compute in E; discriminate].
  destruct (endLiveVideo_never_called _ studio app' responses E) as (calls & Hc & Hn).
  exists app', responses, calls. repeat split; auto.
Defined.

(** Deleting an unknown video answers 404 and changes nothing; deleting a
    known one removes it from the catalog and broadcasts it, and touches
    neither the queue map, nor the sessions, nor the service: entries and
    sessions that name the video, and a stream of it, are left as they
    are. *)
Theorem deleteVideo_route (app : Routes.t) (id : string) :
  (MemStorage.getVideo (Routes.storage app) id = None ->
   Routes.deleteVideo app id = (app, Routes.json_error 404 "Video not found")) /\
  (MemStorage.getVideo (Routes.storage app) id <> None ->
   let r := Routes.deleteVideo app id in
   snd r = Routes.json_success /\
   MemStorage.getVideo (Routes.storage (fst r)) id = None /\
   MemStorage.queue (Routes.storage (fst r)) = MemStorage.queue (Routes.storage app) /\
   MemStorage.sessions (Routes.storage (fst r)) = MemStorage.sessions (Routes.storage app) /\
   Routes.ffmpeg (fst r) = Routes.ffmpeg app /\
   Routes.broadcasts (fst r) = Routes.broadcasts app ++ [Routes.video_deleted id] /\
   MemStorage.getQueue (Routes.storage (fst r)) =
   filter (fun e => negb (String.eqb (q_videoId (fst e)) id))
          (MemStorage.getQueue (Routes.storage app))).
Proof.
  unfold Routes.deleteVideo. split.
  - now intros ->.
  - intros Hsome.
    destruct (MemStorage.getVideo (Routes.storage app) id) as [video|]; [|congruence].
    pose proof (deleteVideo_getVideo (Routes.storage app) id) as Hgone.
    unfold MemStorage.deleteVideo in *.
    pose proof (fun id' => get_delete_other (MemStorage.videos (Routes.storage app)) id id')
      as Hother.
    destruct (JsMap.delete (MemStorage.videos (Routes.storage app)) id) as [m b].
    simpl in *. repeat split; auto.
    unfold MemStorage.getQueue. simpl.
    unfold MemStorage.getVideo in Hgone. simpl in Hgone.
    induction (array_sort MemStorage.by_position
                 (JsMap.values (MemStorage.queue (Routes.storage app))))
      as [|item l IH]; simpl; auto.
    destruct (String.eqb (q_videoId item) id) eqn:E.
    + pose proof E as E'. apply String.eqb_eq in E'. rewrite E', Hgone.
      destruct (JsMap.get (MemStorage.videos (Routes.storage app)) id); simpl;
        rewrite ?E; simpl; exact IH.
    + pose proof E as E'. apply String.eqb_neq in E'. rewrite (Hother _ E').
      destruct (JsMap.get (MemStorage.videos (Routes.storage app)) (q_videoId item));
        simpl; auto.
      rewrite E. simpl. now rewrite IH.
Qed.

Lemma deleteVideo_route_witness :
  List.map (fun e => q_id (fst e))
    (MemStorage.getQueue
       (Routes.storage
          (fst (Routes.deleteVideo
                  (Routes.mk (queue_of_two 0 1) FFmpeg.init [] []) "v1"))))
  = ["b"].
Proof.
  destruct (deleteVideo_route (Routes.mk (queue_of_two 0 1) FFmpeg.init [] []) "v1")
    as [_ H].
  destruct H as (_ & _ & _ & _ & _ & _ & Hq); [discriminate|].
  exact (f_equal (List.map (fun e => q_id (fst e))) Hq).
Defined.

(** Removing a queue entry over HTTP always answers success: for an
    unknown identifier the storage is what it was, and the queue is
    broadcast all the same. *)
Theorem deleteQueueItem_unknown (app : Routes.t) (id : string)
        (Hunknown : JsMap.get (MemStorage.queue (Routes.storage app)) id = None) :
  Routes.deleteQueueItem app id =
  (Routes.mk (Routes.storage app) (Routes.ffmpeg app) (Routes.facebook app)
             (Routes.broadcasts app ++
                [Routes.queue_updated (MemStorage.getQueue (Routes.storage app))]),
   Routes.json_success).
Proof.
  unfold Routes.deleteQueueItem, MemStorage.removeFromQueue.
  pose proof (delete_absent (MemStorage.queue (Routes.storage app)) id) as Hn.
  destruct (JsMap.delete (MemStorage.queue (Routes.storage app)) id) as [m b].
  simpl in Hn. rewrite Hn, with_queue_same; [reflexivity|].
  rewrite <- get_keys. congruence.
Qed.

Lemma deleteQueueItem_unknown_witness :
  snd (Routes.deleteQueueItem Routes.init "nothing") = Routes.json_success.
Proof.
  now rewrite (deleteQueueItem_unknown Routes.init "nothing" eq_refl).
Defined.

(** * The upload, the sampler, the arguments of ffmpeg *)

(** An upload stores a video only when there is a file, the probe resolved
    and the schema accepted what the probe returned; the video then has the
    names of the file, is stored under the new identifier and is broadcast.
    In every other case the storage and the messages broadcast are what
    they were. *)
Theorem upload_creates_only_on_success
        (parse : Upload.VideoData -> option InsertVideo)
        (st : MemStorage.t) (sent : list Upload.Message) (file : option Upload.File)
        (videoInfo : option VideoInfo.Outcome) (uuid : string) (now : Date) :
  let r := Upload.upload parse st sent file videoInfo uuid now in
  ((forall video, snd r <> Some (Upload.json_video video)) ->
   fst r = (st, sent)) /\
  (forall video,
      snd r = Some (Upload.json_video video) ->
      exists f duration size videoData,
        file = Some f /\
        videoInfo = Some (VideoInfo.Resolve duration size) /\
        parse (Upload.mkVideoData (Upload.filename f) (Upload.originalname f)
                                  size duration "ready") = Some videoData /\
        video = snd (MemStorage.createVideo st videoData uuid now) /\
        fst r = (fst (MemStorage.createVideo st videoData uuid now),
                 sent ++ [Upload.video_uploaded video]) /\
        MemStorage.getVideo (fst (fst r)) uuid = Some video) /\
  (file = None -> snd r = Some (Upload.json_error 400 "No video file provided")).
Proof.
  unfold Upload.upload. repeat apply conj.
  - intros Hnot. destruct file as [f|]; [|reflexivity].
    destruct videoInfo as [[duration size|message|]|]; try reflexivity.
    destruct (parse _) as [videoData|]; [|reflexivity].
    exfalso. simpl in Hnot. eapply Hnot. reflexivity.
  - intros video Hvideo. destruct file as [f|]; [|discriminate].
    destruct videoInfo as [[duration size|message|]|]; try discriminate.
    destruct (parse _) as [videoData|] eqn:Eparse; [|discriminate].
    simpl in Hvideo. injection Hvideo as <-.
    exists f, duration, size, videoData. simpl. repeat split; auto.
    unfold MemStorage.getVideo. simpl. apply get_set_same.
  - now intros ->.
Qed.

Lemma upload_creates_only_on_success_witness :
  fst (Upload.upload (fun _ => None) MemStorage.init []
                     (Some (Upload.mkFile "f1" "clip.mp4" "video/mp4"))
                     (Some (VideoInfo.Resolve VideoInfo.NaN VideoInfo.NaN)) "v1" 1)
  = (MemStorage.init, []).
Proof.
  apply upload_creates_only_on_success. intros video. discriminate.
Defined.

(** ** The sampler *)

Lemma pick_range (r : Q) (range base : Z) :
  (0 <= r)%Q -> (r < 1)%Q -> 0 < range ->
  base <= Sampler.pick r range base <= base + range - 1.
Proof.
  intros H0 H1 Hr. unfold Sampler.pick.
  assert (Hlo : 0 <= Qfloor (r * inject_Z range)).
  { change 0 with (Qfloor 0). apply Qfloor_resp_le.
    apply Qmult_le_0_compat; auto. change 0%Q with (inject_Z 0).
    rewrite <- Zle_Qle. lia. }
  assert (Hhi : Qfloor (r * inject_Z range) < range).
  { rewrite Zlt_Qlt. eapply Qle_lt_trans; [apply Qfloor_le|].
    setoid_replace (inject_Z range) with (1 * inject_Z range)%Q at 2 by ring.
    apply Qmult_lt_compat_r; auto. change 0%Q with (inject_Z 0).
    rewrite <- Zlt_Qlt. lia. }
  lia.
Qed.

(** The sampler records nothing unless a session has status [streaming],
    the service is streaming and the session has a start time; when it
    records, the sample is for the session [getCurrentSession] finds, its
    duration is the whole seconds since the start of the session, its
    counters are within the ranges of the code, and it is broadcast. *)
Theorem tick_samples (toFixed1 : Q -> string) (st : MemStorage.t) (ff : FFmpeg.t)
        (ms : Metrics.t) (sent : list Sampler.Message) (random : Sampler.Random)
        (uuid : string) (dateNow now : Date)
        (Hcv : (0 <= Sampler.r_currentViewers random)%Q /\
               (Sampler.r_currentViewers random < 1)%Q)
        (Hpv : (0 <= Sampler.r_peakViewers random)%Q /\
               (Sampler.r_peakViewers random < 1)%Q)
        (Htr : (0 <= Sampler.r_totalReach random)%Q /\
               (Sampler.r_totalReach random < 1)%Q)
        (Hdu : (0 <= Sampler.r_dataUsage random)%Q /\
               (Sampler.r_dataUsage random < 1)%Q) :
  let r := Sampler.tick toFixed1 st ff ms sent random uuid dateNow now in
  ((MemStorage.getCurrentSession st = None \/ FFmpeg.getStreamingStatus ff = false \/
    (exists s, MemStorage.getCurrentSession st = Some s /\ s_startTime s = None)) ->
   r = (ms, sent)) /\
  (forall currentSession startTime,
      MemStorage.getCurrentSession st = Some currentSession ->
      FFmpeg.getStreamingStatus ff = true ->
      s_startTime currentSession = Some startTime ->
      exists m,
        r = (JsMap.set ms uuid m, sent ++ [Sampler.metrics_updated m]) /\
        m_id m = uuid /\ m_sessionId m = s_id currentSession /\
        m_timestamp m = now /\
        m_duration m = (dateNow - startTime) / 1000 /\
        500 <= m_currentViewers m <= 2499 /\
        1000 <= m_peakViewers m <= 3999 /\
        2000 <= m_totalReach m <= 11999 /\
        500 <= m_dataUsage m <= 1499).
Proof.
  unfold Sampler.tick. split.
  - intros [->|[H|(s & -> & Hs)]]; auto.
    + destruct (MemStorage.getCurrentSession st); auto. now rewrite H.
    + rewrite Hs. now destruct (FFmpeg.getStreamingStatus ff).
  - intros currentSession startTime -> -> ->. simpl. eexists. split; [reflexivity|].
    simpl. repeat apply conj; try reflexivity;
      match goal with
      | |- _ <= Sampler.pick ?r ?range ?base =>
          apply (proj1 (pick_range r range base ltac:(tauto) ltac:(tauto) ltac:(lia)))
      | |- Sampler.pick ?r ?range ?base <= _ =>
          pose proof (proj2 (pick_range r range base ltac:(tauto) ltac:(tauto) ltac:(lia)));
          lia
      end.
Qed.

Lemma tick_samples_witness :
  Sampler.tick (fun _ => "5.0") (Routes.storage after_exit) (Routes.ffmpeg after_exit)
               JsMap.empty [] (Sampler.mkRandom 0 0 0 0 0) "m1" 5000 5000
  = (JsMap.empty, []).
Proof.
  apply tick_samples; try (split; [apply Qle_refl|reflexivity]).
  right. left. reflexivity.
Defined.

(** ** The arguments of ffmpeg *)

Lemma parseInt_not_a_number (s : string) :
  VideoInfo.skip_space (list_ascii_of_string s) = [] \/
  (exists c rest,
      VideoInfo.skip_space (list_ascii_of_string s) = c :: rest /\
      VideoInfo.is_digit c = false /\ c <> "+"%char /\ c <> "-"%char) ->
  VideoInfo.parseInt_string s = VideoInfo.NaN.
Proof.
  unfold VideoInfo.parseInt_string.
  intros [->|(c & rest & -> & Hdigit & Hplus & Hminus)]; [reflexivity|].
  assert (Hsign : VideoInfo.sign (c :: rest) = (false, c :: rest)).
  { destruct c as [[] [] [] [] [] [] [] []]; try reflexivity; congruence. }
  rewrite Hsign.
  assert (Hspan : VideoInfo.span VideoInfo.is_digit (c :: rest) = ([], c :: rest))
    by (simpl; now rewrite Hdigit).
  destruct c as [[] [] [] [] [] [] [] []]; now rewrite Hspan.
Qed.

(** For a bit rate written in at most fifteen decimal digits, the rate and
    the maximal rate given to ffmpeg are the bit rate followed by [k], and
    the buffer size is the printing of twice its value followed by [k]. *)
Theorem ffmpegArgs_bufsize (Number_toString : VideoInfo.Number -> string)
        (inputPath : string) (options : FFmpeg.StreamingOptions) (ds : list ascii)
        (Hds : VideoInfo.digits ds)
        (Hlength : (List.length ds <= 15)%nat)
        (Hbitrate : FFmpeg.bitrate options = string_of_list_ascii ds) :
  let args := Args.ffmpegArgs Number_toString inputPath options in
  nth_error args 8 = Some (String.append (string_of_list_ascii ds) "k") /\
  nth_error args 10 = Some (String.append (string_of_list_ascii ds) "k") /\
  nth_error args 12 =
  Some (String.append
          (Number_toString
             (VideoInfo.Finite (inject_Z (VideoInfo.number_of 10 VideoInfo.digit ds * 2))))
          "k").
Proof.
  unfold Args.ffmpegArgs. cbn [nth_error]. rewrite Hbitrate.
  rewrite (parseInt_digits ds Hds Hlength).
  pose proof (number_of_digits_range ds (proj2 Hds)) as Hrange.
  pose proof (pow10_length ds Hlength) as Hpow. pose proof pow10_15 as H15.
  unfold Args.times.
  change (inject_Z (VideoInfo.number_of 10 VideoInfo.digit ds) * inject_Z 2)%Q
    with (inject_Z (VideoInfo.number_of 10 VideoInfo.digit ds * 2)).
  now rewrite round_double_integer by lia.
Qed.

Lemma ffmpegArgs_bufsize_witness :
  nth_error (Args.ffmpegArgs write_number "/srv/uploads/f1"
                             (FFmpeg.mkOptions "f1" "rtmp://live" "1080p" "4000")) 12
  = Some "8000k".
Proof.
  apply (ffmpegArgs_bufsize write_number "/srv/uploads/f1"
           (FFmpeg.mkOptions "f1" "rtmp://live" "1080p" "4000")
           (list_ascii_of_string "4000")).
  - split; [discriminate | reflexivity].
  - simpl. lia.
  - reflexivity.
Defined.

(** A bit rate that, after its white space, is empty or starts with a
    character that is neither a sign nor a digit is given to ffmpeg as it
    is, and the buffer size is the printing of NaN followed by [k]:
    nothing checks the bit rate of the configuration. *)
Theorem ffmpegArgs_bufsize_NaN (Number_toString : VideoInfo.Number -> string)
        (inputPath : string) (options : FFmpeg.StreamingOptions)
        (Hbitrate :
           VideoInfo.skip_space (list_ascii_of_string (FFmpeg.bitrate options)) = [] \/
           exists c rest,
             VideoInfo.skip_space (list_ascii_of_string (FFmpeg.bitrate options))
             = c :: rest /\
             VideoInfo.is_digit c = false /\ c <> "+"%char /\ c <> "-"%char) :
  let args := Args.ffmpegArgs Number_toString inputPath options in
  nth_error args 8 = Some (String.append (FFmpeg.bitrate options) "k") /\
  nth_error args 12 = Some (String.append (Number_toString VideoInfo.NaN) "k").
Proof.
  unfold Args.ffmpegArgs. cbn [nth_error]. split; [reflexivity|].
  now rewrite (parseInt_not_a_number _ Hbitrate).
Qed.

Lemma ffmpegArgs_bufsize_NaN_witness :
  nth_error (Args.ffmpegArgs write_number "/srv/uploads/f1"
                             (FFmpeg.mkOptions "f1" "rtmp://live" "1080p" " high")) 12
  = Some "NaNk".
Proof.
  apply (ffmpegArgs_bufsize_NaN write_number "/srv/uploads/f1"
           (FFmpeg.mkOptions "f1" "rtmp://live" "1080p" " high")).
  right. exists "h"%char, (list_ascii_of_string "igh"). repeat split; discriminate.
Defined.

(** ** Stopping a process that ends *)

(** [stopStream] on a stream whose process is running returns a promise
    that is pending, and stays pending when the process ends; the ['close']
    of the process then resolves it with [true], and the service is not
    streaming, has no handle and no stream information any more. *)
Theorem stopStream_settles_on_close (s : FFmpeg.t) (pid : nat) (p : FFmpeg.ChildProcess)
        (Hok : service_ok s)
        (Hs : FFmpeg.isStreaming s = true)
        (Hh : FFmpeg.streamingProcess s = Some pid)
        (Hp : FFmpeg.process s pid = Some p)
        (Hr : FFmpeg.running p = true) :
  let s1 := fst (FFmpeg.stopStream s) in
  let promise := snd (FFmpeg.stopStream s) in
  FFmpeg.settled s1 promise = None /\
  exists s2 s3,
    FFmpeg.step s1 (FFmpeg.ProcessExits pid) = Some s2 /\
    FFmpeg.settled s2 promise = None /\
    FFmpeg.step s2 (FFmpeg.EmitClose pid) = Some s3 /\
    FFmpeg.settled s3 promise = Some (FFmpeg.Resolved true) /\
    FFmpeg.getStreamingStatus s3 = false /\
    FFmpeg.isProcessAlive s3 = false /\
    FFmpeg.getCurrentStreamInfo s3 = None.
Proof.
  assert (Hc : FFmpeg.closed p = false).
  { destruct (ok_handle s Hok pid Hh) as (p' & Hp' & Hc). congruence. }
  assert (Hnot : ~ In (FFmpeg.StopClose (List.length (FFmpeg.promises s)))
                      (FFmpeg.closeListeners p)).
  { intros Hin.
    assert (Hlt : (List.length (FFmpeg.promises s) < List.length (FFmpeg.promises s))%nat).
    { apply (ok_promises s Hok). exists pid, p. auto. }
    lia. }
  unfold FFmpeg.stopStream. rewrite Hs, Hh. cbn [fst snd]. unfold FFmpeg.process in Hp.
  split.
  { unfold FFmpeg.settled. cbn [FFmpeg.promises]. now rewrite nth_error_last. }
  eexists. eexists. split.
  { unfold FFmpeg.step, FFmpeg.process. cbn [FFmpeg.processes].
    rewrite nth_error_update_nth, Nat.eqb_refl, Hp. cbn. rewrite Hr. reflexivity. }
  split.
  { unfold FFmpeg.settled. cbn. now rewrite nth_error_last. }
  split.
  { unfold FFmpeg.step, FFmpeg.process, FFmpeg.with_processes. cbn [FFmpeg.processes].
    rewrite !nth_error_update_nth, Nat.eqb_refl, Hp. cbn. rewrite Hc. cbn.
    reflexivity. }
  rewrite fold_left_app. cbn [fold_left FFmpeg.on_close].
  unfold FFmpeg.getStreamingStatus, FFmpeg.isProcessAlive, FFmpeg.getCurrentStreamInfo,
    FFmpeg.handle_not_killed, FFmpeg.settled.
  cbn [FFmpeg.promises FFmpeg.isStreaming FFmpeg.streamingProcess FFmpeg.currentStreamInfo].
  repeat split.
  unfold FFmpeg.settle. rewrite nth_error_update_nth, Nat.eqb_refl.
  rewrite (on_close_other _ _ _ Hnot). cbn [FFmpeg.promises FFmpeg.with_processes].
  now rewrite nth_error_last.
Qed.

Lemma stopStream_settles_on_close_witness :
  FFmpeg.settled (fst (FFmpeg.stopStream (Routes.ffmpeg on_air)))
                 (snd (FFmpeg.stopStream (Routes.ffmpeg on_air))) = None.
Proof.
  destruct (FFmpeg.process (Routes.ffmpeg on_air) 0) as [p|] eqn:Hp;
    [|vm_compute in Hp; discriminate].
  refine (proj1 (stopStream_settles_on_close (Routes.ffmpeg on_air) 0 p _ eq_refl eq_refl
                   Hp _)).
  - unfold on_air. apply streamStart_service_ok. exact init_ok.
  - vm_compute in Hp. injection Hp as <-. reflexivity.
Defined.

(** * The credentials of a page *)

Lemma array_find_app {A : Type} (p : A -> bool) (l l' : list A) (x : A) :
  array_find p l = Some x -> array_find p (l ++ l') = Some x.
Proof.
  rewrite !array_find_filter, filter_app.
  destruct (filter p l); simpl; [discriminate|auto].
Qed.

(** The credentials of a page are the first ones saved for it: after
    credentials are saved again, for the same page or another, a start
    request asks Facebook for the live video with the access token that
    was found before. *)
Theorem first_saved_credentials_are_used
        (app : Routes.t) (body : Routes.StartBody) (configUuid uuid : string) (now : Date)
        (response : option Facebook.LiveVideoResponse) (inputExists : bool)
        (during : list FFmpeg.Event)
        (insertCredentials : InsertFacebookCredentials) (credentialsUuid : string)
        (saved : Date) (video : Video) (old : FacebookCredentials)
        (Hfresh : JsMap.get (MemStorage.credentials (Routes.storage app)) credentialsUuid
                  = None)
        (Hvideo : MemStorage.getVideo (Routes.storage app) (Routes.videoId body)
                  = Some video)
        (Hold : array_find (fun c => String.eqb (fc_pageId c) (Routes.facebookPageId body))
                           (MemStorage.getFacebookCredentials (Routes.storage app))
                = Some old) :
  let st := fst (MemStorage.createFacebookCredentials (Routes.storage app)
                   insertCredentials credentialsUuid saved) in
  let app' := Routes.mk st (Routes.ffmpeg app) (Routes.facebook app)
                        (Routes.broadcasts app) in
  Routes.facebook
    (fst (Routes.streamStart app' body configUuid uuid now response inputExists during))
  = Routes.facebook app ++
      [Facebook.CreateLiveVideo (Routes.facebookPageId body) (fc_accessToken old)
                                (Routes.streamTitle body) (Routes.streamDescription body)].
Proof.
  unfold Routes.streamStart, MemStorage.createFacebookCredentials,
    MemStorage.getFacebookCredentials, MemStorage.getVideo in *.
  cbn [fst Routes.storage MemStorage.videos MemStorage.credentials Routes.facebook].
  rewrite Hvideo, values_set_absent
    by (rewrite <- get_keys; congruence).
  rewrite (array_find_app _ _ _ old Hold).
  unfold Facebook.createLiveVideo. destruct response as [liveVideo|]; [|reflexivity].
  destruct (MemStorage.getConfiguration _ _ _) as [st config].
  destruct (FFmpeg.startStream _ _ _) as [ff promise].
  destruct (FFmpeg.await ff promise during) as [ff' [[value|reason]|]]; reflexivity.
Qed.

Lemma first_saved_credentials_are_used_witness :
  Routes.facebook
    (fst (Routes.streamStart
            (Routes.mk (fst (MemStorage.createFacebookCredentials (Routes.storage studio)
                               (mkInsertCredentials "renewed" "page" "Page" None) "c2" 3))
                       FFmpeg.init [] [])
            (Routes.mkStartBody "v1" "page" "Live" "From the studio") "cfg" "s1" 10
            (Some (Facebook.mkLiveVideo "fb1" "rtmp://x")) true [FFmpeg.Fire 0%nat]))
  = [Facebook.CreateLiveVideo "page" "token" "Live" "From the studio"].
Proof.
  exact (first_saved_credentials_are_used studio
           (Routes.mkStartBody "v1" "page" "Live" "From the studio") "cfg" "s1" 10
           (Some (Facebook.mkLiveVideo "fb1" "rtmp://x")) true [FFmpeg.Fire 0%nat]
           (mkInsertCredentials "renewed" "page" "Page" None) "c2" 3
           (mkVideo "v1" "one.mp4" "One" 1000 (Some 60) "ready" 1)
           (mkCredentials "c1" "token" "page" "Page" true 2)
           eq_refl eq_refl eq_refl).
Defined.

(** * What the client shows *)

Lemma two_digits (n : nat) :
  (n < 60)%nat ->
  Client.padStart (decimal_string (Z.of_nat n)) 2 "0" =
  String (digit_char (Z.of_nat n / 10)) (String (digit_char (Z.of_nat n mod 10)) "").
Proof.
  intros Hn.
  assert (Hall : forallb (fun n =>
                   String.eqb (Client.padStart (decimal_string (Z.of_nat n)) 2 "0")
                              (String (digit_char (Z.of_nat n / 10))
                                      (String (digit_char (Z.of_nat n mod 10)) "")))
                   (seq 0 60) = true) by (vm_compute; reflexivity).
  rewrite forallb_forall in Hall. apply String.eqb_eq, Hall, in_seq. lia.
Qed.

(** The division of a whole number that a double holds by a whole number
    that [2 ^ 53] is not a multiple of is rounded to a double with the
    same floor. *)
Lemma floor_divide (s k : Z) :
  0 <= s < 2 ^ 53 -> 0 < k -> 2 ^ 53 mod k <> 0 ->
  VideoInfo.floor (Client.divide (VideoInfo.Finite (inject_Z s)) k) =
  VideoInfo.Finite (inject_Z (s / k)).
Proof.
  intros Hs Hk Hmod. unfold Client.divide, VideoInfo.round_double.
  destruct k as [|p|p]; try lia.
  unfold Qdiv, Qinv, Qmult, inject_Z. cbn [Qnum Qden]. rewrite Z.mul_1_r.
  change (1 * p)%positive with p.
  destruct s as [|a|a]; [now rewrite Z.div_0_l by lia| |lia].
  apply floor_nearest; try lia.
  set (s := Z.pos a) in *. set (k := Z.pos p) in *.
  pose proof (Z.div_mod s k ltac:(lia)) as Hd.
  pose proof (Z.mod_pos_bound s k ltac:(lia)) as Hb.
  assert (Hlast : s + 1 <> 2 ^ 53 \/ s mod k <> k - 1).
  { destruct (Z.eq_dec (s mod k) (k - 1)) as [Hr|]; [left|now right].
    intros Hfull. apply Hmod. rewrite <- Hfull.
    replace (s + 1) with ((s / k + 1) * k) by lia. apply Z.mod_mul. lia. }
  nia.
Qed.

Lemma remainder_integer (s k : Z) :
  0 <= s -> 0 < k ->
  Client.remainder (VideoInfo.Finite (inject_Z s)) k =
  VideoInfo.Finite (inject_Z (s mod k)).
Proof.
  intros Hs Hk. unfold Client.remainder. f_equal. apply Qred_inject_Z.
  cbn [Qnum Qden inject_Z]. rewrite Z.mul_1_l, Z.quot_div_nonneg by lia.
  unfold Qeq, Qminus, Qplus, Qopp. cbn [Qnum Qden].
  rewrite (Z.mod_eq s k) by lia. simpl. lia.
Qed.

(** For a whole number of seconds that a double holds, and a printing of
    numbers that writes such integers in decimal, the queue shows the
    minutes, a colon and the seconds of the last minute in exactly two
    digits. *)
Theorem formatDuration_two_digits (Number_toString : VideoInfo.Number -> string)
        (seconds : Z)
        (Hprint : prints_integers Number_toString)
        (Hseconds : 0 <= seconds < 2 ^ 53) :
  Client.StreamingQueue.formatDuration Number_toString
                                       (VideoInfo.Finite (inject_Z seconds)) =
  String.append (decimal_string (seconds / 60))
                (String ":" (String (digit_char (seconds mod 60 / 10))
                                    (String (digit_char (seconds mod 60 mod 10)) ""))).
Proof.
  unfold Client.StreamingQueue.formatDuration. cbn zeta.
  rewrite floor_divide by (try lia; vm_compute; discriminate).
  rewrite remainder_integer by lia.
  assert (Hr : 0 <= seconds mod 60 < 60) by (apply Z.mod_pos_bound; lia).
  assert (Hm : 0 <= seconds / 60 < 2 ^ 53).
  { split; [apply Z.div_pos; lia|]. apply Z.div_lt_upper_bound; lia. }
  rewrite !Hprint by lia.
  rewrite <- (Z2Nat.id (seconds mod 60)) by lia.
  rewrite two_digits by lia. reflexivity.
Qed.

Lemma write_number_integers : prints_integers write_number.
Proof.
  intros z _. unfold write_number. now rewrite Qfloor_Z.
Qed.

Lemma formatDuration_two_digits_witness :
  Client.StreamingQueue.formatDuration write_number (VideoInfo.Finite (inject_Z 125))
  = "2:05".
Proof.
  rewrite (formatDuration_two_digits write_number 125 write_number_integers)
    by (vm_compute; split; [discriminate|reflexivity]).
  reflexivity.
Defined.

(** For a whole number of seconds that a double holds, the analytics
    compute whole hours and minutes, the minutes below sixty, which are
    the duration less the seconds of the last minute, and show them in
    decimal when the printing of numbers writes such integers so. *)
Theorem analytics_formatDuration (Number_toString : VideoInfo.Number -> string)
        (seconds : Z)
        (Hprint : prints_integers Number_toString)
        (Hseconds : 0 <= seconds < 2 ^ 53) :
  let h := seconds / 3600 in
  let m := seconds mod 3600 / 60 in
  Client.StreamAnalytics.hours (VideoInfo.Finite (inject_Z seconds)) =
  VideoInfo.Finite (inject_Z h) /\
  Client.StreamAnalytics.minutes (VideoInfo.Finite (inject_Z seconds)) =
  VideoInfo.Finite (inject_Z m) /\
  0 <= h /\ 0 <= m < 60 /\
  h * 3600 + m * 60 <= seconds < h * 3600 + m * 60 + 60 /\
  Client.StreamAnalytics.formatDuration Number_toString
                                        (VideoInfo.Finite (inject_Z seconds)) =
  String.append (decimal_string h)
                (String.append "h " (String.append (decimal_string m) "m")).
Proof.
  cbn zeta.
  pose proof (Z.div_mod seconds 3600 ltac:(lia)) as Hd.
  pose proof (Z.mod_pos_bound seconds 3600 ltac:(lia)) as Hb.
  pose proof (Z.div_mod (seconds mod 3600) 60 ltac:(lia)) as Hd'.
  pose proof (Z.mod_pos_bound (seconds mod 3600) 60 ltac:(lia)) as Hb'.
  assert (Hh : 0 <= seconds / 3600 < 2 ^ 53).
  { split; [apply Z.div_pos; lia|]. apply Z.div_lt_upper_bound; lia. }
  assert (Hm : 0 <= seconds mod 3600 / 60 < 60).
  { split; [apply Z.div_pos; lia | apply Z.div_lt_upper_bound; lia]. }
  assert (Hhours : Client.StreamAnalytics.hours (VideoInfo.Finite (inject_Z seconds)) =
                   VideoInfo.Finite (inject_Z (seconds / 3600))).
  { unfold Client.StreamAnalytics.hours.
    apply floor_divide; try lia. vm_compute. discriminate. }
  assert (Hminutes : Client.StreamAnalytics.minutes (VideoInfo.Finite (inject_Z seconds)) =
                     VideoInfo.Finite (inject_Z (seconds mod 3600 / 60))).
  { unfold Client.StreamAnalytics.minutes. rewrite remainder_integer by lia.
    apply floor_divide; try lia. vm_compute. discriminate. }
  repeat apply conj; try lia; auto.
  unfold Client.StreamAnalytics.formatDuration.
  rewrite Hhours, Hminutes, !Hprint by lia. reflexivity.
Qed.

Lemma analytics_formatDuration_witness :
  Client.StreamAnalytics.formatDuration write_number (VideoInfo.Finite (inject_Z 3725))
  = "1h 2m".
Proof.
  destruct (analytics_formatDuration write_number 3725 write_number_integers)
    as (_ & _ & _ & _ & _ & H).
  - vm_compute. split; [discriminate|reflexivity].
  - rewrite H. reflexivity.
Defined.

(** * The guard and the escalation, on a stream that is on air *)

Lemma streamStart_while_streaming_witness :
  MemStorage.sessions
    (Routes.storage
       (fst (Routes.streamStart on_air
               (Routes.mkStartBody "v1" "page" "Again" "From the studio") "cfg" "s2" 20
               (Some (Facebook.mkLiveVideo "fb2" "rtmp://y")) true [FFmpeg.Fire 0%nat])))
  = MemStorage.sessions (Routes.storage on_air).
Proof.
  exact (proj1 (streamStart_while_streaming on_air
                  (Routes.mkStartBody "v1" "page" "Again" "From the studio") "cfg" "s2" 20
                  (Some (Facebook.mkLiveVideo "fb2" "rtmp://y")) true [FFmpeg.Fire 0%nat]
                  eq_refl)).
Defined.

Lemma escalation_after_SIGTERM_witness :
  FFmpeg.on_escalation (fst (FFmpeg.stopStream (Routes.ffmpeg on_air)))
  = fst (FFmpeg.stopStream (Routes.ffmpeg on_air)).
Proof.
  destruct (FFmpeg.process (Routes.ffmpeg on_air) 0) as [p|] eqn:Hp;
    [|vm_compute in Hp; discriminate].
  apply (escalation_after_SIGTERM (Routes.ffmpeg on_air) 0 p eq_refl eq_refl Hp).
  vm_compute in Hp. injection Hp as <-. reflexivity.
Defined.
